(** * Driver Manager (driver_manager/driver_manager.py): model and properties

    A shallow embedding of the Simumatik driver manager.  Python
    dictionaries are insertion-ordered association lists (the order is
    observable: the compatibility search returns the first match and
    shutdown pops the most recent entry), exceptions are an error
    monad, and the effects on worker tasks and worker channels are
    recorded in an event trace carried by the manager state. *)

From stdpp Require Import base decidable option list strings pretty gmap.
From Stdlib Require Import ZArith Lia.
From Stdlib Require Import Floats.

Open Scope string_scope.
Open Scope list_scope.
Open Scope nat_scope.

(** ** Python dictionaries *)

Definition pydict (V : Type) : Type := list (string * V).

Fixpoint dict_get {V} (k : string) (d : pydict V) : option V :=
  match d with
  | [] => None
  | (k', v) :: rest => if decide (k' = k) then Some v else dict_get k rest
  end.

(** [d[k] = v]: an existing key keeps its position, a new key goes last. *)
Fixpoint dict_set {V} (k : string) (v : V) (d : pydict V) : pydict V :=
  match d with
  | [] => [(k, v)]
  | (k', v') :: rest =>
      if decide (k' = k) then (k, v) :: rest else (k', v') :: dict_set k v rest
  end.

Definition dict_keys {V} (d : pydict V) : list string := d.*1.
Definition dict_values {V} (d : pydict V) : list V := d.*2.

(** [d.update(delta)] *)
Definition dict_update {V} (d delta : pydict V) : pydict V :=
  foldl (fun acc kv => dict_set kv.1 kv.2 acc) d delta.

(** [d.popitem()]: removes and returns the last inserted pair. *)
Definition dict_popitem {V} (d : pydict V) : option ((string * V) * pydict V) :=
  match reverse d with
  | [] => None
  | kv :: before => Some (kv, reverse before)
  end.

(** The same keys, every value through [f]. *)
Definition dict_map {A B} (f : A → B) (d : pydict A) : pydict B :=
  map (fun kv => (kv.1, f kv.2)) d.

(** ** Exceptions *)

Inductive exn : Set := AttributeError | TypeError | KeyError.

Inductive result (A : Type) : Type :=
  | Ok (a : A)
  | Raise (e : exn).
Arguments Ok {A} a.
Arguments Raise {A} e.

Definition result_bind {A B} (m : result A) (k : A -> result B) : result B :=
  match m with
  | Ok a => k a
  | Raise e => Raise e
  end.

Notation "'do' x <- m ; k" := (result_bind m (fun x => k))
  (at level 10, x pattern, m at level 100, k at level 200).

(** ** Values and messages *)

(** Values carried by variables and parameters: what a channel or a
    JSON payload delivers.  The manager only assigns them and compares
    them with [!=].  A float is an IEEE binary64 number, a JSON object
    has string keys. *)
#[local] Unset Elimination Schemes.

Inductive pyval : Type :=
  | PyNone
  | PyBool (b : bool)
  | PyInt (z : Z)
  | PyFloat (x : PrimFloat.float)
  | PyStr (s : string)
  | PyList (items : list pyval)
  | PyDict (items : list (string * pyval)).

#[local] Set Elimination Schemes.

(** The numbers among the values; [bool] is a subclass of [int]. *)
Inductive pynum : Set :=
  | NumInt (n : Z)
  | NumFloat (x : PrimFloat.float).

Definition as_number (a : pyval) : option pynum :=
  match a with
  | PyBool b => Some (NumInt (if b then 1 else 0))
  | PyInt n => Some (NumInt n)
  | PyFloat x => Some (NumFloat x)
  | _ => None
  end.

(** [int == float]: Python compares the exact values. *)
Definition int_eq_float (n : Z) (x : PrimFloat.float) : bool :=
  match FloatOps.Prim2SF x with
  | SpecFloat.S754_zero _ => (n =? 0)%Z
  | SpecFloat.S754_finite sign m e =>
      let v := if sign then Z.neg m else Z.pos m in
      if (0 <=? e)%Z then (n =? v * 2 ^ e)%Z else (n * 2 ^ (- e) =? v)%Z
  | _ => false
  end.

(** Float comparison is the IEEE one: a NaN equals nothing, itself
    included, and the two zeros are equal. *)
Definition num_eq (a b : pynum) : bool :=
  match a, b with
  | NumInt n, NumInt m => (n =? m)%Z
  | NumFloat x, NumFloat y => PrimFloat.eqb x y
  | NumInt n, NumFloat x | NumFloat x, NumInt n => int_eq_float n x
  end.

(** [a == b].  Lists are compared element by element, dictionaries key
    by key.  The two sides are distinct objects, as a stored value and
    a value just received from a channel are: the shortcut Python
    takes for an element that is the same object on both sides does
    not arise. *)
Fixpoint py_eq (a b : pyval) : bool :=
  match a, b with
  | PyNone, PyNone => true
  | PyStr s, PyStr s' => bool_decide (s = s')
  | PyList l, PyList l' =>
      (fix all2 (l l' : list pyval) : bool :=
         match l, l' with
         | [], [] => true
         | x :: l, y :: l' => py_eq x y && all2 l l'
         | _, _ => false
         end) l l'
  | PyDict d, PyDict d' =>
      bool_decide (length d = length d')
      && (fix all (d : list (string * pyval)) : bool :=
            match d with
            | [] => true
            | (k, v) :: d =>
                match dict_get k d' with
                | Some v' => py_eq v v'
                | None => false
                end && all d
            end) d
  | _, _ =>
      match as_number a, as_number b with
      | Some x, Some y => num_eq x y
      | _, _ => false
      end
  end.

(** [a != b] *)
Definition py_ne (a b : pyval) : bool := negb (py_eq a b).

(** Modelled from the spec: the [DriverStatus] enumeration is declared in
    drivers/driver.py; the manager only tests equality with [RUNNING].
    [SETUP_ST] is the status the specification calls SETUP. *)
Inductive DriverStatus : Set := SETUP_ST | RUNNING | ERROR | EXITED.

Global Instance DriverStatus_eq_dec : EqDecision DriverStatus.
Proof. solve_decision. Defined.

(** A driver record starts with [status = ""], which is no member of
    the enumeration. *)
Inductive status_cell : Set :=
  | StatusEmpty
  | Status (st : DriverStatus).

Global Instance status_cell_eq_dec : EqDecision status_cell.
Proof. solve_decision. Defined.

(** The entry of one variable in a setup request: its ['handle'] key
    and the remaining keys, which are only forwarded. *)
Record var_data : Type := {
  vd_handle : option string;
  vd_other : pydict pyval
}.

(** The [parameters] of a request are only looked up by key and compared
    entry by entry, whatever the order: a finite map. *)
Record setup_data : Type := {
  sd_parameters : option (gmap string pyval);
  sd_variables : option (pydict var_data)
}.

Record driver_data : Type := {
  DRIVER : option string;
  SETUP : option setup_data
}.

(** [driver_data.get("DRIVER", "None")] *)
Definition get_DRIVER (dd : driver_data) : string := default "None" (DRIVER dd).

(** [driver_data.get("SETUP", {})] *)
Definition get_SETUP (dd : driver_data) : setup_data :=
  default {| sd_parameters := None; sd_variables := None |} (SETUP dd).

(** [setup_data.get("parameters", None)] *)
Definition get_parameters (dd : driver_data) : option (gmap string pyval) :=
  sd_parameters (get_SETUP dd).

(** [setup_data.get("variables", {})] *)
Definition get_variables (dd : driver_data) : pydict var_data :=
  default [] (sd_variables (get_SETUP dd)).

(** Modelled from the spec: the [DriverActions] tags are declared in
    drivers/driver.py.  Messages a worker puts on its channel: *)
Inductive WorkerMessage : Type :=
  | MsgStatus (data : DriverStatus)
  | MsgInfo (data : string)
  | MsgVarInfo (msg var_id : string)
  | MsgUpdate (data : pydict pyval)
  | MsgOther (tag : string).

(** Messages the manager puts on a worker channel. *)
Inductive WorkerCommand : Type :=
  | ADD_VARIABLES (var_setup_data : pydict var_data)
  | UPDATE (updates : pydict pyval)
  | EXIT.

(** Effects on the worker side, in program order.  A worker task and
    its channel are created together in [start_driver] and never
    change, so both are identified by the driver name they were
    created for. *)
Inductive event : Type :=
  | EvStart (driver_name class : string)
  | EvSend (driver_name : string) (c : WorkerCommand)
  | EvJoin (driver_name : string).

(** ** VariableStructure *)

Module VariableStructure.

Record t : Type := mk {
  handlers : list string;
  parameters : var_data;
  value : pyval;
  info : string;
  write_count : nat;
  read_count : nat
}.

Definition init (handle : string) (parameters : var_data) : t :=
  mk [handle] parameters PyNone "" 0 0.

Definition add_handle (self : t) (handle : string) : t :=
  mk (handlers self ++ [handle]) (parameters self) (value self) (info self)
     (write_count self) (read_count self).

Definition set_info (self : t) (msg : string) : t :=
  mk (handlers self) (parameters self) (value self) msg
     (write_count self) (read_count self).

(** [value = v; write_count += 1] *)
Definition host_write (self : t) (v : pyval) : t :=
  mk (handlers self) (parameters self) v (info self)
     (S (write_count self)) (read_count self).

(** [value = v; read_count += 1] *)
Definition worker_write (self : t) (v : pyval) : t :=
  mk (handlers self) (parameters self) v (info self)
     (write_count self) (S (read_count self)).

End VariableStructure.

(** ** DriverStructure *)

Module DriverStructure.

Record t : Type := mk {
  class_name : string;
  name : string;
  handlers : list string;
  parameters : option (gmap string pyval);
  variables : pydict VariableStructure.t;
  status : status_cell;
  info : string;
  info_log : list string;
  latency : string;
  (** messages of the worker waiting on the manager's end of the channel *)
  pipe : list WorkerMessage;
  updates : pydict pyval
}.

Definition init (class_name driver_name handle : string)
    (parameters : option (gmap string pyval)) : t :=
  mk class_name driver_name [handle] parameters [] StatusEmpty "" [] "" [] [].

Definition set_handlers (self : t) (x : list string) : t :=
  mk (class_name self) (name self) x (parameters self) (variables self)
     (status self) (info self) (info_log self) (latency self) (pipe self)
     (updates self).

Definition set_variables (self : t) (x : pydict VariableStructure.t) : t :=
  mk (class_name self) (name self) (handlers self) (parameters self) x
     (status self) (info self) (info_log self) (latency self) (pipe self)
     (updates self).

Definition set_status (self : t) (x : status_cell) : t :=
  mk (class_name self) (name self) (handlers self) (parameters self)
     (variables self) x (info self) (info_log self) (latency self)
     (pipe self) (updates self).

Definition set_info (self : t) (x : string) (log : list string) : t :=
  mk (class_name self) (name self) (handlers self) (parameters self)
     (variables self) (status self) x log (latency self) (pipe self)
     (updates self).

Definition set_latency (self : t) (x : string) : t :=
  mk (class_name self) (name self) (handlers self) (parameters self)
     (variables self) (status self) (info self) (info_log self) x
     (pipe self) (updates self).

Definition set_pipe (self : t) (x : list WorkerMessage) : t :=
  mk (class_name self) (name self) (handlers self) (parameters self)
     (variables self) (status self) (info self) (info_log self)
     (latency self) x (updates self).

Definition set_updates (self : t) (x : pydict pyval) : t :=
  mk (class_name self) (name self) (handlers self) (parameters self)
     (variables self) (status self) (info self) (info_log self)
     (latency self) (pipe self) x.

Definition add_handle (self : t) (handle : string) : t :=
  set_handlers self (handlers self ++ [handle]).

(** The loop of [is_compatible] over [parameters.items()].  The test
    [key in self.parameters] raises when the driver was created
    without parameters. *)
Fixpoint parameters_agree (self_parameters : option (gmap string pyval))
    (items : list (string * pyval)) : result bool :=
  match items with
  | [] => Ok true
  | (key, value) :: rest =>
      match self_parameters with
      | None => Raise TypeError
      | Some own =>
          match own !! key with
          | Some v =>
              if py_ne v value then Ok false
              else parameters_agree self_parameters rest
          | None => parameters_agree self_parameters rest
          end
      end
  end.

Definition is_compatible (self : t) (dd : driver_data) : result bool :=
  let driver_class_name := get_DRIVER dd in
  let parameters := get_parameters dd in
  if decide (class_name self = driver_class_name) then
    match parameters with
    | None => Raise AttributeError
    | Some items =>
        parameters_agree (DriverStructure.parameters self) (map_to_list items)
    end
  else Ok false.

(** One round of the loop of [add_driver_variables].  The state is
    the variable table, the handle delta [res] and [var_setup_data]. *)
Definition add_variable (self_name : string)
    (acc : pydict VariableStructure.t * pydict (string * string) * pydict var_data)
    (item : string * var_data)
    : pydict VariableStructure.t * pydict (string * string) * pydict var_data :=
  let '(vars, res, var_setup_data) := acc in
  let '(var_id, vd) := item in
  match vd_handle vd with
  | Some var_handle =>
      let '(vars, var_setup_data) :=
        match dict_get var_id vars with
        | None =>
            (dict_set var_id (VariableStructure.init var_handle vd) vars,
             dict_set var_id vd var_setup_data)
        | Some var_structure =>
            (dict_set var_id (VariableStructure.add_handle var_structure var_handle) vars,
             var_setup_data)
        end in
      (vars, dict_set var_handle (var_id, self_name) res, var_setup_data)
  | None => acc
  end.

(** Returns the updated record, the handle delta and the events. *)
Definition add_driver_variables (self : t) (vars : pydict var_data)
    : t * pydict (string * string) * list event :=
  let '(vs, res, var_setup_data) :=
    foldl (add_variable (name self)) (variables self, [], []) vars in
  let sent :=
    match var_setup_data with
    | [] => []
    | _ :: _ => [EvSend (name self) (ADD_VARIABLES var_setup_data)]
    end in
  (set_variables self vs, res, sent).

End DriverStructure.

(** ** The registered driver classes (drivers/__init__.py)

    The table depends on the platform: Windows adds entries.  The
    manager is therefore modelled over any table; this is the one every
    platform has. *)
Definition registered_drivers_base : list string :=
  [ "allenbradley_logix"; "cprog_cri"; "development"; "enip_generic_device";
    "hokuyo_uam"; "igus_irc"; "kuka_varproxy"; "micro800_http";
    "modbustcp_master"; "mqtt_client"; "omron_fins"; "opcua_client";
    "rosbridge"; "s7protocol"; "simit"; "simulink_udp"; "sqlite3_conn";
    "twincat_ads"; "udp_driver"; "ur_driver" ].

(** ** Host frames *)

Inductive DriverMgrCommands : Set :=
  SETUP_DRIVERS | CLEAN | UPDATES | STATUS | INFO | VAR_INFO | STATS.

(** A frame [(command, data)] received from the host: each command with
    the payload shape it iterates over, or any command with [None]. *)
Inductive HostFrame : Type :=
  | FrameSetupDrivers (data : pydict driver_data)
  | FrameClean
  | FrameUpdates (data : pydict pyval)
  | FrameOther (command : DriverMgrCommands).

Definition frame_command (f : HostFrame) : DriverMgrCommands :=
  match f with
  | FrameSetupDrivers _ => SETUP_DRIVERS
  | FrameClean => CLEAN
  | FrameUpdates _ => UPDATES
  | FrameOther c => c
  end.

(** Payloads the manager sends to the host. *)
Inductive OutData : Type :=
  | OutString (s : string)
  | OutResults (res : pydict string)
  | OutStatus (m : pydict status_cell)
  | OutInfo (m : pydict string)
  | OutValues (m : pydict pyval)
  | OutStats (m : pydict nat).

Definition OutFrame : Type := DriverMgrCommands * OutData.

(** ["Latency" in data] *)
Fixpoint contains (needle hay : string) : bool :=
  String.prefix needle hay ||
  match hay with
  | EmptyString => false
  | String _ rest => contains needle rest
  end.

(** ** DriverManager *)

Module DriverManager.

Record t : Type := mk {
  _use_processes : bool;
  _status_file_path : string;
  _drivers : pydict DriverStructure.t;
  _driver_counter : nat;
  _handles : pydict (string * string);
  _running : bool;
  _stats_updates : pydict nat;
  _status_updates : pydict status_cell;
  _info_updates : pydict string;
  _var_info_updates : pydict string;
  _value_updates : pydict pyval;
  _start_time : Z;
  _last_status_record : Z;
  (** worker-side effects so far *)
  trace : list event
}.

(** [__init__]; [clock] is the reading [int(time.perf_counter())].
    The log list and the time spent writing the status file are
    left out: nothing else reads them. *)
Definition init (use_processes : bool) (status_file_path : string) (clock : Z) : t :=
  mk use_processes status_file_path [] 0 [] true [] [] [] [] [] clock 0 [].

Definition set_drivers (s : t) (x : pydict DriverStructure.t) : t :=
  mk (_use_processes s) (_status_file_path s) x (_driver_counter s)
     (_handles s) (_running s) (_stats_updates s) (_status_updates s)
     (_info_updates s) (_var_info_updates s) (_value_updates s)
     (_start_time s) (_last_status_record s) (trace s).

Definition set_driver_counter (s : t) (x : nat) : t :=
  mk (_use_processes s) (_status_file_path s) (_drivers s) x
     (_handles s) (_running s) (_stats_updates s) (_status_updates s)
     (_info_updates s) (_var_info_updates s) (_value_updates s)
     (_start_time s) (_last_status_record s) (trace s).

Definition set_handles (s : t) (x : pydict (string * string)) : t :=
  mk (_use_processes s) (_status_file_path s) (_drivers s) (_driver_counter s)
     x (_running s) (_stats_updates s) (_status_updates s)
     (_info_updates s) (_var_info_updates s) (_value_updates s)
     (_start_time s) (_last_status_record s) (trace s).

Definition set_running (s : t) (x : bool) : t :=
  mk (_use_processes s) (_status_file_path s) (_drivers s) (_driver_counter s)
     (_handles s) x (_stats_updates s) (_status_updates s)
     (_info_updates s) (_var_info_updates s) (_value_updates s)
     (_start_time s) (_last_status_record s) (trace s).

Definition set_stats_updates (s : t) (x : pydict nat) : t :=
  mk (_use_processes s) (_status_file_path s) (_drivers s) (_driver_counter s)
     (_handles s) (_running s) x (_status_updates s)
     (_info_updates s) (_var_info_updates s) (_value_updates s)
     (_start_time s) (_last_status_record s) (trace s).

Definition set_status_updates (s : t) (x : pydict status_cell) : t :=
  mk (_use_processes s) (_status_file_path s) (_drivers s) (_driver_counter s)
     (_handles s) (_running s) (_stats_updates s) x
     (_info_updates s) (_var_info_updates s) (_value_updates s)
     (_start_time s) (_last_status_record s) (trace s).

Definition set_info_updates (s : t) (x : pydict string) : t :=
  mk (_use_processes s) (_status_file_path s) (_drivers s) (_driver_counter s)
     (_handles s) (_running s) (_stats_updates s) (_status_updates s)
     x (_var_info_updates s) (_value_updates s)
     (_start_time s) (_last_status_record s) (trace s).

Definition set_var_info_updates (s : t) (x : pydict string) : t :=
  mk (_use_processes s) (_status_file_path s) (_drivers s) (_driver_counter s)
     (_handles s) (_running s) (_stats_updates s) (_status_updates s)
     (_info_updates s) x (_value_updates s)
     (_start_time s) (_last_status_record s) (trace s).

Definition set_value_updates (s : t) (x : pydict pyval) : t :=
  mk (_use_processes s) (_status_file_path s) (_drivers s) (_driver_counter s)
     (_handles s) (_running s) (_stats_updates s) (_status_updates s)
     (_info_updates s) (_var_info_updates s) x
     (_start_time s) (_last_status_record s) (trace s).

Definition set_last_status_record (s : t) (x : Z) : t :=
  mk (_use_processes s) (_status_file_path s) (_drivers s) (_driver_counter s)
     (_handles s) (_running s) (_stats_updates s) (_status_updates s)
     (_info_updates s) (_var_info_updates s) (_value_updates s)
     (_start_time s) x (trace s).

Definition add_events (s : t) (evs : list event) : t :=
  mk (_use_processes s) (_status_file_path s) (_drivers s) (_driver_counter s)
     (_handles s) (_running s) (_stats_updates s) (_status_updates s)
     (_info_updates s) (_var_info_updates s) (_value_updates s)
     (_start_time s) (_last_status_record s) (trace s ++ evs).

(** [for handle in handlers: updates.update({handle: data})] *)
Definition notify {V} (handlers : list string) (data : V) (m : pydict V) : pydict V :=
  foldl (fun acc handle => dict_set handle data acc) m handlers.

(** *** Provisioning *)

(** [f"DRIVER_{self._driver_counter}"] *)
Definition driver_name_of (counter : nat) : string := "DRIVER_" +:+ pretty counter.

Fixpoint find_compatible_in (items : list (string * DriverStructure.t))
    (dd : driver_data) : result (option (string * DriverStructure.t)) :=
  match items with
  | [] => Ok None
  | (key, driver_structure) :: rest =>
      do ok <- DriverStructure.is_compatible driver_structure dd;
      if ok : bool then Ok (Some (key, driver_structure))
      else find_compatible_in rest dd
  end.

(** Returns the record together with the key it is stored under,
    which is where the caller's in-place changes land. *)
Definition find_compatible_driver (s : t) (dd : driver_data)
    : result (option (string * DriverStructure.t)) :=
  find_compatible_in (_drivers s) dd.

Section Provisioning.

Variable registered_drivers : list string.

Definition start_driver (s : t) (driver_handle : string) (dd : driver_data)
    : t * option DriverStructure.t :=
  let driver_class_name := get_DRIVER dd in
  if decide (driver_class_name ∈ registered_drivers) then
    let counter := S (_driver_counter s) in
    let driver_name := driver_name_of counter in
    let parameters := get_parameters dd in
    (add_events (set_driver_counter s counter)
       [EvStart driver_name driver_class_name],
     Some (DriverStructure.init driver_class_name driver_name driver_handle
             parameters))
  else (s, None).

(** The tail of the loop body of [setup_drivers]: the record stored
    under [key] receives the variables and the handle index is
    merged with the returned delta. *)
Definition register_variables (s : t) (key : string)
    (driver_struct : DriverStructure.t) (dd : driver_data) : t :=
  let '(driver_struct, delta, sent) :=
    DriverStructure.add_driver_variables driver_struct (get_variables dd) in
  add_events
    (set_handles (set_drivers s (dict_set key driver_struct (_drivers s)))
       (dict_update (_handles s) delta))
    sent.

Definition setup_driver (acc : t * pydict string) (item : string * driver_data)
    : result (t * pydict string) :=
  let '(s, res) := acc in
  let '(driver_handle, dd) := item in
  do found <- find_compatible_driver s dd;
  match found with
  | Some (key, driver_struct) =>
      let driver_struct := DriverStructure.add_handle driver_struct driver_handle in
      let res := dict_set driver_handle "SUCCESS" res in
      let s := set_status_updates s
                 (dict_update (_status_updates s)
                    [(driver_handle, DriverStructure.status driver_struct)]) in
      Ok (register_variables s key driver_struct dd, res)
  | None =>
      let '(s, started) := start_driver s driver_handle dd in
      match started with
      | Some driver_struct =>
          Ok (register_variables s (DriverStructure.name driver_struct)
                driver_struct dd,
              dict_set driver_handle "SUCCESS" res)
      | None => Ok (s, dict_set driver_handle "FAILED" res)
      end
  end.

Fixpoint setup_loop (items : list (string * driver_data))
    (acc : t * pydict string) : result (t * pydict string) :=
  match items with
  | [] => Ok acc
  | item :: rest => do acc' <- setup_driver acc item; setup_loop rest acc'
  end.

Definition setup_drivers (s : t) (drivers_setup_data : pydict driver_data)
    : result (t * pydict string) :=
  setup_loop drivers_setup_data (s, []).

End Provisioning.

(** *** Shutdown *)

(** [while self._drivers: popitem(); join()] runs once per entry. *)
Fixpoint join_workers (rounds : nat) (s : t) : t :=
  match rounds with
  | 0 => s
  | S rounds' =>
      match dict_popitem (_drivers s) with
      | None => s
      | Some ((driver_name, driver_struct), rest) =>
          join_workers rounds'
            (add_events (set_drivers s rest)
               [EvJoin (DriverStructure.name driver_struct)])
      end
  end.

Definition clean_drivers (s : t) : t :=
  let exits :=
    map (fun kv => EvSend (DriverStructure.name kv.2) EXIT) (_drivers s) in
  join_workers (length (_drivers s)) (add_events s exits).

(** *** Host writes *)

(** One round of the first loop of the [UPDATES] branch. *)
Definition host_update (s : t) (item : string * pyval) : result t :=
  let '(var_handle, var_value) := item in
  match dict_get var_handle (_handles s) with
  | Some (var_id, driver_name) =>
      if decide (driver_name = "") then Ok s
      else
        match dict_get driver_name (_drivers s) with
        | None => Raise KeyError
        | Some d =>
            if decide (DriverStructure.status d = Status RUNNING) then
              match dict_get var_id (DriverStructure.variables d) with
              | None => Raise KeyError
              | Some v =>
                  if py_ne (VariableStructure.value v) var_value then
                    let d := DriverStructure.set_updates d
                               (dict_set var_id var_value (DriverStructure.updates d)) in
                    let d := DriverStructure.set_variables d
                               (dict_set var_id (VariableStructure.host_write v var_value)
                                  (DriverStructure.variables d)) in
                    Ok (set_drivers s (dict_set driver_name d (_drivers s)))
                  else Ok s
              end
            else Ok s
        end
  | None => Ok s
  end.

Fixpoint host_updates (items : list (string * pyval)) (s : t) : result t :=
  match items with
  | [] => Ok s
  | item :: rest => do s' <- host_update s item; host_updates rest s'
  end.

(** The second loop of the [UPDATES] branch. *)
Fixpoint flush_updates (items : list (string * DriverStructure.t))
    : list (string * DriverStructure.t) * list event :=
  match items with
  | [] => ([], [])
  | (key, d) :: rest =>
      let '(rest', evs) := flush_updates rest in
      match DriverStructure.updates d with
      | [] => ((key, d) :: rest', evs)
      | _ :: _ =>
          ((key, DriverStructure.set_updates d []) :: rest',
           EvSend (DriverStructure.name d) (UPDATE (DriverStructure.updates d)) :: evs)
      end
  end.

Definition flush (s : t) : t :=
  let '(items, evs) := flush_updates (_drivers s) in
  add_events (set_drivers s items) evs.

Section Commands.

Variable registered_drivers : list string.

Definition send_command (s : t) (frame : HostFrame) : result (t * option OutData) :=
  match frame with
  | FrameClean =>
      let ret_data := OutString "SUCCESS" in
      Ok (set_running (clean_drivers s) false, Some ret_data)
  | FrameSetupDrivers data =>
      do r <- setup_drivers registered_drivers s data;
      Ok (r.1, Some (OutResults r.2))
  | FrameUpdates data =>
      do s' <- host_updates data s;
      Ok (flush s', None)
  | FrameOther CLEAN =>
      Ok (set_running (clean_drivers s) false, Some (OutString "SUCCESS"))
  | FrameOther SETUP_DRIVERS | FrameOther UPDATES => Raise AttributeError
  | FrameOther _ => Ok (s, None)
  end.

End Commands.

(** *** Update reconciler *)

(** One round of the loop of the [UPDATE] branch of [run_once]. *)
Definition worker_update (acc : DriverStructure.t * t) (item : string * pyval)
    : DriverStructure.t * t :=
  let '(d, s) := acc in
  let '(var_id, value) := item in
  match dict_get var_id (DriverStructure.variables d) with
  | Some var_struct =>
      if py_ne (VariableStructure.value var_struct) value then
        (DriverStructure.set_variables d
           (dict_set var_id (VariableStructure.worker_write var_struct value)
              (DriverStructure.variables d)),
         set_value_updates s
           (notify (VariableStructure.handlers var_struct) value (_value_updates s)))
      else (d, s)
  | None => (d, s)
  end.

(** [info_log[-5:]] *)
Definition last5 (log : list string) : list string := drop (length log - 5) log.

(** The body of the [while driver_struct.pipe.poll()] loop for one
    received message. *)
Definition on_message (d : DriverStructure.t) (s : t) (m : WorkerMessage)
    : DriverStructure.t * t :=
  match m with
  | MsgStatus data =>
      if decide (DriverStructure.status d = Status data) then (d, s)
      else
        (DriverStructure.set_status d (Status data),
         set_status_updates s
           (notify (DriverStructure.handlers d) (Status data) (_status_updates s)))
  | MsgInfo data =>
      if contains "Latency" data then (DriverStructure.set_latency d data, s)
      else
        let log := DriverStructure.info_log d ++ [data] in
        let log := if decide (5 < length log)%nat then last5 log else log in
        (DriverStructure.set_info d data log,
         set_info_updates s
           (notify (DriverStructure.handlers d) data (_info_updates s)))
  | MsgVarInfo msg var_id =>
      match dict_get var_id (DriverStructure.variables d) with
      | Some var_struct =>
          if decide (VariableStructure.info var_struct = msg) then (d, s)
          else
            (DriverStructure.set_variables d
               (dict_set var_id (VariableStructure.set_info var_struct msg)
                  (DriverStructure.variables d)),
             set_var_info_updates s
               (notify (VariableStructure.handlers var_struct) msg
                  (_var_info_updates s)))
      | None => (d, s)
      end
  | MsgUpdate data => foldl worker_update (d, s) data
  | MsgOther _ => (d, s)
  end.

(** The [while driver_struct.pipe.poll()] loop: [pending] is what the
    channel still holds, [counter] the messages handled so far. *)
Fixpoint drain (max_pipe_loops counter : Z) (pending : list WorkerMessage)
    (d : DriverStructure.t) (s : t) : DriverStructure.t * t :=
  match pending with
  | [] => (DriverStructure.set_pipe d [], s)
  | m :: rest =>
      let '(d, s) := on_message d s m in
      let counter := (counter + 1)%Z in
      if decide (counter >= max_pipe_loops)%Z then (DriverStructure.set_pipe d rest, s)
      else drain max_pipe_loops counter rest d s
  end.

(** [for driver_struct in self._drivers.values()] *)
Fixpoint run_drivers (max_pipe_loops : Z) (items : list (string * DriverStructure.t))
    (s : t) : list (string * DriverStructure.t) * t :=
  match items with
  | [] => ([], s)
  | (key, d) :: rest =>
      let '(d, s) := drain max_pipe_loops 0 (DriverStructure.pipe d) d s in
      let '(rest, s) := run_drivers max_pipe_loops rest s in
      ((key, d) :: rest, s)
  end.

(** The truth value of
    [status_updates or info_updates or var_info_updates or value_updates]. *)
Definition has_updates (s : t) : bool :=
  bool_decide (_status_updates s ≠ []) || bool_decide (_info_updates s ≠ [])
  || bool_decide (_var_info_updates s ≠ []) || bool_decide (_value_updates s ≠ []).

(** [clock] is the reading [int(time.perf_counter())] taken in this
    call.  Writing the status file changes nothing modelled here. *)
Definition run_once (s : t) (clock : Z) (max_pipe_loops : Z) : t * bool :=
  let '(items, s) := run_drivers max_pipe_loops (_drivers s) s in
  let s := set_drivers s items in
  let now_sec := (clock - _start_time s)%Z in
  let s :=
    if decide (now_sec - _last_status_record s >= 1)%Z then
      set_stats_updates (set_last_status_record s now_sec)
        [("DRIVER_COUNT", length (_drivers s));
         ("VARIABLE_COUNT", length (_handles s))]
    else s in
  (s, has_updates s).

Definition get_updates (s : t)
    : t * (pydict status_cell * pydict string * pydict string * pydict pyval
           * pydict nat) :=
  (set_stats_updates
     (set_value_updates
        (set_var_info_updates (set_info_updates (set_status_updates s []) []) [])
        [])
     [],
   (_status_updates s, _info_updates s, _var_info_updates s, _value_updates s,
    _stats_updates s)).

(** *** The manager loop *)

(** The five [if self._x_updates: pipe.send(...); self._x_updates = {}]
    blocks of [run_forever]; returns the frames sent, in order. *)
Definition emit_updates (s : t) : t * list OutFrame :=
  let out1 := match _status_updates s with
              | [] => [] | m => [(STATUS, OutStatus m)] end in
  let out2 := match _info_updates s with
              | [] => [] | m => [(INFO, OutInfo m)] end in
  let out3 := match _var_info_updates s with
              | [] => [] | m => [(VAR_INFO, OutInfo m)] end in
  let out4 := match _value_updates s with
              | [] => [] | m => [(UPDATES, OutValues m)] end in
  let out5 := match _stats_updates s with
              | [] => [] | m => [(STATS, OutStats m)] end in
  ((get_updates s).1, out1 ++ out2 ++ out3 ++ out4 ++ out5).

(** The host end of the manager's channel: frames waiting to be
    received and frames sent so far. *)
Record HostPipe : Type := mkHost {
  incoming : list HostFrame;
  outgoing : list OutFrame
}.

Section Loop.

Variable registered_drivers : list string.

(** The [while pipe.poll()] loop of [run_forever]; the boolean is
    [can_sleep]. *)
Fixpoint drain_host (counter : nat) (pending : list HostFrame) (s : t)
    (sent : list OutFrame) (can_sleep : bool)
    : result (t * list HostFrame * list OutFrame * bool) :=
  match pending with
  | [] => Ok (s, [], sent, can_sleep)
  | frame :: rest =>
      do r <- send_command registered_drivers s frame;
      let sent := match r.2 with
                  | Some res_data => sent ++ [(frame_command frame, res_data)]
                  | None => sent
                  end in
      let counter := S counter in
      if decide (10 ≤ counter)%nat then Ok (r.1, rest, sent, false)
      else drain_host counter rest r.1 sent false
  end.

(** One round of [while self._running] in [run_forever]; the
    boolean tells whether the round ends with the 1 ms sleep. *)
Definition run_forever_round (s : t) (host : HostPipe) (clock : Z)
    : result (t * HostPipe * bool) :=
  do r <- drain_host 0 (incoming host) s (outgoing host) true;
  let '(s, pending, sent, can_sleep) := r in
  if _running s then
    let '(s, any) := run_once s clock 10 in
    if any then
      let '(s, frames) := emit_updates s in
      Ok (s, mkHost pending (sent ++ frames), false)
    else Ok (s, mkHost pending sent, can_sleep)
  else Ok (s, mkHost pending sent, can_sleep).

(** What happens around one round: frames the host has put on the
    channel and messages the workers have put on theirs before the
    round polls them, and the clock reading of the round. *)
Record tick : Type := mkTick {
  host_frames : list HostFrame;
  worker_messages : list (string * WorkerMessage);
  clock : Z
}.

(** A worker puts a message on the channel of the driver stored
    under [key]. *)
Definition worker_send (s : t) (key : string) (m : WorkerMessage) : t :=
  match dict_get key (_drivers s) with
  | Some d =>
      set_drivers s
        (dict_set key (DriverStructure.set_pipe d (DriverStructure.pipe d ++ [m]))
           (_drivers s))
  | None => s
  end.

Definition arrive (s : t) (host : HostPipe) (tk : tick) : t * HostPipe :=
  (foldl (fun s km => worker_send s km.1 km.2) s (worker_messages tk),
   mkHost (incoming host ++ host_frames tk) (outgoing host)).

(** [run_forever] along a schedule of rounds: it stops when
    [_running] is false, or when the schedule ends. *)
Fixpoint run_forever (schedule : list tick) (s : t) (host : HostPipe)
    : result (t * HostPipe) :=
  match schedule with
  | [] => Ok (s, host)
  | tk :: later =>
      if _running s then
        let '(s, host) := arrive s host tk in
        do r <- run_forever_round s host (clock tk);
        run_forever later r.1.1 r.1.2
      else Ok (s, host)
  end.

End Loop.

End DriverManager.

Import DriverManager.

(** * Vocabulary of the properties *)

(** The request value under [kv.1] does not contradict the driver's. *)
Definition agrees (own : gmap string pyval) (kv : string * pyval) : Prop :=
  match own !! kv.1 with
  | Some v => py_ne v kv.2 = false
  | None => True
  end.

Global Instance agrees_dec own kv : Decision (agrees own kv).
Proof. unfold agrees. destruct (own !! kv.1); apply _. Defined.


Definition rejects (dd : driver_data) (kv : string * DriverStructure.t) : Prop :=
  DriverStructure.is_compatible kv.2 dd = Ok false.

Definition var_shape (vars : pydict VariableStructure.t) : pydict (list string) :=
  dict_map VariableStructure.handlers vars.

(** [d'] is a later state of the record [d]: same identity, the same
    handles of every variable, handles only added, the info log still
    bounded. *)
Record evolves (d d' : DriverStructure.t) : Prop := {
  ev_name : DriverStructure.name d' = DriverStructure.name d;
  ev_class : DriverStructure.class_name d' = DriverStructure.class_name d;
  ev_parameters : DriverStructure.parameters d' = DriverStructure.parameters d;
  ev_handlers : DriverStructure.handlers d `prefix_of` DriverStructure.handlers d';
  ev_shape :
    var_shape (DriverStructure.variables d') = var_shape (DriverStructure.variables d);
  ev_log :
    length (DriverStructure.info_log d) ≤ 5 → length (DriverStructure.info_log d') ≤ 5
}.

Definition steady (d d' : DriverStructure.t) : Prop :=
  evolves d d' ∧ DriverStructure.updates d' = DriverStructure.updates d.

(** Everything of the manager state but the registry and the four
    outbound maps. *)
Definition core (s : t) :=
  (_use_processes s, _status_file_path s, _driver_counter s, _handles s,
   _running s, _stats_updates s, _start_time s, _last_status_record s, trace s).

Arguments core : simpl never.

(** Registries related entry by entry, under the same keys. *)
Definition registry_rel (R : DriverStructure.t → DriverStructure.t → Prop)
    (l l' : pydict DriverStructure.t) : Prop :=
  Forall2 (fun kv kv' => kv'.1 = kv.1 ∧ R kv.2 kv'.2) l l'.

(** The manager state but the registry. *)
Definition rest (s : t) :=
  (core s, _status_updates s, _info_updates s, _var_info_updates s, _value_updates s).

Arguments rest : simpl never.

(** [d'] is [d] after host writes: a record that is not [RUNNING] is
    not touched at all. *)
Definition written (d d' : DriverStructure.t) : Prop :=
  evolves d d'
  ∧ DriverStructure.status d' = DriverStructure.status d
  ∧ DriverStructure.pipe d' = DriverStructure.pipe d
  ∧ (DriverStructure.status d ≠ Status RUNNING → d' = d).

(** Every indexed handle leads to a driver record and a variable. *)
Definition resolvable (s : t) : Prop :=
  ∀ h v dn, dict_get h (_handles s) = Some (v, dn) →
    ∃ d vs, dict_get dn (_drivers s) = Some d
            ∧ dict_get v (DriverStructure.variables d) = Some vs.

(** The flush clears every pending batch and sends one [UPDATE] for
    each record whose batch was not empty. *)
Definition clear_updates (d : DriverStructure.t) : DriverStructure.t :=
  DriverStructure.set_updates d [].

Definition pending_sends (items : pydict DriverStructure.t) : list event :=
  flat_map
    (fun kv =>
       match DriverStructure.updates kv.2 with
       | [] => []
       | _ :: _ =>
           [EvSend (DriverStructure.name kv.2) (UPDATE (DriverStructure.updates kv.2))]
       end)
    items.

Definition is_send (e : event) : Prop :=
  match e with
  | EvSend _ _ => True
  | _ => False
  end.

Record invariant (s : t) : Prop := {
  inv_keys : NoDup (dict_keys (_drivers s));
  inv_names : ∀ key d, dict_get key (_drivers s) = Some d →
    DriverStructure.name d = key
    ∧ ∃ n, key = driver_name_of n ∧ n ≤ _driver_counter s;
  inv_handles : _running s = true →
    ∀ h v dn, dict_get h (_handles s) = Some (v, dn) →
      ∃ d vs, dict_get dn (_drivers s) = Some d
              ∧ dict_get v (DriverStructure.variables d) = Some vs
              ∧ h ∈ VariableStructure.handlers vs;
  inv_indexed : ∀ dn d v vs h,
    dict_get dn (_drivers s) = Some d →
    dict_get v (DriverStructure.variables d) = Some vs →
    h ∈ VariableStructure.handlers vs →
    h ∈ dict_keys (_handles s);
  inv_ok : ∀ key d, dict_get key (_drivers s) = Some d →
    DriverStructure.handlers d ≠ []
    ∧ length (DriverStructure.info_log d) ≤ 5
    ∧ ∀ v vs, dict_get v (DriverStructure.variables d) = Some vs →
        VariableStructure.handlers vs ≠ [];
  inv_quiet : ∀ key d, dict_get key (_drivers s) = Some d →
    DriverStructure.updates d = [];
  inv_started : ∀ nm c, EvStart nm c ∈ trace s →
    nm ∈ dict_keys (_drivers s) ∨ EvJoin nm ∈ trace s;
  inv_var_keys : ∀ key d, dict_get key (_drivers s) = Some d →
    NoDup (dict_keys (DriverStructure.variables d))
}.

(** [d'] is a later state of [d] with no pending host write left
    behind. *)
Definition settles (d d' : DriverStructure.t) : Prop :=
  evolves d d' ∧ (DriverStructure.updates d = [] → DriverStructure.updates d' = []).

(** What the loop of [add_driver_variables] maintains, relative to
    the variable table [vars0] it started from. *)
Record registering (vars0 : pydict VariableStructure.t) (self_name : string)
    (acc : pydict VariableStructure.t * pydict (string * string) * pydict var_data)
    : Prop := {
  reg_kept : ∀ v vs, dict_get v vars0 = Some vs →
    ∃ vs', dict_get v acc.1.1 = Some vs'
           ∧ VariableStructure.handlers vs ⊆ VariableStructure.handlers vs';
  reg_delta : ∀ h v nm, (h, (v, nm)) ∈ acc.1.2 →
    nm = self_name
    ∧ ∃ vs, dict_get v acc.1.1 = Some vs ∧ h ∈ VariableStructure.handlers vs;
  reg_source : ∀ v vs h, dict_get v acc.1.1 = Some vs →
    h ∈ VariableStructure.handlers vs →
    (∃ vs0, dict_get v vars0 = Some vs0 ∧ h ∈ VariableStructure.handlers vs0)
    ∨ h ∈ dict_keys acc.1.2;
  reg_nonempty :
    (∀ v vs, dict_get v vars0 = Some vs → VariableStructure.handlers vs ≠ []) →
    ∀ v vs, dict_get v acc.1.1 = Some vs → VariableStructure.handlers vs ≠ [];
  reg_keys : NoDup (dict_keys vars0) → NoDup (dict_keys acc.1.1)
}.

Definition exit_events (items : pydict DriverStructure.t) : list event :=
  map (fun kv => EvSend (DriverStructure.name kv.2) EXIT) items.

Definition join_events (items : pydict DriverStructure.t) : list event :=
  map (fun kv => EvJoin (DriverStructure.name kv.2)) (reverse items).

(** States of a manager driven through its interface: commands,
    reconciler passes, draining the outbound maps, and workers
    putting messages on their channels in between. *)
Inductive reachable (registered_drivers : list string) : t → Prop :=
  | reach_init use_processes path clock :
      reachable registered_drivers (init use_processes path clock)
  | reach_command s frame s' r :
      reachable registered_drivers s → send_command registered_drivers s frame = Ok (s', r) →
      reachable registered_drivers s'
  | reach_run_once s clock max_pipe_loops :
      reachable registered_drivers s → reachable registered_drivers (run_once s clock max_pipe_loops).1
  | reach_get_updates s :
      reachable registered_drivers s → reachable registered_drivers (get_updates s).1
  | reach_worker_send s key m :
      reachable registered_drivers s → reachable registered_drivers (worker_send s key m).

(** The request of scenario S1. *)
Definition spec_S1 : driver_data :=
  {| DRIVER := Some "udp_driver";
     SETUP := Some
       {| sd_parameters :=
            Some (<["ip" := PyStr "127.0.0.1"]> (<["port" := PyInt 8400]> ∅));
          sd_variables :=
            Some [("x", {| vd_handle := Some "vh1";
                           vd_other := [("datatype", PyStr "int"); ("size", PyInt 1);
                                        ("operation", PyStr "READ")] |})] |} |}.

(** The same request without its ["parameters"] key. *)
Definition spec_no_parameters : driver_data :=
  {| DRIVER := Some "udp_driver";
     SETUP := Some {| sd_parameters := None;
                      sd_variables := sd_variables (get_SETUP spec_S1) |} |}.

(** The request of scenario S1 with a NaN as a further parameter. *)
Definition spec_nan : driver_data :=
  {| DRIVER := Some "udp_driver";
     SETUP := Some
       {| sd_parameters :=
            Some (<["gain" := PyFloat PrimFloat.nan]>
                    (<["port" := PyInt 8400]> ∅));
          sd_variables := sd_variables (get_SETUP spec_S1) |} |}.

(** A request for a class that is not registered. *)
Definition spec_unknown_class : driver_data :=
  {| DRIVER := Some "no_such_driver";
     SETUP := Some {| sd_parameters := Some ∅; sd_variables := Some [] |} |}.

(** A request whose two variables carry the same handle. *)
Definition spec_shared_handle : driver_data :=
  {| DRIVER := Some "udp_driver";
     SETUP := Some
       {| sd_parameters := Some ∅;
          sd_variables :=
            Some [("x", {| vd_handle := Some "vh"; vd_other := [] |});
                  ("y", {| vd_handle := Some "vh"; vd_other := [] |})] |} |}.

Definition fresh_manager : t := init false "" 0.

(** The state a command leaves behind ([fresh_manager] if it raised). *)
Definition after (s : t) (frame : HostFrame) : t :=
  match send_command registered_drivers_base s frame with
  | Ok (s', _) => s'
  | Raise _ => fresh_manager
  end.

Definition after_S1 : t := after fresh_manager (FrameSetupDrivers [("h1", spec_S1)]).

Definition after_S2 : t := after after_S1 (FrameSetupDrivers [("h2", spec_S1)]).

Definition after_resend : t := after after_S1 (FrameSetupDrivers [("h1", spec_S1)]).

Definition after_shared : t :=
  after fresh_manager (FrameSetupDrivers [("h1", spec_shared_handle)]).

Definition after_clean : t := after after_S1 FrameClean.

(** The record of [DRIVER_1] after scenario S1. *)
Definition driver_S1 : DriverStructure.t :=
  default (DriverStructure.init "" "" "" None) (dict_get "DRIVER_1" (_drivers after_S1)).

(** The record of [DRIVER_1] after scenario S2. *)
Definition driver_S2 : DriverStructure.t :=
  default (DriverStructure.init "" "" "" None) (dict_get "DRIVER_1" (_drivers after_S2)).

(** Scenario S3: the worker of [DRIVER_1] has sent three updates. *)
Definition before_S3 : t :=
  worker_send
    (worker_send
       (worker_send after_S1 "DRIVER_1" (MsgUpdate [("x", PyInt 1)]))
       "DRIVER_1" (MsgUpdate [("x", PyInt 2)]))
    "DRIVER_1" (MsgUpdate [("x", PyInt 2)]).

(** Scenario S1 after the worker has reported 1 for x and the host has
    fetched the update. *)
Definition holding_one : t :=
  (get_updates
     (run_once (worker_send after_S1 "DRIVER_1" (MsgUpdate [("x", PyInt 1)])) 0 10).1).1.

(** The three updates of scenario S3, sent when x already holds 1. *)
Definition before_S3_again : t :=
  worker_send
    (worker_send
       (worker_send holding_one "DRIVER_1" (MsgUpdate [("x", PyInt 1)]))
       "DRIVER_1" (MsgUpdate [("x", PyInt 2)]))
    "DRIVER_1" (MsgUpdate [("x", PyInt 2)]).


(** The record of [DRIVER_1] in scenario S3. *)
Definition driver_S3 : DriverStructure.t :=
  default (DriverStructure.init "" "" "" None) (dict_get "DRIVER_1" (_drivers before_S3)).

(** Variable x of the running driver of S1 under two more handles. *)
Definition spec_more_handles (h : string) : driver_data :=
  {| DRIVER := Some "udp_driver";
     SETUP := Some
       {| sd_parameters := sd_parameters (get_SETUP spec_S1);
          sd_variables := Some [("x", {| vd_handle := Some h; vd_other := [] |})] |} |}.

(** Scenario S4: the worker of [DRIVER_1] has reported [RUNNING] and
    the manager has seen it. *)
Definition running_S1 : t :=
  (run_once (worker_send after_S1 "DRIVER_1" (MsgStatus RUNNING)) 0 10).1.

(** Scenario S4 with the handles vh2 and vh3 added to variable x. *)
Definition shared_S1 : t :=
  after running_S1
    (FrameSetupDrivers [("h2", spec_more_handles "vh2"); ("h3", spec_more_handles "vh3")]).

(** The claim as it is stated. *)
Definition handle_index_exact (s : t) : Prop :=
  ∀ h v dn,
    dict_get h (_handles s) = Some (v, dn) ↔
    ∃ d vs, dict_get dn (_drivers s) = Some d
            ∧ dict_get v (DriverStructure.variables d) = Some vs
            ∧ h ∈ VariableStructure.handlers vs.

Definition sent_to (nm : string) (e : event) : Prop :=
  match e with
  | EvSend n _ => n = nm
  | _ => False
  end.

Global Instance sent_to_dec nm e : Decision (sent_to nm e).
Proof. destruct e; simpl; apply _. Defined.

Definition driver_names (items : pydict DriverStructure.t) : list string :=
  map (fun kv => DriverStructure.name kv.2) items.

(** A running manager with nothing to report: empty outbound maps and
    nothing waiting on any worker channel. *)
Definition quiescent (s : t) : Prop :=
  _running s = true
  ∧ _status_updates s = [] ∧ _info_updates s = []
  ∧ _var_info_updates s = [] ∧ _value_updates s = []
  ∧ Forall (fun kv => DriverStructure.pipe kv.2 = []) (_drivers s).

Definition silent (tk : tick) : Prop :=
  host_frames tk = [] ∧ worker_messages tk = [].

Definition stats_of (s : t) : pydict nat :=
  [("DRIVER_COUNT", length (_drivers s)); ("VARIABLE_COUNT", length (_handles s))].

(** Three silent rounds, one per second. *)
Definition three_seconds : list tick := [mkTick [] [] 1; mkTick [] [] 2; mkTick [] [] 3].

(** ** Vocabulary of the further properties *)

(** Worker messages handled one after the other. *)
Definition handle_all (msgs : list WorkerMessage) (d : DriverStructure.t) (s : t)
    : DriverStructure.t * t :=
  foldl (fun acc m => on_message acc.1 acc.2 m) (d, s) msgs.

(** How many messages one pass takes from a channel that holds
    [pending], when [counter] have been counted already. *)
Definition taken (max_pipe_loops counter : Z) (pending : list WorkerMessage) : nat :=
  min (length pending) (Z.to_nat (Z.max 1 (max_pipe_loops - counter))).


(** The last [n] elements. *)
Definition lastn {A} (n : nat) (l : list A) : list A := drop (length l - n) l.

(** The status after [msgs], from the status [st]. *)
Definition last_status (st : status_cell) (msgs : list WorkerMessage) : status_cell :=
  foldl (fun st m => match m with MsgStatus x => Status x | _ => st end) st msgs.

(** The stored value after the values [vals] have been offered one
    after the other to a variable that holds [cur]: a value that does
    not differ from the stored one is not taken. *)
Definition settle (cur : pyval) (vals : list pyval) : pyval :=
  foldl (fun cur v => if py_ne cur v then v else cur) cur vals.

(** How often the stored value is replaced along [vals], from the
    value [cur]. *)
Fixpoint changes (cur : pyval) (vals : list pyval) : nat :=
  match vals with
  | [] => 0
  | v :: later => if py_ne cur v then S (changes v later) else changes cur later
  end.

(** The names under which workers were started, in order. *)
Definition starts (tr : list event) : list string :=
  omap (fun e => match e with EvStart n _ => Some n | _ => None end) tr.

(** Workers are started under consecutive names, every live driver
    under the name it was started with, and only for registered
    classes. *)
Definition orderly (registered_drivers : list string) (s : t) : Prop :=
  starts (trace s) = map driver_name_of (seq 1 (_driver_counter s))
  ∧ (∀ key, key ∈ dict_keys (_drivers s) → key ∈ starts (trace s))
  ∧ ∀ key d, dict_get key (_drivers s) = Some d →
      DriverStructure.class_name d ∈ registered_drivers.

(** The reply to one request. *)
Definition verdict (registered_drivers : list string) (dd : driver_data) : string :=
  if decide (get_DRIVER dd ∈ registered_drivers) then "SUCCESS" else "FAILED".

(** The variables of a request that are new to the driver: those that
    come with a handle and that the driver does not have yet. *)
Definition new_variables (d : DriverStructure.t) (vars : pydict var_data)
    : pydict var_data :=
  filter (fun kv => is_Some (vd_handle kv.2)
                    ∧ kv.1 ∉ dict_keys (DriverStructure.variables d)) vars.

(** The handle a request gives for variable [x], if any. *)
Definition requested_handle (x : string) (vars : pydict var_data) : list string :=
  match dict_get x vars with
  | Some vd => option_list (vd_handle vd)
  | None => []
  end.

(** The values an [UPDATES] batch offers to variable [x] of driver
    [dn], in the order of the batch: those of the entries whose handle
    the index resolves to [(x, dn)]. *)
Definition writes_to (handles : pydict (string * string)) (data : pydict pyval)
    (x dn : string) : list pyval :=
  omap (fun item : string * pyval =>
          match dict_get item.1 handles with
          | Some target => if decide (target = (x, dn)) then Some item.2 else None
          | None => None
          end) data.


(** A variable record before and after the values [w] have been
    written to it by the host, with its entry in the pending batch of
    the driver before and after. *)
Definition var_written (vs vs' : VariableStructure.t) (u u' : option pyval)
    (w : list pyval) : Prop :=
  VariableStructure.value vs' = settle (VariableStructure.value vs) w
  ∧ VariableStructure.write_count vs'
    = VariableStructure.write_count vs + changes (VariableStructure.value vs) w
  ∧ VariableStructure.read_count vs' = VariableStructure.read_count vs
  ∧ VariableStructure.handlers vs' = VariableStructure.handlers vs
  ∧ VariableStructure.info vs' = VariableStructure.info vs
  ∧ u' = if decide (changes (VariableStructure.value vs) w = 0) then u
         else Some (VariableStructure.value vs').

(** The record [d'] is the record [d] of driver [dn] after the entries
    [data] of a batch have been applied. *)
Definition batch_applied (handles : pydict (string * string)) (data : pydict pyval)
    (dn : string) (d d' : DriverStructure.t) : Prop :=
  DriverStructure.status d' = DriverStructure.status d
  ∧ DriverStructure.name d' = DriverStructure.name d
  ∧ ∀ x,
      match dict_get x (DriverStructure.variables d) with
      | Some vs =>
          ∃ vs', dict_get x (DriverStructure.variables d') = Some vs'
                 ∧ var_written vs vs'
                     (dict_get x (DriverStructure.updates d))
                     (dict_get x (DriverStructure.updates d'))
                     (writes_to handles data x dn)
      | None =>
          dict_get x (DriverStructure.variables d') = None
          ∧ dict_get x (DriverStructure.updates d')
            = dict_get x (DriverStructure.updates d)
      end.

(** * Properties *)

(** ** Dictionaries *)

Section Dict.

Context {V : Type}.
Implicit Types (d : pydict V) (k : string) (v : V).

Lemma dict_keys_cons k v d : dict_keys ((k, v) :: d) = k :: dict_keys d.
Proof. reflexivity. Qed.

Lemma dict_get_set_eq k v d : dict_get k (dict_set k v d) = Some v.
Proof.
  induction d as [|[k' v'] d IH]; simpl.
  - by rewrite decide_True.
  - destruct (decide (k' = k)) as [->|Hne]; simpl.
    + by rewrite decide_True.
    + by rewrite decide_False.
Qed.

Lemma dict_get_set_ne k k' v d :
  k ≠ k' → dict_get k' (dict_set k v d) = dict_get k' d.
Proof.
  intros Hne. induction d as [|[k0 v0] d IH]; simpl.
  - by rewrite decide_False.
  - destruct (decide (k0 = k)) as [->|Hne0]; simpl.
    + by rewrite !decide_False.
    + by rewrite IH.
Qed.

Lemma dict_get_Some_elem k v d : dict_get k d = Some v → (k, v) ∈ d.
Proof.
  induction d as [|[k' v'] d IH]; simpl; [done|].
  destruct (decide (k' = k)) as [->|Hne].
  - intros [= ->]. apply list_elem_of_here.
  - intros H. apply list_elem_of_further. auto.
Qed.

Lemma dict_get_None k d : dict_get k d = None ↔ k ∉ dict_keys d.
Proof.
  unfold dict_keys. induction d as [|[k' v'] d IH]; simpl.
  - split; [intros _; apply not_elem_of_nil | done].
  - rewrite not_elem_of_cons. destruct (decide (k' = k)) as [->|Hne].
    + split; [done | intros [? _]; done].
    + rewrite IH. split; [intros ?; split; [congruence | done] | intros [_ ?]; done].
Qed.

Lemma dict_get_is_Some k d : is_Some (dict_get k d) ↔ k ∈ dict_keys d.
Proof.
  destruct (dict_get k d) as [v|] eqn:E.
  - split; [intros _ | by eauto].
    destruct (decide (k ∈ dict_keys d)) as [|Hn]; [done|].
    apply dict_get_None in Hn. congruence.
  - split; [intros [? ?]; done|]. intros Hin.
    apply dict_get_None in E. done.
Qed.

Lemma elem_dict_get k v d : NoDup (dict_keys d) → (k, v) ∈ d → dict_get k d = Some v.
Proof.
  unfold dict_keys. induction d as [|[k' v'] d IH]; simpl.
  - intros _ H. by apply elem_of_nil in H.
  - intros Hnd H. apply NoDup_cons in Hnd as [Hnotin Hnd].
    apply elem_of_cons in H as [[= <- <-]|H].
    + by rewrite decide_True.
    + destruct (decide (k' = k)) as [->|Hne]; [|auto].
      exfalso. apply Hnotin. apply list_elem_of_fmap. by exists (k, v).
Qed.

Lemma dict_set_new k v d : k ∉ dict_keys d → dict_set k v d = d ++ [(k, v)].
Proof.
  unfold dict_keys. induction d as [|[k' v'] d IH]; simpl; [done|].
  rewrite not_elem_of_cons. intros [Hne Hn].
  rewrite decide_False by congruence. by rewrite IH.
Qed.

Lemma dict_keys_set_old k v d : k ∈ dict_keys d → dict_keys (dict_set k v d) = dict_keys d.
Proof.
  unfold dict_keys. induction d as [|[k' v'] d IH]; simpl.
  - intros H. by apply elem_of_nil in H.
  - intros H. destruct (decide (k' = k)) as [->|Hne]; simpl; [done|].
    apply elem_of_cons in H as [->|H]; [done|]. f_equal. by apply IH.
Qed.

Lemma dict_keys_set k v d k' :
  k' ∈ dict_keys (dict_set k v d) ↔ k' = k ∨ k' ∈ dict_keys d.
Proof.
  destruct (decide (k ∈ dict_keys d)) as [Hin|Hn].
  - rewrite dict_keys_set_old by done. split; [auto | intros [->|?]; done].
  - rewrite dict_set_new by done. unfold dict_keys. rewrite fmap_app. simpl.
    rewrite elem_of_app, list_elem_of_singleton. tauto.
Qed.

Lemma dict_set_NoDup k v d : NoDup (dict_keys d) → NoDup (dict_keys (dict_set k v d)).
Proof.
  intros Hnd. destruct (decide (k ∈ dict_keys d)) as [Hin|Hn].
  - by rewrite dict_keys_set_old.
  - rewrite dict_set_new by done. unfold dict_keys in *. rewrite fmap_app. simpl.
    apply NoDup_app. split; [done|]. split.
    + intros x Hx Hx'. apply list_elem_of_singleton in Hx'. by subst.
    + apply NoDup_singleton.
Qed.

Lemma dict_set_length_old k v d :
  k ∈ dict_keys d → length (dict_set k v d) = length d.
Proof.
  intros H. transitivity (length (dict_keys (dict_set k v d))).
  { unfold dict_keys. by rewrite length_fmap. }
  rewrite dict_keys_set_old by done. unfold dict_keys. by rewrite length_fmap.
Qed.

Lemma elem_of_dict_set k v d kv :
  kv ∈ dict_set k v d → kv = (k, v) ∨ kv ∈ d.
Proof.
  induction d as [|[k' v'] d IH]; simpl.
  - intros H. apply list_elem_of_singleton in H. auto.
  - destruct (decide (k' = k)) as [->|Hne]; intros H.
    + apply elem_of_cons in H as [->|H]; [auto|].
      right. by apply list_elem_of_further.
    + apply elem_of_cons in H as [->|H]; [right; apply list_elem_of_here|].
      destruct (IH H) as [->|?]; [auto|]. right. by apply list_elem_of_further.
Qed.

Lemma dict_set_set k v v' d : dict_set k v (dict_set k v' d) = dict_set k v d.
Proof.
  induction d as [|[k0 v0] d IH]; simpl.
  - by rewrite decide_True.
  - destruct (decide (k0 = k)) as [->|Hne]; simpl.
    + by rewrite decide_True.
    + rewrite decide_False by done. by rewrite IH.
Qed.


Lemma Forall_dict_set (P : string * V → Prop) k v d :
  P (k, v) → Forall P d → Forall P (dict_set k v d).
Proof.
  intros Hp. induction 1 as [|[k' v'] d Hx Hd IH]; simpl.
  - by constructor.
  - destruct (decide (k' = k)); constructor; auto.
Qed.

Lemma dict_update_get_Some k x d delta :
  dict_get k (dict_update d delta) = Some x →
  dict_get k d = Some x ∨ (k, x) ∈ delta.
Proof.
  unfold dict_update. revert d.
  induction delta as [|[k' v'] delta IH]; simpl; intros d H; [auto|].
  apply IH in H as [H|H]; [|right; by apply list_elem_of_further].
  destruct (decide (k' = k)) as [->|Hne].
  - rewrite dict_get_set_eq in H. injection H as ->. right. apply list_elem_of_here.
  - rewrite dict_get_set_ne in H by done. auto.
Qed.

Lemma dict_update_keys k d delta :
  k ∈ dict_keys (dict_update d delta) ↔ k ∈ dict_keys d ∨ k ∈ dict_keys delta.
Proof.
  unfold dict_update. revert d.
  induction delta as [|[k' v'] delta IH]; intros d; cbn [foldl fst snd].
  - split; [auto | intros [?|H]; [done | by apply elem_of_nil in H]].
  - rewrite IH, dict_keys_set, dict_keys_cons, elem_of_cons. tauto.
Qed.

Lemma dict_popitem_snoc d kv : dict_popitem (d ++ [kv]) = Some (kv, d).
Proof.
  unfold dict_popitem. rewrite reverse_app. simpl. by rewrite reverse_involutive.
Qed.

End Dict.

Lemma dict_get_map {A B} (f : A → B) k (d : pydict A) :
  dict_get k (dict_map f d) = f <$> dict_get k d.
Proof.
  induction d as [|[k' v'] d IH]; simpl; [done|].
  destruct (decide (k' = k)); [done | apply IH].
Qed.

Lemma dict_keys_map {A B} (f : A → B) (d : pydict A) :
  dict_keys (dict_map f d) = dict_keys d.
Proof.
  unfold dict_keys, dict_map. induction d as [|[k' v'] d IH]; simpl; [done|].
  f_equal. apply IH.
Qed.

Lemma dict_map_set {A B} (f : A → B) k v (d : pydict A) :
  dict_map f (dict_set k v d) = dict_set k (f v) (dict_map f d).
Proof.
  induction d as [|[k' v'] d IH]; simpl; [done|].
  destruct (decide (k' = k)); simpl; [done | by rewrite IH].
Qed.

Lemma dict_set_same {A} k (v : A) (d : pydict A) :
  dict_get k d = Some v → dict_set k v d = d.
Proof.
  induction d as [|[k' v'] d IH]; simpl; [done|].
  destruct (decide (k' = k)) as [->|Hne].
  - by intros [= ->].
  - intros H. by rewrite IH.
Qed.

Lemma dict_map_set_same {A B} (f : A → B) k v v0 (d : pydict A) :
  dict_get k d = Some v0 → f v = f v0 →
  dict_map f (dict_set k v d) = dict_map f d.
Proof.
  intros Hget Hf. rewrite dict_map_set, Hf. apply dict_set_same.
  by rewrite dict_get_map, Hget.
Qed.

(** ** Compatibility resolver *)

Lemma parameters_agree_Some own items :
  DriverStructure.parameters_agree (Some own) items
  = Ok (bool_decide (Forall (agrees own) items)).
Proof.
  induction items as [|[key value] items IH]; cbn [DriverStructure.parameters_agree].
  - reflexivity.
  - destruct (own !! key) as [v|] eqn:E.
    + destruct (py_ne v value) eqn:Hne.
      * apply (f_equal Ok). symmetry. apply bool_decide_eq_false_2.
        rewrite Forall_cons. unfold agrees at 1. simpl. rewrite E, Hne.
        by intros [? _].
      * rewrite IH. apply (f_equal Ok), bool_decide_ext.
        rewrite Forall_cons. unfold agrees at 2. simpl. rewrite E. tauto.
    + rewrite IH. apply (f_equal Ok), bool_decide_ext.
      rewrite Forall_cons. unfold agrees at 2. simpl. rewrite E. tauto.
Qed.

Lemma Forall_agrees own (items : gmap string pyval) :
  Forall (agrees own) (map_to_list items) ↔
  ∀ k v v', items !! k = Some v → own !! k = Some v' → py_ne v' v = false.
Proof.
  rewrite Forall_forall. split.
  - intros H k v v' Hk Hown. apply elem_of_map_to_list in Hk.
    specialize (H _ Hk). unfold agrees in H. simpl in H. by rewrite Hown in H.
  - intros H [k v] Hin. apply elem_of_map_to_list in Hin.
    unfold agrees. simpl. destruct (own !! k) as [v'|] eqn:E; [|done]. eauto.
Qed.


(** A parameter value that differs from itself, as a NaN does, makes
    a request disagree with the driver that was started from it. *)
Lemma parameters_agree_not_self p k v :
  p !! k = Some v → py_ne v v = true →
  DriverStructure.parameters_agree (Some p) (map_to_list p) = Ok false.
Proof.
  intros Hk Hv. rewrite parameters_agree_Some.
  apply (f_equal Ok), bool_decide_eq_false_2.
  rewrite Forall_agrees. intros H. specialize (H k v v Hk Hk). congruence.
Qed.


Lemma is_compatible_no_parameters d dd :
  get_parameters dd = None →
  DriverStructure.class_name d = get_DRIVER dd →
  DriverStructure.is_compatible d dd = Raise AttributeError.
Proof.
  intros Hp Hc. unfold DriverStructure.is_compatible.
  by rewrite Hp, decide_True.
Qed.

Lemma is_compatible_other_class d dd :
  DriverStructure.class_name d ≠ get_DRIVER dd →
  DriverStructure.is_compatible d dd = Ok false.
Proof.
  intros Hc. unfold DriverStructure.is_compatible. by rewrite decide_False.
Qed.

(** With parameters on both sides the check returns, and says yes
    exactly when the class is the same and no shared key disagrees. *)
Lemma is_compatible_spec d dd own items :
  DriverStructure.parameters d = Some own →
  get_parameters dd = Some items →
  ∃ b, DriverStructure.is_compatible d dd = Ok b ∧
       (b = true ↔
        DriverStructure.class_name d = get_DRIVER dd ∧
        ∀ k v v', items !! k = Some v → own !! k = Some v' → py_ne v' v = false).
Proof.
  intros Hown Hitems. unfold DriverStructure.is_compatible.
  rewrite Hown, Hitems.
  destruct (decide (DriverStructure.class_name d = get_DRIVER dd)) as [Hc|Hc].
  - rewrite parameters_agree_Some. eexists. split; [done|].
    rewrite bool_decide_eq_true, Forall_agrees. tauto.
  - exists false. split; [done|]. split; [done | tauto].
Qed.


(** First match wins: the search returns a record exactly when it is
    compatible and every record before it was judged incompatible. *)
Lemma find_compatible_in_Some items dd key d :
  find_compatible_in items dd = Ok (Some (key, d)) ↔
  ∃ l1 l2, items = l1 ++ (key, d) :: l2 ∧ Forall (rejects dd) l1 ∧
           DriverStructure.is_compatible d dd = Ok true.
Proof.
  split.
  - induction items as [|[k0 d0] items IH]; simpl; [done|].
    destruct (DriverStructure.is_compatible d0 dd) as [[|]|e] eqn:E; simpl; [| |done].
    + intros [= -> ->]. exists [], items. by repeat split.
    + intros H. destruct (IH H) as (l1 & l2 & -> & Hl1 & Hd).
      exists ((k0, d0) :: l1), l2. repeat split; [|done]. by constructor.
  - intros (l1 & l2 & -> & Hl1 & Hd).
    induction Hl1 as [|[k0 d0] l1 Hx Hl1 IH]; simpl.
    + by rewrite Hd.
    + unfold rejects in Hx. simpl in Hx. by rewrite Hx.
Qed.

Lemma find_compatible_in_None items dd :
  find_compatible_in items dd = Ok None ↔ Forall (rejects dd) items.
Proof.
  induction items as [|[k0 d0] items IH]; simpl.
  - split; [by constructor | done].
  - rewrite Forall_cons. unfold rejects at 1. simpl.
    destruct (DriverStructure.is_compatible d0 dd) as [[|]|e]; simpl.
    + split; [done | intros [? _]; done].
    + rewrite IH. tauto.
    + split; [done | intros [? _]; done].
Qed.

(** A request without parameters makes the search raise at the first
    live driver of its class. *)
Lemma find_compatible_in_no_parameters items dd key d :
  get_parameters dd = None →
  (key, d) ∈ items →
  DriverStructure.class_name d = get_DRIVER dd →
  find_compatible_in items dd = Raise AttributeError.
Proof.
  intros Hp Hin Hc. induction items as [|[k0 d0] items IH]; simpl.
  - by apply elem_of_nil in Hin.
  - destruct (decide (DriverStructure.class_name d0 = get_DRIVER dd)) as [Hc0|Hc0].
    + by rewrite is_compatible_no_parameters.
    + rewrite is_compatible_other_class by done. simpl.
      apply elem_of_cons in Hin as [[= -> ->]|Hin]; [done | auto].
Qed.

(** ** What the reconciler and host writes leave alone *)

Lemma evolves_refl d : evolves d d.
Proof. by split. Qed.

Lemma evolves_trans d1 d2 d3 : evolves d1 d2 → evolves d2 d3 → evolves d1 d3.
Proof.
  intros [] []. split; try congruence; [by etrans | auto].
Qed.

Lemma var_shape_set var_id v v0 vars :
  dict_get var_id vars = Some v0 →
  VariableStructure.handlers v = VariableStructure.handlers v0 →
  var_shape (dict_set var_id v vars) = var_shape vars.
Proof. intros. by apply dict_map_set_same with v0. Qed.

Lemma var_shape_get v vars vars' vs :
  var_shape vars' = var_shape vars →
  dict_get v vars = Some vs →
  ∃ vs', dict_get v vars' = Some vs'
         ∧ VariableStructure.handlers vs' = VariableStructure.handlers vs.
Proof.
  intros Hsh Hget.
  assert (H : dict_get v (var_shape vars') = Some (VariableStructure.handlers vs)).
  { rewrite Hsh. unfold var_shape. by rewrite dict_get_map, Hget. }
  unfold var_shape in H. rewrite dict_get_map in H.
  destruct (dict_get v vars') as [vs'|]; [|done].
  injection H as H. eauto.
Qed.

Ltac unchanged := split_and!; first [done | apply evolves_refl | congruence].

Lemma worker_update_evolves d s item :
  evolves d (worker_update (d, s) item).1
  ∧ DriverStructure.updates (worker_update (d, s) item).1 = DriverStructure.updates d
  ∧ DriverStructure.status (worker_update (d, s) item).1 = DriverStructure.status d
  ∧ DriverStructure.pipe (worker_update (d, s) item).1 = DriverStructure.pipe d
  ∧ core (worker_update (d, s) item).2 = core s
  ∧ _drivers (worker_update (d, s) item).2 = _drivers s.
Proof.
  destruct item as [var_id value]. unfold worker_update.
  destruct (dict_get var_id (DriverStructure.variables d)) as [vs|] eqn:E;
    [|unchanged].
  destruct (py_ne (VariableStructure.value vs) value); [|unchanged].
  simpl. split_and!; try done; [].
  split; simpl; try done; []. by apply var_shape_set with vs.
Qed.

Lemma worker_updates_evolves data d s :
  evolves d (foldl worker_update (d, s) data).1
  ∧ DriverStructure.updates (foldl worker_update (d, s) data).1 = DriverStructure.updates d
  ∧ DriverStructure.status (foldl worker_update (d, s) data).1 = DriverStructure.status d
  ∧ DriverStructure.pipe (foldl worker_update (d, s) data).1 = DriverStructure.pipe d
  ∧ core (foldl worker_update (d, s) data).2 = core s
  ∧ _drivers (foldl worker_update (d, s) data).2 = _drivers s.
Proof.
  revert d s. induction data as [|item data IH]; intros d s; cbn [foldl].
  - unchanged.
  - destruct (worker_update_evolves d s item) as (H1 & H2 & H3 & H4 & H5 & H6).
    destruct (worker_update (d, s) item) as [d1 s1]. cbn [fst snd] in *.
    destruct (IH d1 s1) as (G1 & G2 & G3 & G4 & G5 & G6).
    split_and!; try congruence. by apply evolves_trans with d1.
Qed.

Lemma last5_length log : length (last5 log) ≤ 5.
Proof. unfold last5. rewrite length_drop. lia. Qed.

(** A message changes neither the pending host writes nor the channel. *)
Lemma on_message_evolves d s m :
  evolves d (on_message d s m).1
  ∧ DriverStructure.updates (on_message d s m).1 = DriverStructure.updates d
  ∧ DriverStructure.pipe (on_message d s m).1 = DriverStructure.pipe d
  ∧ core (on_message d s m).2 = core s
  ∧ _drivers (on_message d s m).2 = _drivers s.
Proof.
  destruct m as [data|data|msg var_id|data|tag]; simpl.
  - destruct (decide (DriverStructure.status d = Status data)); [unchanged|].
    split_and!; try done; by split.
  - destruct (contains "Latency" data); [split_and!; try done; by split|].
    split_and!; try done; [].
    split; simpl; try done; []. intros _.
    case_decide; [apply last5_length | lia].
  - destruct (dict_get var_id (DriverStructure.variables d)) as [vs|] eqn:E;
      [|unchanged].
    destruct (decide (VariableStructure.info vs = msg)); [unchanged|].
    split_and!; try done; [].
    split; simpl; try done; []. by apply var_shape_set with vs.
  - destruct (worker_updates_evolves data d s) as (H1 & H2 & H3 & H4 & H5 & H6).
    by split_and!.
  - unchanged.
Qed.

Lemma set_pipe_evolves d p : evolves d (DriverStructure.set_pipe d p).
Proof. by split. Qed.

Lemma drain_evolves max counter pending d s :
  evolves d (drain max counter pending d s).1
  ∧ DriverStructure.updates (drain max counter pending d s).1 = DriverStructure.updates d
  ∧ core (drain max counter pending d s).2 = core s
  ∧ _drivers (drain max counter pending d s).2 = _drivers s.
Proof.
  revert counter d s. induction pending as [|m rest IH]; intros counter d s; simpl.
  - split_and!; try done; apply set_pipe_evolves.
  - destruct (on_message_evolves d s m) as (H1 & H2 & H3 & H4 & H5).
    destruct (on_message d s m) as [d1 s1]. simpl in *.
    case_decide.
    + simpl. split_and!; try done; [].
      apply evolves_trans with d1; [done | apply set_pipe_evolves].
    + destruct (IH (counter + 1)%Z d1 s1) as (G1 & G2 & G3 & G4).
      split_and!; try congruence. by apply evolves_trans with d1.
Qed.

Lemma registry_rel_refl R l : (∀ d, R d d) → registry_rel R l l.
Proof. intros HR. apply Forall_Forall2_diag, Forall_forall. auto. Qed.

Lemma registry_rel_trans R l1 l2 l3 :
  (∀ a b c, R a b → R b c → R a c) →
  registry_rel R l1 l2 → registry_rel R l2 l3 → registry_rel R l1 l3.
Proof.
  intros HR H12. revert l3. induction H12 as [|x y l1 l2 [Hk Hxy] H12 IH]; intros l3 H23.
  - inversion H23. constructor.
  - inversion H23 as [|y' z l2' l3' [Hk' Hyz] H23']; subst.
    constructor; [split; [congruence | eauto] | by apply IH].
Qed.

Lemma registry_rel_keys R l l' : registry_rel R l l' → dict_keys l' = dict_keys l.
Proof.
  induction 1 as [|[k d] [k' d'] l l' [Hk _] H IH]; [done|].
  rewrite !dict_keys_cons. simpl in Hk. by rewrite Hk, IH.
Qed.

Lemma registry_rel_length R l l' : registry_rel R l l' → length l' = length l.
Proof. intros H. symmetry. by eapply Forall2_length. Qed.

Lemma registry_rel_get R l l' k d :
  registry_rel R l l' → dict_get k l = Some d →
  ∃ d', dict_get k l' = Some d' ∧ R d d'.
Proof.
  induction 1 as [|[k0 d0] [k0' d0'] l l' [Hk Hd] H IH]; simpl; [done|].
  simpl in Hk, Hd. subst k0'. destruct (decide (k0 = k)); [|done].
  intros [= <-]. eauto.
Qed.

Lemma registry_rel_get_inv R l l' k d' :
  registry_rel R l l' → dict_get k l' = Some d' →
  ∃ d, dict_get k l = Some d ∧ R d d'.
Proof.
  induction 1 as [|[k0 d0] [k0' d0'] l l' [Hk Hd] H IH]; simpl; [done|].
  simpl in Hk, Hd. subst k0'. destruct (decide (k0 = k)); [|done].
  intros [= <-]. eauto.
Qed.

Lemma registry_rel_set R l key d d' :
  (∀ x, R x x) → dict_get key l = Some d → R d d' →
  registry_rel R l (dict_set key d' l).
Proof.
  intros HR. induction l as [|[k0 d0] l IH]; simpl; [done|].
  destruct (decide (k0 = key)) as [->|Hne].
  - intros [= ->] Hd. constructor; [done|]. by apply registry_rel_refl.
  - intros Hget Hd. constructor; [by split | by apply IH].
Qed.

Lemma registry_rel_impl (R R' : _ → _ → Prop) l l' :
  (∀ a b, R a b → R' a b) → registry_rel R l l' → registry_rel R' l l'.
Proof.
  intros HR H. eapply Forall2_impl; [exact H|]. intros ? ? [? ?]. auto.
Qed.

Lemma run_drivers_steady max items s :
  registry_rel steady items (run_drivers max items s).1
  ∧ core (run_drivers max items s).2 = core s
  ∧ _drivers (run_drivers max items s).2 = _drivers s.
Proof.
  revert s. induction items as [|[key d] items IH]; intros s; simpl.
  - split_and!; try done; constructor.
  - destruct (drain_evolves max 0 (DriverStructure.pipe d) d s) as (H1 & H2 & H3 & H4).
    destruct (drain max 0 (DriverStructure.pipe d) d s) as [d1 s1]. simpl in *.
    destruct (IH s1) as (G1 & G2 & G3).
    destruct (run_drivers max items s1) as [rest s2]. simpl in *.
    split_and!; try congruence. constructor; [|done]. by split_and!.
Qed.

(** ** Host writes *)

Lemma written_refl d : written d d.
Proof. split_and!; try done; apply evolves_refl. Qed.

Lemma written_trans a b c : written a b → written b c → written a c.
Proof.
  intros (H1 & H2 & H3 & H4) (G1 & G2 & G3 & G4). split_and!; try congruence.
  - by apply evolves_trans with b.
  - intros Hs. rewrite <- (H4 Hs). apply G4. congruence.
Qed.

Lemma written_evolves a b : written a b → evolves a b.
Proof. by intros [? _]. Qed.

Lemma resolvable_carried s s' :
  resolvable s → _handles s' = _handles s →
  registry_rel evolves (_drivers s) (_drivers s') → resolvable s'.
Proof.
  intros Hres Hh Hrel h v dn Hget. rewrite Hh in Hget.
  destruct (Hres _ _ _ Hget) as (d & vs & Hd & Hv).
  destruct (registry_rel_get _ _ _ _ _ Hrel Hd) as (d' & Hd' & Hev).
  destruct (var_shape_get v _ _ vs (ev_shape _ _ Hev) Hv) as (vs' & Hv' & _).
  eauto.
Qed.

Lemma host_update_written s item s' :
  host_update s item = Ok s' →
  registry_rel written (_drivers s) (_drivers s') ∧ rest s' = rest s.
Proof.
  destruct item as [h val]. unfold host_update.
  pose proof (registry_rel_refl written (_drivers s) written_refl) as Hrefl.
  destruct (dict_get h (_handles s)) as [[v dn]|]; [|by intros [= <-]].
  destruct (decide (dn = "")); [by intros [= <-]|].
  destruct (dict_get dn (_drivers s)) as [d|] eqn:Ed; [|done].
  destruct (decide (DriverStructure.status d = Status RUNNING)) as [Hrun|Hrun];
    [|by intros [= <-]].
  destruct (dict_get v (DriverStructure.variables d)) as [vs|] eqn:Ev; [|done].
  destruct (py_ne (VariableStructure.value vs) val); [|by intros [= <-]].
  intros [= <-]. split; [|done]. simpl.
  eapply registry_rel_set; [apply written_refl | exact Ed |].
  split_and!; try done; [].
  split; simpl; try done; []. by apply var_shape_set with vs.
Qed.

Lemma host_update_total s item :
  resolvable s → ∃ s', host_update s item = Ok s'.
Proof.
  intros Hres. destruct item as [h val]. unfold host_update.
  destruct (dict_get h (_handles s)) as [[v dn]|] eqn:Eh; [|eauto].
  destruct (decide (dn = "")); [eauto|].
  destruct (Hres _ _ _ Eh) as (d & vs & -> & Hv).
  destruct (decide (DriverStructure.status d = Status RUNNING)); [|eauto].
  rewrite Hv. destruct (py_ne (VariableStructure.value vs) val); eauto.
Qed.

Lemma rest_handles s s' : rest s' = rest s → _handles s' = _handles s.
Proof. unfold rest, core. congruence. Qed.

Lemma rest_trace s s' : rest s' = rest s → trace s' = trace s.
Proof. unfold rest, core. congruence. Qed.

Lemma rest_running s s' : rest s' = rest s → _running s' = _running s.
Proof. unfold rest, core. congruence. Qed.

Lemma rest_counter s s' : rest s' = rest s → _driver_counter s' = _driver_counter s.
Proof. unfold rest, core. congruence. Qed.

Lemma host_updates_written items s s' :
  host_updates items s = Ok s' →
  registry_rel written (_drivers s) (_drivers s') ∧ rest s' = rest s.
Proof.
  revert s. induction items as [|item items IH]; intros s; simpl.
  - intros [= <-]. split; [apply registry_rel_refl, written_refl | done].
  - destruct (host_update s item) as [s1|e] eqn:E; simpl; [|done].
    intros H. apply host_update_written in E as [E1 E2].
    apply IH in H as [H1 H2]. split; [|congruence].
    eapply registry_rel_trans; [apply written_trans | exact E1 | exact H1].
Qed.

Lemma host_updates_total items s :
  resolvable s → ∃ s', host_updates items s = Ok s'.
Proof.
  revert s. induction items as [|item items IH]; intros s Hres; simpl; [eauto|].
  destruct (host_update_total s item Hres) as [s1 E]. rewrite E. simpl.
  apply IH. apply host_update_written in E as [E1 E2].
  eapply resolvable_carried; [exact Hres | by apply rest_handles |].
  eapply registry_rel_impl; [apply written_evolves | exact E1].
Qed.

Lemma clear_updates_quiet d : DriverStructure.updates d = [] → clear_updates d = d.
Proof. destruct d. simpl. by intros ->. Qed.

Lemma flush_updates_spec items :
  flush_updates items = (dict_map clear_updates items, pending_sends items).
Proof.
  induction items as [|[key d] items IH]; simpl; [done|].
  rewrite IH. destruct (DriverStructure.updates d) eqn:E; simpl.
  - by rewrite clear_updates_quiet.
  - done.
Qed.

Lemma flush_registry_rel items :
  registry_rel evolves items (dict_map clear_updates items).
Proof.
  induction items as [|[key d] items IH]; simpl; constructor; [|done].
  split; [done|]. by split.
Qed.

Lemma elem_of_pending_sends items e :
  e ∈ pending_sends items →
  ∃ key d, (key, d) ∈ items ∧ DriverStructure.updates d ≠ []
           ∧ e = EvSend (DriverStructure.name d) (UPDATE (DriverStructure.updates d)).
Proof.
  unfold pending_sends. rewrite list_elem_of_In, in_flat_map.
  intros ([key d] & Hin & He). apply list_elem_of_In in Hin. simpl in He.
  destruct (DriverStructure.updates d) eqn:E; [done|].
  destruct He as [<-|[]]. exists key, d. by rewrite E.
Qed.

(** ** The manager invariant *)

Lemma driver_name_of_inj n m : driver_name_of n = driver_name_of m → n = m.
Proof.
  unfold driver_name_of. intros H. apply (inj pretty).
  by apply (inj (String.append "DRIVER_")) in H.
Qed.

Lemma driver_name_of_nonempty n : driver_name_of n ≠ "".
Proof. done. Qed.

Lemma steady_settles d d' : steady d d' → settles d d'.
Proof. intros [H1 H2]. split; [done | congruence]. Qed.

Lemma prefix_nonempty {A} (l l' : list A) : l `prefix_of` l' → l ≠ [] → l' ≠ [].
Proof. intros [k ->] H. by destruct l. Qed.

(** The invariant survives every step that changes driver records
    only into later states, sends messages only, and leaves the handle
    index, the counter and the running flag alone. *)
Lemma invariant_carried s s' :
  invariant s →
  registry_rel settles (_drivers s) (_drivers s') →
  _handles s' = _handles s →
  _driver_counter s' = _driver_counter s →
  _running s' = _running s →
  (∃ evs, trace s' = trace s ++ evs ∧ Forall is_send evs) →
  invariant s'.
Proof.
  intros Hinv Hrel Hh Hc Hr (evs & Htr & Hevs).
  pose proof (registry_rel_keys _ _ _ Hrel) as Hkeys.
  split.
  - rewrite Hkeys. apply Hinv.
  - intros key d' Hget.
    destruct (registry_rel_get_inv _ _ _ _ _ Hrel Hget) as (d & Hd & Hev & _).
    destruct (inv_names _ Hinv _ _ Hd) as (Hn & n & Hk & Hle).
    split; [by rewrite (ev_name _ _ Hev) | exists n; split; [done | lia]].
  - rewrite Hr, Hh. intros Hrun h v dn Hget.
    destruct (inv_handles _ Hinv Hrun _ _ _ Hget) as (d & vs & Hd & Hv & Hin).
    destruct (registry_rel_get _ _ _ _ _ Hrel Hd) as (d' & Hd' & Hev & _).
    destruct (var_shape_get v _ _ vs (ev_shape _ _ Hev) Hv) as (vs' & Hv' & Hhs).
    exists d', vs'. by rewrite Hhs.
  - rewrite Hh. intros dn d' v vs' h Hd' Hv' Hin.
    destruct (registry_rel_get_inv _ _ _ _ _ Hrel Hd') as (d & Hd & Hev & _).
    destruct (var_shape_get v _ _ vs' (eq_sym (ev_shape _ _ Hev)) Hv')
      as (vs & Hv & Hhs).
    apply (inv_indexed _ Hinv dn d v vs h); [done | done | by rewrite Hhs].
  - intros key d' Hd'.
    destruct (registry_rel_get_inv _ _ _ _ _ Hrel Hd') as (d & Hd & Hev & _).
    destruct (inv_ok _ Hinv _ _ Hd) as (H1 & H2 & H3). split_and!.
    + by apply (prefix_nonempty _ _ (ev_handlers _ _ Hev)).
    + by apply (ev_log _ _ Hev).
    + intros v vs' Hv'.
      destruct (var_shape_get v _ _ vs' (eq_sym (ev_shape _ _ Hev)) Hv')
        as (vs & Hv & Hhs).
      rewrite <- Hhs. by apply (H3 v).
  - intros key d' Hd'.
    destruct (registry_rel_get_inv _ _ _ _ _ Hrel Hd') as (d & Hd & _ & Hq).
    apply Hq. by apply (inv_quiet _ Hinv key).
  - rewrite Htr, Hkeys. intros nm c Hin. apply elem_of_app in Hin as [Hin|Hin].
    + destruct (inv_started _ Hinv _ _ Hin) as [?|?]; [by left|].
      right. apply elem_of_app. by left.
    + rewrite Forall_forall in Hevs. by apply Hevs in Hin.
  - intros key d' Hd'.
    destruct (registry_rel_get_inv _ _ _ _ _ Hrel Hd') as (d & Hd & Hev & _).
    rewrite <- (dict_keys_map VariableStructure.handlers).
    fold (var_shape (DriverStructure.variables d')).
    rewrite (ev_shape _ _ Hev). unfold var_shape. rewrite dict_keys_map.
    by apply (inv_var_keys _ Hinv key).
Qed.

(** ** Variable registration *)

Section AddVariables.

Variable vars0 : pydict VariableStructure.t.
Variable self_name : string.

Lemma registering_start : registering vars0 self_name (vars0, [], []).
Proof.
  split; simpl.
  - intros v vs H. by exists vs.
  - intros h v nm H. by apply elem_of_nil in H.
  - intros v vs h H1 H2. left. by exists vs.
  - auto.
  - auto.
Qed.

Lemma registering_step acc item :
  registering vars0 self_name acc →
  registering vars0 self_name (DriverStructure.add_variable self_name acc item).
Proof.
  destruct acc as [[vars res] setup], item as [var_id vd].
  intros [HK HD HS HN HU]. simpl in HK, HD, HS, HN, HU.
  unfold DriverStructure.add_variable.
  destruct (vd_handle vd) as [hd|]; [|by split].
  set (newv := match dict_get var_id vars with
               | None => VariableStructure.init hd vd
               | Some vs1 => VariableStructure.add_handle vs1 hd
               end).
  assert (Hvars : ∃ setup',
    (let '(vars1, var_setup_data) :=
       match dict_get var_id vars with
       | Some var_structure =>
           (dict_set var_id (VariableStructure.add_handle var_structure hd) vars, setup)
       | None =>
           (dict_set var_id (VariableStructure.init hd vd) vars,
            dict_set var_id vd setup)
       end in
     (vars1, dict_set hd (var_id, self_name) res, var_setup_data))
    = (dict_set var_id newv vars, dict_set hd (var_id, self_name) res, setup')).
  { unfold newv. destruct (dict_get var_id vars); eauto. }
  destruct Hvars as [setup' ->].
  assert (Hnew : hd ∈ VariableStructure.handlers newv).
  { unfold newv. destruct (dict_get var_id vars); simpl.
    - apply elem_of_app. right. apply list_elem_of_here.
    - apply list_elem_of_here. }
  assert (Hmono : ∀ v vs, dict_get v vars = Some vs →
    ∃ vs', dict_get v (dict_set var_id newv vars) = Some vs'
           ∧ VariableStructure.handlers vs ⊆ VariableStructure.handlers vs').
  { intros v vs Hv. destruct (decide (var_id = v)) as [->|Hne].
    - rewrite dict_get_set_eq. eexists. split; [done|].
      unfold newv. rewrite Hv. simpl. intros x Hx. apply elem_of_app. by left.
    - rewrite dict_get_set_ne by done. by exists vs. }
  split; simpl.
  - intros v vs Hv. destruct (HK v vs Hv) as (vs1 & Hv1 & Hsub).
    destruct (Hmono v vs1 Hv1) as (vs2 & Hv2 & Hsub2).
    exists vs2. split; [done | intros x Hx; by apply Hsub2, Hsub].
  - intros h v nm Hin. apply elem_of_dict_set in Hin as [[= -> -> ->]|Hin].
    + split; [done|]. exists newv. by rewrite dict_get_set_eq.
    + destruct (HD h v nm Hin) as (-> & vs & Hv & Hh). split; [done|].
      destruct (Hmono v vs Hv) as (vs2 & Hv2 & Hsub2). exists vs2.
      split; [done | by apply Hsub2].
  - intros v vs h Hv Hh. rewrite dict_keys_set.
    destruct (decide (var_id = v)) as [->|Hne].
    + rewrite dict_get_set_eq in Hv. injection Hv as <-.
      unfold newv in Hh. destruct (dict_get v vars) as [vs1|] eqn:E; simpl in Hh.
      * apply elem_of_app in Hh as [Hh|Hh].
        -- destruct (HS v vs1 h E Hh) as [?|?]; auto.
        -- apply list_elem_of_singleton in Hh. auto.
      * apply list_elem_of_singleton in Hh. auto.
    + rewrite dict_get_set_ne in Hv by done.
      destruct (HS v vs h Hv Hh) as [?|?]; auto.
  - intros H0 v vs Hv. destruct (decide (var_id = v)) as [->|Hne].
    + rewrite dict_get_set_eq in Hv. injection Hv as <-.
      intros Hnil. rewrite Hnil in Hnew. by apply elem_of_nil in Hnew.
    + rewrite dict_get_set_ne in Hv by done. by apply (HN H0 v).
  - intros H0. by apply dict_set_NoDup, HU.
Qed.

Lemma registering_loop items acc :
  registering vars0 self_name acc →
  registering vars0 self_name (foldl (DriverStructure.add_variable self_name) acc items).
Proof.
  revert acc. induction items as [|item items IH]; intros acc H; simpl; [done|].
  apply IH. by apply registering_step.
Qed.

End AddVariables.

(** The three results of [add_driver_variables]: only the variable
    table of the record changes, and at most one [ADD_VARIABLES]
    message is sent. *)
Lemma add_driver_variables_spec d vars :
  ∃ vs res sent,
    DriverStructure.add_driver_variables d vars
    = (DriverStructure.set_variables d vs, res, sent)
    ∧ (∃ setup, registering (DriverStructure.variables d) (DriverStructure.name d)
                  (vs, res, setup))
    ∧ Forall is_send sent ∧ length sent ≤ 1.
Proof.
  unfold DriverStructure.add_driver_variables.
  pose proof (registering_loop (DriverStructure.variables d) (DriverStructure.name d)
                vars _ (registering_start _ _)) as H.
  destruct (foldl _ _ vars) as [[vs res] setup].
  exists vs, res. eexists. split; [done|]. split; [by exists setup|].
  destruct setup; simpl; split; auto. by repeat constructor.
Qed.

(** ** Provisioning keeps the invariant *)

Lemma register_variables_invariant s key ds dd :
  invariant s → dict_get key (_drivers s) = Some ds →
  invariant (register_variables s key ds dd).
Proof.
  intros Hinv Hkey.
  destruct (add_driver_variables_spec ds (get_variables dd))
    as (vs & res & sent & Heq & (setup & Hreg) & Hsend & _).
  unfold register_variables. rewrite Heq.
  destruct Hreg as [HK HD HS HN HU]. simpl in HK, HD, HS, HN, HU.
  assert (Hin : key ∈ dict_keys (_drivers s)).
  { apply dict_get_is_Some. eauto. }
  split; simpl.
  - apply dict_set_NoDup, Hinv.
  - intros k d Hget. destruct (decide (key = k)) as [->|Hne].
    + rewrite dict_get_set_eq in Hget. injection Hget as <-. simpl.
      apply (inv_names _ Hinv _ _ Hkey).
    + rewrite dict_get_set_ne in Hget by done. by apply (inv_names _ Hinv).
  - intros Hrun h v dn Hget.
    apply dict_update_get_Some in Hget as [Hget|Hget].
    + destruct (inv_handles _ Hinv Hrun _ _ _ Hget) as (d & vs0 & Hd & Hv & Hh).
      destruct (decide (key = dn)) as [->|Hne].
      * rewrite dict_get_set_eq. rewrite Hkey in Hd. injection Hd as <-.
        destruct (HK v vs0 Hv) as (vs' & Hv' & Hsub).
        eexists _, vs'. split; [done|]. split; [done | by apply Hsub].
      * rewrite dict_get_set_ne by done. eauto.
    + destruct (HD h v dn Hget) as (-> & vs' & Hv' & Hh).
      destruct (inv_names _ Hinv _ _ Hkey) as [-> _].
      rewrite dict_get_set_eq. eauto.
  - intros dn d v vs' h Hd Hv Hh. apply dict_update_keys.
    destruct (decide (key = dn)) as [->|Hne].
    + rewrite dict_get_set_eq in Hd. injection Hd as <-. simpl in Hv.
      destruct (HS v vs' h Hv Hh) as [(vs0 & Hv0 & Hh0)|?]; [|by right].
      left. by apply (inv_indexed _ Hinv dn ds v vs0 h).
    + rewrite dict_get_set_ne in Hd by done.
      left. by apply (inv_indexed _ Hinv dn d v vs' h).
  - intros k d Hget. destruct (decide (key = k)) as [->|Hne].
    + rewrite dict_get_set_eq in Hget. injection Hget as <-. simpl.
      destruct (inv_ok _ Hinv _ _ Hkey) as (H1 & H2 & H3).
      split_and!; [done | done | by apply HN].
    + rewrite dict_get_set_ne in Hget by done. by apply (inv_ok _ Hinv k).
  - intros k d Hget. destruct (decide (key = k)) as [->|Hne].
    + rewrite dict_get_set_eq in Hget. injection Hget as <-. simpl.
      by apply (inv_quiet _ Hinv k).
    + rewrite dict_get_set_ne in Hget by done. by apply (inv_quiet _ Hinv k).
  - intros nm c Hev. rewrite dict_keys_set_old by done.
    apply elem_of_app in Hev as [Hev|Hev].
    + destruct (inv_started _ Hinv _ _ Hev) as [?|?]; [by left|].
      right. apply elem_of_app. by left.
    + rewrite Forall_forall in Hsend. by apply Hsend in Hev.
  - intros k d Hget. destruct (decide (key = k)) as [->|Hne].
    + rewrite dict_get_set_eq in Hget. injection Hget as <-. simpl.
      by apply HU, (inv_var_keys _ Hinv k).
    + rewrite dict_get_set_ne in Hget by done. by apply (inv_var_keys _ Hinv k).
Qed.

Lemma register_variables_mid s key ds dd :
  register_variables s key ds dd
  = register_variables (set_drivers s (dict_set key ds (_drivers s))) key ds dd.
Proof.
  unfold register_variables.
  destruct (DriverStructure.add_driver_variables ds (get_variables dd))
    as [[ds' delta] sent]. simpl. by rewrite dict_set_set.
Qed.

Lemma fresh_driver_name s :
  invariant s → driver_name_of (S (_driver_counter s)) ∉ dict_keys (_drivers s).
Proof.
  intros Hinv Hin. apply dict_get_is_Some in Hin as [d Hd].
  destruct (inv_names _ Hinv _ _ Hd) as (_ & n & Hn & Hle).
  apply driver_name_of_inj in Hn. lia.
Qed.

Lemma found_is_stored items dd key ds :
  NoDup (dict_keys items) →
  find_compatible_in items dd = Ok (Some (key, ds)) →
  dict_get key items = Some ds.
Proof.
  intros Hnd H. apply find_compatible_in_Some in H as (l1 & l2 & -> & _ & _).
  apply elem_dict_get; [done|]. apply elem_of_app. right. apply list_elem_of_here.
Qed.

Section ProvisioningInvariant.

Variable registered_drivers : list string.

Lemma setup_driver_invariant s res item s' res' :
  invariant s →
  setup_driver registered_drivers (s, res) item = Ok (s', res') →
  invariant s'.
Proof.
  intros Hinv. destruct item as [h dd]. unfold setup_driver, find_compatible_driver.
  destruct (find_compatible_in (_drivers s) dd) as [[[key ds]|]|e] eqn:Efind;
    simpl; [| |done].
  - intros [= <- <-].
    apply found_is_stored in Efind; [|apply Hinv].
    rewrite register_variables_mid. apply register_variables_invariant.
    + eapply invariant_carried; [exact Hinv | | done | done | done |].
      * simpl. eapply registry_rel_set; [| exact Efind |].
        -- intros x. split; [apply evolves_refl | done].
        -- split; [|done]. split; simpl; try done. by eexists.
      * exists []. simpl. by rewrite app_nil_r.
    + simpl. apply dict_get_set_eq.
  - unfold start_driver.
    destruct (decide (get_DRIVER dd ∈ registered_drivers)); [|by intros [= <- <-]].
    intros [= <- <-]. simpl.
    rewrite register_variables_mid. apply register_variables_invariant;
      [|simpl; apply dict_get_set_eq].
    pose proof (fresh_driver_name s Hinv) as Hfresh.
    set (nm := driver_name_of (S (_driver_counter s))) in *.
    assert (Hother : ∀ k d, dict_get k (_drivers s) = Some d → nm ≠ k).
    { intros k d Hd ->. apply Hfresh, dict_get_is_Some. eauto. }
    split; simpl.
    + apply dict_set_NoDup, Hinv.
    + intros k d Hget. destruct (decide (nm = k)) as [<-|Hne].
      * rewrite dict_get_set_eq in Hget. injection Hget as <-. simpl.
        split; [done|]. exists (S (_driver_counter s)). split; [done | lia].
      * rewrite dict_get_set_ne in Hget by done.
        destruct (inv_names _ Hinv _ _ Hget) as (Hn & n & Hk & Hle).
        split; [done|]. exists n. split; [done | lia].
    + intros Hrun h0 v dn Hget.
      destruct (inv_handles _ Hinv Hrun _ _ _ Hget) as (d & vs & Hd & Hv & Hh).
      exists d, vs. rewrite dict_get_set_ne; [done|]. by apply (Hother dn d).
    + intros dn d v vs h0 Hd Hv Hh. destruct (decide (nm = dn)) as [<-|Hne].
      * rewrite dict_get_set_eq in Hd. by injection Hd as <-.
      * rewrite dict_get_set_ne in Hd by done.
        by apply (inv_indexed _ Hinv dn d v vs h0).
    + intros k d Hget. destruct (decide (nm = k)) as [<-|Hne].
      * rewrite dict_get_set_eq in Hget. injection Hget as <-. simpl.
        split_and!; [done | lia | done].
      * rewrite dict_get_set_ne in Hget by done. by apply (inv_ok _ Hinv k).
    + intros k d Hget. destruct (decide (nm = k)) as [<-|Hne].
      * rewrite dict_get_set_eq in Hget. by injection Hget as <-.
      * rewrite dict_get_set_ne in Hget by done. by apply (inv_quiet _ Hinv k).
    + intros nm' c Hev. rewrite dict_keys_set.
      apply elem_of_app in Hev as [Hev|Hev].
      * destruct (inv_started _ Hinv _ _ Hev) as [?|?]; [auto|].
        right. apply elem_of_app. by left.
      * apply list_elem_of_singleton in Hev. injection Hev as -> _. auto.
    + intros k d Hget. destruct (decide (nm = k)) as [<-|Hne].
      * rewrite dict_get_set_eq in Hget. injection Hget as <-. apply NoDup_nil_2.
      * rewrite dict_get_set_ne in Hget by done.
        by apply (inv_var_keys _ Hinv k).
Qed.

Lemma setup_loop_invariant items s res s' res' :
  invariant s →
  setup_loop registered_drivers items (s, res) = Ok (s', res') →
  invariant s'.
Proof.
  revert s res. induction items as [|item items IH]; intros s res Hinv;
    cbn [setup_loop].
  - by intros [= <- <-].
  - destruct (setup_driver registered_drivers (s, res) item) as [[s1 res1]|e] eqn:E;
      cbn [result_bind]; [|done].
    apply IH. by eapply setup_driver_invariant.
Qed.

End ProvisioningInvariant.

(** ** Shutdown *)

(** With one round per registry entry the [while self._drivers] loop
    reaches the empty registry, joining the workers from the most recent
    to the oldest. *)
Lemma join_workers_spec items s :
  _drivers s = items →
  join_workers (length items) s
  = add_events (set_drivers s []) (join_events items).
Proof.
  revert s. induction items as [|kv items IH] using rev_ind; intros s Hs.
  - simpl. unfold add_events, set_drivers, join_events. simpl.
    rewrite app_nil_r. destruct s. simpl in *. by subst.
  - rewrite length_app. simpl. replace (length items + 1) with (S (length items)) by lia.
    simpl. rewrite Hs, dict_popitem_snoc. destruct kv as [driver_name driver_struct].
    rewrite IH by done. unfold join_events. rewrite reverse_app. simpl.
    unfold add_events, set_drivers. simpl. f_equal. by rewrite <- app_assoc.
Qed.

Lemma clean_drivers_spec s :
  clean_drivers s
  = add_events (set_drivers s [])
      (exit_events (_drivers s) ++ join_events (_drivers s)).
Proof.
  unfold clean_drivers. rewrite join_workers_spec by done.
  unfold add_events, set_drivers. simpl. f_equal. by rewrite <- app_assoc.
Qed.

Lemma elem_of_join_events items key d :
  (key, d) ∈ items → EvJoin (DriverStructure.name d) ∈ join_events items.
Proof.
  intros Hin. unfold join_events. apply list_elem_of_fmap.
  exists (key, d). split; [done|]. by apply elem_of_reverse.
Qed.

Lemma elem_of_exit_events items key d :
  (key, d) ∈ items → EvSend (DriverStructure.name d) EXIT ∈ exit_events items.
Proof.
  intros Hin. unfold exit_events. apply list_elem_of_fmap. by exists (key, d).
Qed.

Lemma clean_invariant s :
  invariant s → invariant (set_running (clean_drivers s) false).
Proof.
  intros Hinv. rewrite clean_drivers_spec. split; simpl; try done.
  - apply NoDup_nil_2.
  - intros nm c Hev. right. apply elem_of_app in Hev as [Hev|Hev].
    + destruct (inv_started _ Hinv _ _ Hev) as [Hk|Hj].
      * apply dict_get_is_Some in Hk as [d Hd].
        destruct (inv_names _ Hinv _ _ Hd) as [Hn _].
        apply elem_of_app. right. apply elem_of_app. right.
        rewrite <- Hn. apply elem_of_join_events with nm.
        by apply dict_get_Some_elem.
      * apply elem_of_app. by left.
    + apply elem_of_app in Hev as [Hev|Hev].
      * unfold exit_events in Hev. apply list_elem_of_fmap in Hev as (? & ? & _). done.
      * unfold join_events in Hev. apply list_elem_of_fmap in Hev as (? & ? & _). done.
Qed.

(** ** Reachable states *)

Section Reachable.

Variable registered_drivers : list string.

Lemma init_invariant use_processes path clock :
  invariant (init use_processes path clock).
Proof.
  split; simpl; try done.
  - apply NoDup_nil_2.
  - intros nm c H. by apply elem_of_nil in H.
Qed.

Lemma run_once_invariant s clock max :
  invariant s → invariant (run_once s clock max).1.
Proof.
  intros Hinv. unfold run_once.
  destruct (run_drivers_steady max (_drivers s) s) as (H1 & H2 & H3).
  destruct (run_drivers max (_drivers s) s) as [items s1]. simpl in H1, H2, H3.
  assert (Hcore : ∀ x, core x = core s → _handles x = _handles s
             ∧ _driver_counter x = _driver_counter s ∧ _running x = _running s
             ∧ trace x = trace s).
  { unfold core. intros x [=]. done. }
  destruct (Hcore _ H2) as (E1 & E2 & E3 & E4).
  eapply invariant_carried; [exact Hinv | | | | |].
  - case_decide; simpl; eapply registry_rel_impl; try exact H1; apply steady_settles.
  - by case_decide.
  - by case_decide.
  - by case_decide.
  - exists []. rewrite app_nil_r. by case_decide.
Qed.

Lemma registry_rel_settles_refl l : registry_rel settles l l.
Proof. apply registry_rel_refl. intros d. split; [apply evolves_refl | done]. Qed.

Lemma get_updates_invariant s : invariant s → invariant (get_updates s).1.
Proof.
  intros Hinv. eapply invariant_carried; [exact Hinv | | done | done | done |].
  - apply registry_rel_settles_refl.
  - exists []. simpl. by rewrite app_nil_r.
Qed.

Lemma worker_send_invariant s key m : invariant s → invariant (worker_send s key m).
Proof.
  intros Hinv. unfold worker_send.
  destruct (dict_get key (_drivers s)) as [d|] eqn:E; [|done].
  eapply invariant_carried; [exact Hinv | | done | done | done |].
  - simpl. eapply registry_rel_set; [| exact E |].
    + intros x. split; [apply evolves_refl | done].
    + split; [apply set_pipe_evolves | done].
  - exists []. simpl. by rewrite app_nil_r.
Qed.

Lemma invariant_resolvable s : invariant s → _running s = true → resolvable s.
Proof.
  intros Hinv Hrun h v dn Hget.
  destruct (inv_handles _ Hinv Hrun _ _ _ Hget) as (d & vs & ? & ? & _). eauto.
Qed.

Lemma flush_settles items items' :
  registry_rel written items items' →
  registry_rel settles items (dict_map clear_updates items').
Proof.
  induction 1 as [|[k d] [k' d'] l l' [Hk Hw] H IH]; simpl; constructor; [|done].
  simpl in *. split; [done|]. split; [|done].
  apply evolves_trans with d'; [by apply written_evolves | by split].
Qed.

Lemma pending_sends_are_sends items : Forall is_send (pending_sends items).
Proof.
  apply Forall_forall. intros e He.
  apply elem_of_pending_sends in He as (k & d & _ & _ & ->). done.
Qed.

Lemma flush_spec s :
  flush s = add_events (set_drivers s (dict_map clear_updates (_drivers s)))
              (pending_sends (_drivers s)).
Proof. unfold flush. by rewrite flush_updates_spec. Qed.

Lemma send_command_invariant s frame s' r :
  invariant s → send_command registered_drivers s frame = Ok (s', r) →
  invariant s'.
Proof.
  intros Hinv. destruct frame as [data| |data|c]; simpl.
  - unfold setup_drivers.
    destruct (setup_loop registered_drivers data (s, [])) as [[s1 res]|e] eqn:E;
      simpl; [|done].
    intros [= <- <-]. by eapply setup_loop_invariant.
  - intros [= <- <-]. by apply clean_invariant.
  - destruct (host_updates data s) as [s1|e] eqn:E; simpl; [|done].
    intros [= <- <-]. apply host_updates_written in E as [E1 E2].
    rewrite flush_spec.
    eapply invariant_carried; [exact Hinv | | | | |]; simpl.
    + by apply flush_settles.
    + by apply rest_handles.
    + by apply rest_counter.
    + by apply rest_running.
    + exists (pending_sends (_drivers s1)). rewrite (rest_trace _ _ E2).
      split; [done | apply pending_sends_are_sends].
  - destruct c; try (by intros [= <- <-]); try done.
    intros [= <- <-]. by apply clean_invariant.
Qed.

(** The invariant holds in every reachable state. *)
Lemma reachable_invariant s : reachable registered_drivers s → invariant s.
Proof.
  induction 1 as [up path clock|s frame s' r _ IH Hcmd|s clock max _ IH
                  |s _ IH|s key m _ IH].
  - apply init_invariant.
  - by eapply send_command_invariant.
  - by apply run_once_invariant.
  - by apply get_updates_invariant.
  - by apply worker_send_invariant.
Qed.

End Reachable.

(** ** The three outcomes of one provisioning round *)

Lemma register_variables_drivers s key ds dd :
  ∃ vs, _drivers (register_variables s key ds dd)
        = dict_set key (DriverStructure.set_variables ds vs) (_drivers s).
Proof.
  destruct (add_driver_variables_spec ds (get_variables dd))
    as (vs & res & sent & Heq & _).
  unfold register_variables. rewrite Heq. by exists vs.
Qed.

Section Outcomes.

Variable registered_drivers : list string.

Lemma setup_driver_outcome s res h dd s' res' :
  invariant s →
  setup_driver registered_drivers (s, res) (h, dd) = Ok (s', res') →
  (∃ key ds vs,
      find_compatible_in (_drivers s) dd = Ok (Some (key, ds))
      ∧ dict_get key (_drivers s) = Some ds
      ∧ _drivers s'
        = dict_set key
            (DriverStructure.set_variables (DriverStructure.add_handle ds h) vs)
            (_drivers s)
      ∧ res' = dict_set h "SUCCESS" res)
  ∨ (∃ vs,
      find_compatible_in (_drivers s) dd = Ok None
      ∧ get_DRIVER dd ∈ registered_drivers
      ∧ _drivers s'
        = _drivers s
          ++ [(driver_name_of (S (_driver_counter s)),
               DriverStructure.set_variables
                 (DriverStructure.init (get_DRIVER dd)
                    (driver_name_of (S (_driver_counter s))) h (get_parameters dd))
                 vs)]
      ∧ res' = dict_set h "SUCCESS" res)
  ∨ (find_compatible_in (_drivers s) dd = Ok None
     ∧ (get_DRIVER dd ∉ registered_drivers)
     ∧ s' = s ∧ res' = dict_set h "FAILED" res).
Proof.
  intros Hinv. unfold setup_driver, find_compatible_driver.
  destruct (find_compatible_in (_drivers s) dd) as [[[key ds]|]|e] eqn:Efind;
    cbn [result_bind]; [| |done].
  - intros [= <- <-]. left.
    destruct (register_variables_drivers
                (set_status_updates s
                   (dict_update (_status_updates s)
                      [(h, DriverStructure.status (DriverStructure.add_handle ds h))]))
                key (DriverStructure.add_handle ds h) dd) as [vs Hvs].
    exists key, ds, vs. split_and!; try done.
    apply found_is_stored in Efind; [done | apply Hinv].
  - unfold start_driver.
    destruct (decide (get_DRIVER dd ∈ registered_drivers)) as [Hreg|Hreg].
    + intros [= <- <-]. right. left.
      match goal with
      | |- context [register_variables ?a ?b ?c ?d] =>
          destruct (register_variables_drivers a b c d) as [vs Hvs]
      end.
      exists vs. split_and!; try done. rewrite Hvs. simpl.
      apply dict_set_new, fresh_driver_name, Hinv.
    + intros [= <- <-]. right. right. done.
Qed.

Lemma setup_driver_keeps_class s res item s' res' key d :
  invariant s →
  setup_driver registered_drivers (s, res) item = Ok (s', res') →
  dict_get key (_drivers s) = Some d →
  ∃ d', dict_get key (_drivers s') = Some d'
        ∧ DriverStructure.class_name d' = DriverStructure.class_name d.
Proof.
  intros Hinv Hstep Hd. destruct item as [h dd].
  apply setup_driver_outcome in Hstep
    as [(k0 & ds & vs & _ & Hk0 & -> & _)|[(vs & _ & _ & -> & _)|(_ & _ & -> & _)]];
    [| | |done].
  - destruct (decide (k0 = key)) as [->|Hne].
    + rewrite dict_get_set_eq. eexists. split; [done|]. simpl. congruence.
    + rewrite dict_get_set_ne by done. eauto.
  - rewrite <- dict_set_new by (apply fresh_driver_name, Hinv).
    rewrite dict_get_set_ne; [eauto|]. intros Heq.
    apply (fresh_driver_name s Hinv). rewrite Heq. apply dict_get_is_Some. eauto.
  - eauto.
Qed.

(** A request without parameters stops the whole command as soon as a
    live driver has its class. *)
Lemma setup_loop_no_parameters items s res h dd key d :
  invariant s →
  (h, dd) ∈ items →
  get_parameters dd = None →
  dict_get key (_drivers s) = Some d →
  DriverStructure.class_name d = get_DRIVER dd →
  ∃ e, setup_loop registered_drivers items (s, res) = Raise e.
Proof.
  revert s res d. induction items as [|item items IH]; intros s res d Hinv Hin Hp Hd Hc.
  - by apply elem_of_nil in Hin.
  - cbn [setup_loop].
    destruct (setup_driver registered_drivers (s, res) item) as [[s1 res1]|e] eqn:E;
      cbn [result_bind]; [|eauto].
    apply elem_of_cons in Hin as [<-|Hin].
    + exfalso. unfold setup_driver, find_compatible_driver in E.
      rewrite (find_compatible_in_no_parameters _ dd key d) in E; try done.
      by apply dict_get_Some_elem.
    + destruct (setup_driver_keeps_class _ _ _ _ _ _ _ Hinv E Hd) as (d' & Hd' & Hc').
      apply (IH s1 res1 d'); try done; [|congruence].
      by eapply setup_driver_invariant.
Qed.

End Outcomes.

(** ** Scenarios of the specification, as runs of the model *)

Lemma fresh_manager_reachable : reachable registered_drivers_base fresh_manager.
Proof. apply reach_init. Qed.

Lemma after_reachable s frame :
  reachable registered_drivers_base s →
  reachable registered_drivers_base (after s frame).
Proof.
  intros H. unfold after.
  destruct (send_command registered_drivers_base s frame) as [[s' r]|e] eqn:E.
  - by eapply reach_command.
  - apply fresh_manager_reachable.
Qed.

Lemma after_S1_reachable : reachable registered_drivers_base after_S1.
Proof. apply after_reachable, fresh_manager_reachable. Qed.

Lemma running_S1_reachable : reachable registered_drivers_base running_S1.
Proof. apply reach_run_once, reach_worker_send, after_S1_reachable. Qed.

Lemma shared_S1_reachable : reachable registered_drivers_base shared_S1.
Proof. apply after_reachable, running_S1_reachable. Qed.

Lemma before_S3_again_reachable : reachable registered_drivers_base before_S3_again.
Proof.
  do 3 apply reach_worker_send.
  apply reach_get_updates, reach_run_once, reach_worker_send, after_S1_reachable.
Qed.

Lemma before_S3_reachable : reachable registered_drivers_base before_S3.
Proof. do 3 apply reach_worker_send. apply after_S1_reachable. Qed.

(** * The claims *)

(** ** C1: shutdown *)

(** C1, counterexample.  After scenario S1, [CLEAN] replies ["SUCCESS"]
    and empties the driver registry, but the handle index still maps
    ["vh1"] to the variable of the driver that is gone: [clean_drivers]
    never touches [_handles]. *)
Lemma clean_keeps_handle_index :
  reachable registered_drivers_base after_S1
  ∧ send_command registered_drivers_base after_S1 FrameClean
    = Ok (after_clean, Some (OutString "SUCCESS"))
  ∧ _drivers after_clean = []
  ∧ _handles after_clean = [("vh1", ("x", "DRIVER_1"))]
  ∧ _handles after_clean ≠ [].
Proof.
  split; [apply after_S1_reachable|]. split_and!; by vm_compute.
Qed.

(** C1, amended.  In every reachable state [CLEAN] returns with the
    reply ["SUCCESS"]; it has then sent [EXIT] on the channel of every
    live driver (in registry order), after that joined the worker of
    every live driver (most recent first), so that every worker ever
    started has been joined; the registry is empty and the manager no
    longer running.  The handle index is left as it was. *)
Theorem clean_shutdown registered_drivers s :
  reachable registered_drivers s →
  ∃ s',
    send_command registered_drivers s FrameClean
    = Ok (s', Some (OutString "SUCCESS"))
    ∧ trace s' = trace s ++ exit_events (_drivers s) ++ join_events (_drivers s)
    ∧ (∀ key d, (key, d) ∈ _drivers s →
         EvSend (DriverStructure.name d) EXIT ∈ trace s'
         ∧ EvJoin (DriverStructure.name d) ∈ trace s')
    ∧ (∀ nm c, EvStart nm c ∈ trace s' → EvJoin nm ∈ trace s')
    ∧ _drivers s' = []
    ∧ _running s' = false
    ∧ _handles s' = _handles s.
Proof.
  intros Hreach. eexists. split; [reflexivity|].
  pose proof (clean_invariant s (reachable_invariant _ _ Hreach)) as Hinv.
  assert (Htr : trace (set_running (clean_drivers s) false)
                = trace s ++ exit_events (_drivers s) ++ join_events (_drivers s)).
  { by rewrite clean_drivers_spec. }
  split_and!.
  - exact Htr.
  - intros key d Hin. rewrite Htr. split.
    + apply elem_of_app. right. apply elem_of_app. left.
      by apply elem_of_exit_events with key.
    + apply elem_of_app. right. apply elem_of_app. right.
      by apply elem_of_join_events with key.
  - intros nm c Hev. destruct (inv_started _ Hinv _ _ Hev) as [Hk|Hj]; [|done].
    rewrite clean_drivers_spec in Hk. simpl in Hk. by apply elem_of_nil in Hk.
  - by rewrite clean_drivers_spec.
  - done.
  - by rewrite clean_drivers_spec.
Qed.

Lemma clean_shutdown_witness :
  ∃ s',
    send_command registered_drivers_base after_S1 FrameClean
    = Ok (s', Some (OutString "SUCCESS"))
    ∧ trace s' = trace after_S1 ++ exit_events (_drivers after_S1)
                 ++ join_events (_drivers after_S1)
    ∧ (∀ key d, (key, d) ∈ _drivers after_S1 →
         EvSend (DriverStructure.name d) EXIT ∈ trace s'
         ∧ EvJoin (DriverStructure.name d) ∈ trace s')
    ∧ (∀ nm c, EvStart nm c ∈ trace s' → EvJoin nm ∈ trace s')
    ∧ _drivers s' = []
    ∧ _running s' = false
    ∧ _handles s' = _handles after_S1.
Proof. apply (clean_shutdown registered_drivers_base after_S1), after_S1_reachable. Defined.

(** ** C2: the handle index *)

(** C2, counterexample.  A request whose variables ["x"] and ["y"] carry
    the same handle leaves the handle on both variables while the index
    holds the last one only; and after [CLEAN] the index still has
    entries for drivers that are gone. *)
Lemma handle_index_not_exact :
  reachable registered_drivers_base after_shared
  ∧ ¬ handle_index_exact after_shared
  ∧ reachable registered_drivers_base after_clean
  ∧ ¬ handle_index_exact after_clean.
Proof.
  split_and!.
  - apply after_reachable, fresh_manager_reachable.
  - intros H. specialize (H "vh" "x" "DRIVER_1").
    assert (Hl : dict_get "vh" (_handles after_shared) = Some ("x", "DRIVER_1")).
    { apply H. vm_compute. eexists _, _. split_and!; try reflexivity.
      apply list_elem_of_here. }
    vm_compute in Hl. discriminate.
  - apply after_reachable, after_S1_reachable.
  - intros H. specialize (H "vh1" "x" "DRIVER_1").
    assert (Hr : ∃ d vs, dict_get "DRIVER_1" (_drivers after_clean) = Some d
                 ∧ dict_get "x" (DriverStructure.variables d) = Some vs
                 ∧ "vh1" ∈ VariableStructure.handlers vs).
    { apply H. by vm_compute. }
    destruct Hr as (d & vs & Hd & _). vm_compute in Hd. discriminate.
Qed.

(** C2, amended.  In every reachable state: while the manager is
    running, an index entry [h ↦ (v, d)] leads to a live driver [d]
    with a variable [v] whose handlers contain [h]; and every handle on
    the handlers list of a variable of a live driver is a key of the
    index (pointing to the variable that registered it last). *)
Theorem handle_index_linked registered_drivers s :
  reachable registered_drivers s →
  (_running s = true →
   ∀ h v dn, dict_get h (_handles s) = Some (v, dn) →
     ∃ d vs, dict_get dn (_drivers s) = Some d
             ∧ dict_get v (DriverStructure.variables d) = Some vs
             ∧ h ∈ VariableStructure.handlers vs)
  ∧ (∀ dn d v vs h,
       dict_get dn (_drivers s) = Some d →
       dict_get v (DriverStructure.variables d) = Some vs →
       h ∈ VariableStructure.handlers vs →
       ∃ v' dn', dict_get h (_handles s) = Some (v', dn')).
Proof.
  intros Hreach. pose proof (reachable_invariant _ _ Hreach) as Hinv. split.
  - apply Hinv.
  - intros dn d v vs h Hd Hv Hh.
    pose proof (inv_indexed _ Hinv dn d v vs h Hd Hv Hh) as Hk.
    apply dict_get_is_Some in Hk as [[v' dn'] Hget]. eauto.
Qed.

Lemma handle_index_linked_witness :
  (_running after_S1 = true →
   ∀ h v dn, dict_get h (_handles after_S1) = Some (v, dn) →
     ∃ d vs, dict_get dn (_drivers after_S1) = Some d
             ∧ dict_get v (DriverStructure.variables d) = Some vs
             ∧ h ∈ VariableStructure.handlers vs)
  ∧ (∀ dn d v vs h,
       dict_get dn (_drivers after_S1) = Some d →
       dict_get v (DriverStructure.variables d) = Some vs →
       h ∈ VariableStructure.handlers vs →
       ∃ v' dn', dict_get h (_handles after_S1) = Some (v', dn')).
Proof.
  apply (handle_index_linked registered_drivers_base after_S1), after_S1_reachable.
Defined.

(** ** C3: handlers and info log *)

(** C3, counterexample.  Scenario S2 itself (the request of S1 sent
    again under the handle ["h2"]) puts ["vh1"] twice on the handlers of
    variable ["x"]; sent again under ["h1"], it puts ["h1"] twice on the
    handlers of the driver: [add_handle] appends without looking. *)
Lemma handlers_repeat :
  reachable registered_drivers_base after_S2
  ∧ (∃ d vs, dict_get "DRIVER_1" (_drivers after_S2) = Some d
             ∧ dict_get "x" (DriverStructure.variables d) = Some vs
             ∧ VariableStructure.handlers vs = ["vh1"; "vh1"]
             ∧ ¬ NoDup (VariableStructure.handlers vs))
  ∧ reachable registered_drivers_base after_resend
  ∧ (∃ d, dict_get "DRIVER_1" (_drivers after_resend) = Some d
          ∧ DriverStructure.handlers d = ["h1"; "h1"]
          ∧ ¬ NoDup (DriverStructure.handlers d)).
Proof.
  assert (Hdup : ∀ x : string, ¬ NoDup [x; x]).
  { intros x H. apply NoDup_cons in H as [H _]. apply H, list_elem_of_here. }
  split_and!.
  - apply after_reachable, after_S1_reachable.
  - vm_compute. eexists _, _. split_and!; try reflexivity. apply Hdup.
  - apply after_reachable, after_S1_reachable.
  - vm_compute. eexists. split_and!; try reflexivity. apply Hdup.
Qed.

(** C3, amended.  In every reachable state every driver record has a
    non-empty handlers list and an info log of at most 5 lines, and
    every variable record has a non-empty handlers list. *)
Theorem handlers_nonempty_log_bounded registered_drivers s :
  reachable registered_drivers s →
  ∀ key d, (key, d) ∈ _drivers s →
    DriverStructure.handlers d ≠ []
    ∧ length (DriverStructure.info_log d) ≤ 5
    ∧ ∀ v vs, (v, vs) ∈ DriverStructure.variables d →
        VariableStructure.handlers vs ≠ [].
Proof.
  intros Hreach key d Hin. pose proof (reachable_invariant _ _ Hreach) as Hinv.
  apply elem_dict_get in Hin; [|apply Hinv].
  destruct (inv_ok _ Hinv _ _ Hin) as (H1 & H2 & H3). split_and!; [done | done |].
  intros v vs Hv. apply (H3 v). apply elem_dict_get; [|done].
  by apply (inv_var_keys _ Hinv key).
Qed.

Lemma handlers_nonempty_log_bounded_witness :
  ("DRIVER_1", driver_S2) ∈ _drivers after_S2
  ∧ DriverStructure.handlers driver_S2 ≠ []
  ∧ length (DriverStructure.info_log driver_S2) ≤ 5
  ∧ ∀ v vs, (v, vs) ∈ DriverStructure.variables driver_S2 →
      VariableStructure.handlers vs ≠ [].
Proof.
  assert (Hin : ("DRIVER_1", driver_S2) ∈ _drivers after_S2).
  { apply dict_get_Some_elem. reflexivity. }
  split; [exact Hin|].
  apply (handlers_nonempty_log_bounded registered_drivers_base after_S2
           (after_reachable _ _ after_S1_reachable) "DRIVER_1" driver_S2 Hin).
Defined.

(** ** C10: a request without parameters *)

(** C10.  When a request of a [SETUP_DRIVERS] payload has no parameters
    and some live driver has the class of the request, the compatibility
    check on that driver raises (the call [parameters.items()] on
    [None]) and the whole command raises instead of replying, with that
    very exception when the request is the only one.  Such a state is
    reached through the interface alone, for any registered class:
    sending that request twice to a new manager raises the second
    time. *)
Theorem setup_without_parameters_raises registered_drivers :
  (∀ s data h dd key d,
     reachable registered_drivers s →
     (h, dd) ∈ data →
     get_parameters dd = None →
     dict_get key (_drivers s) = Some d →
     DriverStructure.class_name d = get_DRIVER dd →
     DriverStructure.is_compatible d dd = Raise AttributeError
     ∧ (∃ e, send_command registered_drivers s (FrameSetupDrivers data) = Raise e)
     ∧ send_command registered_drivers s (FrameSetupDrivers [(h, dd)])
       = Raise AttributeError)
  ∧ (∀ dd h1 h2 use_processes path clock,
       get_DRIVER dd ∈ registered_drivers →
       get_parameters dd = None →
       ∃ s r,
         send_command registered_drivers (init use_processes path clock)
           (FrameSetupDrivers [(h1, dd)]) = Ok (s, r)
         ∧ reachable registered_drivers s
         ∧ send_command registered_drivers s (FrameSetupDrivers [(h2, dd)])
           = Raise AttributeError).
Proof.
  assert (Hmain : ∀ s h dd key d,
    get_parameters dd = None →
    dict_get key (_drivers s) = Some d →
    DriverStructure.class_name d = get_DRIVER dd →
    send_command registered_drivers s (FrameSetupDrivers [(h, dd)])
    = Raise AttributeError).
  { intros s h dd key d Hp Hd Hc. simpl.
    unfold setup_drivers, setup_loop, setup_driver, find_compatible_driver.
    rewrite (find_compatible_in_no_parameters _ dd key d); try done.
    by apply dict_get_Some_elem. }
  split.
  - intros s data h dd key d Hreach Hin Hp Hd Hc. split_and!.
    + by apply is_compatible_no_parameters.
    + destruct (setup_loop_no_parameters registered_drivers data s [] h dd key d)
        as [e He]; try done.
      { by apply reachable_invariant with registered_drivers. }
      exists e.
      exact (f_equal (fun m => do r <- m; Ok (r.1, Some (OutResults r.2))) He).
    + by apply (Hmain s h dd key d).
  - intros dd h1 h2 up path clock Hreg Hp.
    destruct (send_command registered_drivers (init up path clock)
                (FrameSetupDrivers [(h1, dd)])) as [[s r]|e] eqn:E.
    + exists s, r. split; [done|].
      assert (Hreach : reachable registered_drivers s).
      { eapply reach_command; [apply reach_init | exact E]. }
      split; [done|]. revert E. simpl.
      unfold setup_drivers, setup_loop.
      destruct (setup_driver registered_drivers (init up path clock, []) (h1, dd))
        as [[s1 res1]|e1] eqn:E1; cbn [result_bind]; [|done].
      intros [= <- <-].
      apply setup_driver_outcome in E1
        as [(k0 & ds & vs & Hf & _)|[(vs & _ & _ & Hdrv & _)|(_ & Hn & _)]];
        [done | | done | apply init_invariant].
      simpl in Hdrv.
      apply (Hmain s1 h2 dd (driver_name_of 1)
               (DriverStructure.set_variables
                  (DriverStructure.init (get_DRIVER dd) (driver_name_of 1) h1
                     (get_parameters dd)) vs)); [done | | done].
      rewrite Hdrv. reflexivity.
    + exfalso. revert E. simpl. unfold setup_drivers, setup_loop, setup_driver.
      simpl. unfold start_driver. by rewrite decide_True.
Qed.

Lemma setup_without_parameters_raises_witness :
  DriverStructure.is_compatible driver_S1 spec_no_parameters = Raise AttributeError
  ∧ (∃ e, send_command registered_drivers_base after_S1
            (FrameSetupDrivers [("h2", spec_no_parameters)]) = Raise e)
  ∧ send_command registered_drivers_base after_S1
      (FrameSetupDrivers [("h2", spec_no_parameters)]) = Raise AttributeError.
Proof.
  apply (proj1 (setup_without_parameters_raises registered_drivers_base)
           after_S1 [("h2", spec_no_parameters)] "h2" spec_no_parameters
           "DRIVER_1" driver_S1).
  - apply after_S1_reachable.
  - apply list_elem_of_here.
  - reflexivity.
  - reflexivity.
  - reflexivity.
Defined.

(** ** C4: sending a request again *)




Section Reuse.

Variable registered_drivers : list string.


End Reuse.




(** A request with a NaN among its parameters, sent twice: the driver
    started for the first does not agree with the second, which gets a
    driver of its own. *)
Example resend_nan_starts_second_driver :
  py_ne (PyFloat PrimFloat.nan) (PyFloat PrimFloat.nan) = true
  ∧ dict_keys (_drivers (after fresh_manager (FrameSetupDrivers [("h1", spec_nan)])))
    = ["DRIVER_1"]
  ∧ dict_keys
      (_drivers
         (after (after fresh_manager (FrameSetupDrivers [("h1", spec_nan)]))
            (FrameSetupDrivers [("h2", spec_nan)])))
    = ["DRIVER_1"; "DRIVER_2"].
Proof. split_and!; vm_compute; reflexivity. Qed.

(** ** C5: the compatibility resolver *)

(** C5, at the failing input.  The live driver of scenario S1 has the
    class of the request and the request, having no parameters, shares
    no key with it: by the claim it is compatible.  The check does not
    say so: it raises, and so does the search.  (With parameters on both
    sides the check is [is_compatible_spec] and the search is
    [find_compatible_in_Some], first match wins.) *)
Theorem compatibility_check_raises_without_parameters :
  DriverStructure.class_name driver_S1 = get_DRIVER spec_no_parameters
  ∧ get_parameters spec_no_parameters = None
  ∧ dict_get "DRIVER_1" (_drivers after_S1) = Some driver_S1
  ∧ DriverStructure.is_compatible driver_S1 spec_no_parameters = Raise AttributeError
  ∧ find_compatible_driver after_S1 spec_no_parameters = Raise AttributeError.
Proof. split_and!; by vm_compute. Qed.

(** ** C6 and C7: host writes *)

Lemma pending_sends_other nm items :
  nm ∉ driver_names items → filter (sent_to nm) (pending_sends items) = [].
Proof.
  induction items as [|[k d] items IH]; [done|].
  unfold driver_names. simpl. rewrite not_elem_of_cons. intros [Hne Hn].
  unfold pending_sends. simpl. rewrite filter_app.
  fold (pending_sends items). rewrite IH by done. rewrite app_nil_r.
  destruct (DriverStructure.updates d); [done|].
  rewrite filter_cons_False; [done|]. simpl. congruence.
Qed.

(** Among the messages of a flush, a driver finds exactly its own
    batch, if it had one. *)
Lemma pending_sends_filter items key d :
  NoDup (driver_names items) → (key, d) ∈ items →
  filter (sent_to (DriverStructure.name d)) (pending_sends items)
  = match DriverStructure.updates d with
    | [] => []
    | _ :: _ => [EvSend (DriverStructure.name d) (UPDATE (DriverStructure.updates d))]
    end.
Proof.
  induction items as [|[k0 d0] items IH]; intros Hnd Hin.
  - by apply elem_of_nil in Hin.
  - unfold driver_names in Hnd. simpl in Hnd. apply NoDup_cons in Hnd as [Hnotin Hnd].
    unfold pending_sends. simpl. rewrite filter_app. fold (pending_sends items).
    apply elem_of_cons in Hin as [[= <- <-]|Hin].
    + rewrite (pending_sends_other _ items Hnotin), app_nil_r.
      destruct (DriverStructure.updates d); [done|].
      by rewrite filter_cons_True.
    + rewrite (IH Hnd Hin).
      assert (Hne : DriverStructure.name d0 ≠ DriverStructure.name d).
      { intros Heq. apply Hnotin. rewrite Heq.
        unfold driver_names. apply list_elem_of_fmap. by exists (key, d). }
      destruct (DriverStructure.updates d0); [done|].
      rewrite filter_cons_False; [done|]. simpl. congruence.
Qed.

Lemma invariant_names s :
  invariant s → Forall (fun kv => DriverStructure.name kv.2 = kv.1) (_drivers s).
Proof.
  intros Hinv. apply Forall_forall. intros [k d] Hin. simpl.
  apply elem_dict_get in Hin; [|apply Hinv]. by apply (inv_names _ Hinv).
Qed.

Lemma registry_rel_names l l' :
  Forall (fun kv => DriverStructure.name kv.2 = kv.1) l →
  registry_rel evolves l l' →
  driver_names l' = dict_keys l.
Proof.
  intros Hn Hrel. induction Hrel as [|[k d] [k' d'] l l' [Hk Hev] H IH]; [done|].
  apply Forall_cons in Hn as [Hd Hn]. cbn [fst snd] in *.
  unfold driver_names. cbn [map snd]. rewrite dict_keys_cons.
  rewrite (ev_name _ _ Hev), Hd. f_equal. by apply IH.
Qed.

(** One host write on a variable of a [RUNNING] driver. *)
Lemma host_update_entry s h val v dn d vs :
  dict_get h (_handles s) = Some (v, dn) → dn ≠ "" →
  dict_get dn (_drivers s) = Some d →
  DriverStructure.status d = Status RUNNING →
  dict_get v (DriverStructure.variables d) = Some vs →
  host_update s (h, val)
  = Ok (if py_ne (VariableStructure.value vs) val then
          set_drivers s
            (dict_set dn
               (DriverStructure.set_variables
                  (DriverStructure.set_updates d
                     (dict_set v val (DriverStructure.updates d)))
                  (dict_set v (VariableStructure.host_write vs val)
                     (DriverStructure.variables d)))
               (_drivers s))
        else s).
Proof.
  intros Hh Hdn Hd Hrun Hv. unfold host_update.
  rewrite Hh, decide_False, Hd, decide_True, Hv by done.
  by destruct (py_ne (VariableStructure.value vs) val).
Qed.

(** A host write aimed at a driver that is not [RUNNING] changes
    nothing, in any state. *)
Lemma host_update_dropped s h val v dn d :
  dict_get h (_handles s) = Some (v, dn) →
  dict_get dn (_drivers s) = Some d →
  DriverStructure.status d ≠ Status RUNNING →
  host_update s (h, val) = Ok s.
Proof.
  intros Hh Hd Hrun. unfold host_update. rewrite Hh.
  destruct (decide (dn = "")); [done|]. rewrite Hd. by rewrite decide_False.
Qed.

(** The whole [UPDATES] command in a reachable state of a running
    manager: the writes are applied one after the other, then every
    batch is flushed. *)
Lemma updates_command registered_drivers s data :
  reachable registered_drivers s → _running s = true →
  ∃ s1,
    host_updates data s = Ok s1
    ∧ send_command registered_drivers s (FrameUpdates data) = Ok (flush s1, None)
    ∧ registry_rel written (_drivers s) (_drivers s1)
    ∧ rest s1 = rest s
    ∧ NoDup (dict_keys (_drivers s1))
    ∧ driver_names (_drivers s1) = dict_keys (_drivers s1).
Proof.
  intros Hreach Hrun. pose proof (reachable_invariant _ _ Hreach) as Hinv.
  destruct (host_updates_total data s (invariant_resolvable s Hinv Hrun)) as [s1 E].
  exists s1. split; [done|].
  pose proof (host_updates_written _ _ _ E) as [Hrel Hrest].
  assert (Hev : registry_rel evolves (_drivers s) (_drivers s1)).
  { eapply registry_rel_impl; [apply written_evolves | exact Hrel]. }
  split_and!; try done.
  - cbn [send_command]. by rewrite E.
  - rewrite (registry_rel_keys _ _ _ Hrel). apply Hinv.
  - rewrite (registry_rel_names _ _ (invariant_names s Hinv) Hev).
    symmetry. by apply registry_rel_keys with written.
Qed.

(** *** The effect of a whole batch *)

Lemma changes_zero_settle cur w : changes cur w = 0 → settle cur w = cur.
Proof.
  revert cur. induction w as [|v w IH]; intros cur; [done|].
  unfold settle. cbn [changes foldl]. destruct (py_ne cur v); [done|]. apply IH.
Qed.

Lemma settle_app cur a b : settle cur (a ++ b) = settle (settle cur a) b.
Proof. unfold settle. apply foldl_app. Qed.

Lemma changes_app cur a b :
  changes cur (a ++ b) = changes cur a + changes (settle cur a) b.
Proof.
  revert cur. induction a as [|v a IH]; intros cur; [done|].
  unfold settle. cbn [app changes foldl]. fold (settle (if py_ne cur v then v else cur) a).
  destruct (py_ne cur v); rewrite IH; done.
Qed.

Lemma writes_to_app handles a b x dn :
  writes_to handles (a ++ b) x dn = writes_to handles a x dn ++ writes_to handles b x dn.
Proof. unfold writes_to. apply omap_app. Qed.

Lemma var_written_refl vs u : var_written vs vs u u [].
Proof. unfold var_written. simpl. split_and!; try done; lia. Qed.

Lemma var_written_trans vs vs' vs'' u u' u'' w w' :
  var_written vs vs' u u' w → var_written vs' vs'' u' u'' w' →
  var_written vs vs'' u u'' (w ++ w').
Proof.
  intros (H1 & H2 & H3 & H4 & H5 & H6) (G1 & G2 & G3 & G4 & G5 & G6).
  unfold var_written. rewrite settle_app, changes_app, <- H1.
  split_and!; try congruence; try lia.
  rewrite G6, H6.
  destruct (decide (changes (VariableStructure.value vs') w' = 0)) as [Hz'|Hz'].
  - destruct (decide (changes (VariableStructure.value vs) w = 0)) as [Hz|Hz].
    + by rewrite decide_True by lia.
    + rewrite decide_False by lia. by rewrite G1, (changes_zero_settle _ _ Hz').
  - by rewrite decide_False by lia.
Qed.

Lemma batch_applied_refl handles dn d : batch_applied handles [] dn d d.
Proof.
  split_and!; try done. intros x.
  destruct (dict_get x (DriverStructure.variables d)) as [vs|] eqn:E; [|done].
  exists vs. split; [done | apply var_written_refl].
Qed.

Lemma batch_applied_trans handles a b dn d d' d'' :
  batch_applied handles a dn d d' → batch_applied handles b dn d' d'' →
  batch_applied handles (a ++ b) dn d d''.
Proof.
  intros (H1 & H2 & H3) (G1 & G2 & G3). split_and!; try congruence.
  intros x. specialize (H3 x).
  destruct (dict_get x (DriverStructure.variables d)) as [vs|].
  - destruct H3 as (vs' & Hv' & Hw). specialize (G3 x). rewrite Hv' in G3.
    destruct G3 as (vs'' & Hv'' & Hw'). exists vs''. split; [done|].
    rewrite writes_to_app. by eapply var_written_trans.
  - destruct H3 as [Hv' Hu']. specialize (G3 x). rewrite Hv' in G3.
    destruct G3 as [Hv'' Hu'']. split; congruence.
Qed.

(** One entry of a batch, seen from any [RUNNING] driver. *)
Lemma host_update_applied s h val s' :
  host_update s (h, val) = Ok s' →
  _handles s' = _handles s
  ∧ ∀ dn d, dict_get dn (_drivers s) = Some d → dn ≠ "" →
      DriverStructure.status d = Status RUNNING →
      ∃ d', dict_get dn (_drivers s') = Some d'
            ∧ batch_applied (_handles s) [(h, val)] dn d d'.
Proof.
  intros Hstep. split.
  { apply host_update_written in Hstep as [_ Hrest]. by apply rest_handles. }
  intros dn d Hd Hdn Hrun.
  assert (Hskip : ∀ x, writes_to (_handles s) [(h, val)] x dn = [] →
            ∀ vs u, var_written vs vs u u (writes_to (_handles s) [(h, val)] x dn)).
  { intros x -> vs u. apply var_written_refl. }
  assert (Hsame : (∀ x, writes_to (_handles s) [(h, val)] x dn = []) →
            batch_applied (_handles s) [(h, val)] dn d d).
  { intros Hw. split_and!; try done. intros x.
    destruct (dict_get x (DriverStructure.variables d)) as [vs|] eqn:E; [|done].
    exists vs. split; [done | by apply Hskip]. }
  revert Hstep. unfold host_update.
  destruct (dict_get h (_handles s)) as [[x0 dn0]|] eqn:Eh.
  2: { intros [= <-]. exists d. split; [done|]. apply Hsame. intros x.
       unfold writes_to. simpl. by rewrite Eh. }
  assert (Hother : dn0 ≠ dn → ∀ x, writes_to (_handles s) [(h, val)] x dn = []).
  { intros Hne x. unfold writes_to. simpl. rewrite Eh.
    rewrite decide_False; [done|]. congruence. }
  destruct (decide (dn0 = "")) as [->|Hdn0].
  { intros [= <-]. exists d. split; [done|]. apply Hsame, Hother. congruence. }
  destruct (dict_get dn0 (_drivers s)) as [d0|] eqn:Ed0; [|done].
  destruct (decide (DriverStructure.status d0 = Status RUNNING)) as [Hrun0|Hrun0].
  2: { intros [= <-]. exists d. split; [done|]. apply Hsame, Hother.
       intros ->. congruence. }
  destruct (dict_get x0 (DriverStructure.variables d0)) as [vs0|] eqn:Ev0; [|done].
  destruct (decide (dn0 = dn)) as [->|Hne].
  2: { destruct (py_ne (VariableStructure.value vs0) val); intros [= <-].
       - exists d. split; [simpl; by rewrite dict_get_set_ne | by apply Hsame, Hother].
       - exists d. split; [done | by apply Hsame, Hother]. }
  rewrite Hd in Ed0. injection Ed0 as <-.
  assert (Hone : writes_to (_handles s) [(h, val)] x0 dn = [val]).
  { unfold writes_to. simpl. by rewrite Eh, decide_True. }
  assert (Hnone : ∀ x, x ≠ x0 → writes_to (_handles s) [(h, val)] x dn = []).
  { intros x Hx. unfold writes_to. simpl. rewrite Eh.
    rewrite decide_False; [done|]. congruence. }
  destruct (py_ne (VariableStructure.value vs0) val) eqn:Hpy; intros [= <-].
  - eexists. split; [simpl; apply dict_get_set_eq|].
    split_and!; try done. intros x.
    cbn [DriverStructure.variables DriverStructure.updates
         DriverStructure.set_variables DriverStructure.set_updates].
    destruct (decide (x = x0)) as [->|Hx].
    + rewrite Ev0, !dict_get_set_eq, Hone. eexists. split; [done|].
      unfold var_written, settle. simpl. rewrite Hpy. simpl.
      split_and!; try done; lia.
    + rewrite !(dict_get_set_ne x0 x) by done.
      destruct (dict_get x (DriverStructure.variables d)) as [vs|]; [|done].
      exists vs. split; [done | by apply Hskip, Hnone].
  - exists d. split; [done|]. split_and!; try done. intros x.
    destruct (decide (x = x0)) as [->|Hx].
    + rewrite Ev0, Hone. exists vs0. split; [done|].
      unfold var_written, settle. simpl. rewrite Hpy. simpl.
      split_and!; try done; lia.
    + destruct (dict_get x (DriverStructure.variables d)) as [vs|]; [|done].
      exists vs. split; [done | by apply Hskip, Hnone].
Qed.

(** The whole first loop, seen from any [RUNNING] driver. *)
Lemma host_updates_applied_all data s s1 :
  host_updates data s = Ok s1 →
  ∀ dn d, dict_get dn (_drivers s) = Some d → dn ≠ "" →
    DriverStructure.status d = Status RUNNING →
    ∃ d1, dict_get dn (_drivers s1) = Some d1
          ∧ batch_applied (_handles s) data dn d d1.
Proof.
  revert s. induction data as [|[h val] data IH]; intros s; cbn [host_updates].
  - intros [= <-] dn d Hd _ _. exists d. split; [done | apply batch_applied_refl].
  - destruct (host_update s (h, val)) as [s'|e] eqn:E; cbn [result_bind]; [|done].
    intros Hrest dn d Hd Hdn Hrun.
    destruct (host_update_applied _ _ _ _ E) as [Hh Hstep].
    destruct (Hstep dn d Hd Hdn Hrun) as (d' & Hd' & Happ).
    destruct (IH s' Hrest dn d' Hd' Hdn) as (d1 & Hd1 & Happ1).
    { destruct Happ as (-> & _). exact Hrun. }
    exists d1. split; [done|]. rewrite Hh in Happ1.
    exact (batch_applied_trans _ [(h, val)] data _ _ _ _ Happ Happ1).
Qed.

(** C6.  The [UPDATES] command in a reachable state, whenever it
    returns: it gives no reply, and for every [RUNNING] driver and every
    variable [x] of it, with [w] the values of the entries of the batch
    whose handle resolves to [x], in batch order: each value of [w] in
    turn was compared with the value stored at that moment and, if it
    differed, stored; [write_count] grew by exactly 1 for each value
    that was stored, nothing else of the variable changed, and the
    pending batch of the driver holds for [x] the last value stored,
    and nothing for a variable no entry changed.  The worker of the
    driver was then sent exactly one [UPDATE] with this batch if it is
    not empty and none otherwise, and the batch of the record is
    empty.  A running manager always returns. *)
Theorem host_updates_applied registered_drivers s data :
  reachable registered_drivers s →
  (∀ s2 r,
     send_command registered_drivers s (FrameUpdates data) = Ok (s2, r) →
     r = None
     ∧ ∃ evs,
         trace s2 = trace s ++ evs
         ∧ ∀ dn d,
             dict_get dn (_drivers s) = Some d →
             DriverStructure.status d = Status RUNNING →
             ∃ d2 pending,
               dict_get dn (_drivers s2) = Some d2
               ∧ DriverStructure.updates d2 = []
               ∧ (∀ x vs,
                    dict_get x (DriverStructure.variables d) = Some vs →
                    let w := writes_to (_handles s) data x dn in
                    ∃ vs2,
                      dict_get x (DriverStructure.variables d2) = Some vs2
                      ∧ VariableStructure.value vs2
                        = settle (VariableStructure.value vs) w
                      ∧ VariableStructure.write_count vs2
                        = VariableStructure.write_count vs
                          + changes (VariableStructure.value vs) w
                      ∧ VariableStructure.read_count vs2
                        = VariableStructure.read_count vs
                      ∧ VariableStructure.handlers vs2 = VariableStructure.handlers vs
                      ∧ dict_get x pending
                        = if decide (changes (VariableStructure.value vs) w = 0)
                          then None else Some (VariableStructure.value vs2))
               ∧ (∀ x, dict_get x (DriverStructure.variables d) = None →
                    dict_get x pending = None)
               ∧ filter (sent_to dn) evs
                 = match pending with
                   | [] => []
                   | _ :: _ => [EvSend dn (UPDATE pending)]
                   end)
  ∧ (_running s = true →
     ∃ s2, send_command registered_drivers s (FrameUpdates data) = Ok (s2, None)).
Proof.
  intros Hreach. pose proof (reachable_invariant _ _ Hreach) as Hinv. split.
  - intros s2 r. cbn [send_command].
    destruct (host_updates data s) as [s1|e] eqn:E; cbn [result_bind]; [|done].
    intros [= <- <-]. split; [done|].
    pose proof (host_updates_written _ _ _ E) as [Hrel Hrest].
    assert (Hev : registry_rel evolves (_drivers s) (_drivers s1)).
    { eapply registry_rel_impl; [apply written_evolves | exact Hrel]. }
    assert (Hnd : NoDup (dict_keys (_drivers s1))).
    { rewrite (registry_rel_keys _ _ _ Hrel). apply Hinv. }
    assert (Hnames : driver_names (_drivers s1) = dict_keys (_drivers s1)).
    { rewrite (registry_rel_names _ _ (invariant_names s Hinv) Hev).
      symmetry. by apply registry_rel_keys with written. }
    exists (pending_sends (_drivers s1)). split.
    { rewrite flush_spec. simpl. by rewrite (rest_trace _ _ Hrest). }
    intros dn d Hd Hrun.
    assert (Hdn : dn ≠ "").
    { destruct (inv_names _ Hinv _ _ Hd) as (_ & n & -> & _).
      apply driver_name_of_nonempty. }
    destruct (host_updates_applied_all _ _ _ E dn d Hd Hdn Hrun)
      as (d1 & Hd1 & Hst & Hnm & Hvars).
    pose proof (inv_quiet _ Hinv _ _ Hd) as Hquiet.
    assert (Hname : DriverStructure.name d1 = dn).
    { rewrite Hnm. by apply (inv_names _ Hinv). }
    exists (clear_updates d1), (DriverStructure.updates d1). split_and!.
    + rewrite flush_spec. simpl. by rewrite dict_get_map, Hd1.
    + done.
    + intros x vs Hx. cbv zeta. specialize (Hvars x). rewrite Hx in Hvars.
      destruct Hvars as (vs2 & Hx2 & G1 & G2 & G3 & G4 & G5 & G6).
      exists vs2. rewrite Hquiet in G6. simpl in G6. by split_and!.
    + intros x Hx. specialize (Hvars x). rewrite Hx in Hvars.
      destruct Hvars as [_ ->]. by rewrite Hquiet.
    + rewrite <- Hname.
      apply pending_sends_filter with dn; [by rewrite Hnames|].
      by apply dict_get_Some_elem.
  - intros Hrun.
    destruct (updates_command registered_drivers s data Hreach Hrun)
      as (s1 & _ & Hcmd & _). eauto.
Qed.

Lemma host_updates_applied_witness :
  let data := [("vh1", PyInt 7); ("vh0", PyInt 1); ("vh2", PyFloat 7%float); ("vh3", PyInt 8)] in
  (∀ s2 r,
     send_command registered_drivers_base shared_S1 (FrameUpdates data) = Ok (s2, r) →
     r = None
     ∧ ∃ evs,
         trace s2 = trace shared_S1 ++ evs
         ∧ ∀ dn d,
             dict_get dn (_drivers shared_S1) = Some d →
             DriverStructure.status d = Status RUNNING →
             ∃ d2 pending,
               dict_get dn (_drivers s2) = Some d2
               ∧ DriverStructure.updates d2 = []
               ∧ (∀ x vs,
                    dict_get x (DriverStructure.variables d) = Some vs →
                    let w := writes_to (_handles shared_S1) data x dn in
                    ∃ vs2,
                      dict_get x (DriverStructure.variables d2) = Some vs2
                      ∧ VariableStructure.value vs2
                        = settle (VariableStructure.value vs) w
                      ∧ VariableStructure.write_count vs2
                        = VariableStructure.write_count vs
                          + changes (VariableStructure.value vs) w
                      ∧ VariableStructure.read_count vs2
                        = VariableStructure.read_count vs
                      ∧ VariableStructure.handlers vs2 = VariableStructure.handlers vs
                      ∧ dict_get x pending
                        = if decide (changes (VariableStructure.value vs) w = 0)
                          then None else Some (VariableStructure.value vs2))
               ∧ (∀ x, dict_get x (DriverStructure.variables d) = None →
                    dict_get x pending = None)
               ∧ filter (sent_to dn) evs
                 = match pending with
                   | [] => []
                   | _ :: _ => [EvSend dn (UPDATE pending)]
                   end)
  ∧ (_running shared_S1 = true →
     ∃ s2, send_command registered_drivers_base shared_S1 (FrameUpdates data)
           = Ok (s2, None)).
Proof.
  apply (host_updates_applied registered_drivers_base shared_S1).
  apply shared_S1_reachable.
Defined.

(** The batch of the witness on the model, variable x having the
    handles vh1, vh2 and vh3: 7 is stored, the unknown handle is
    skipped, 7.0 does not differ from 7 and is not taken, 8 is stored;
    two writes are counted and the worker is sent one [UPDATE] with the
    last value. *)
Example scenario_batch :
  ∃ s' d vs,
    send_command registered_drivers_base shared_S1
      (FrameUpdates [("vh1", PyInt 7); ("vh0", PyInt 1); ("vh2", PyFloat 7%float);
                     ("vh3", PyInt 8)])
    = Ok (s', None)
    ∧ trace s' = trace shared_S1 ++ [EvSend "DRIVER_1" (UPDATE [("x", PyInt 8)])]
    ∧ dict_get "DRIVER_1" (_drivers s') = Some d
    ∧ dict_get "x" (DriverStructure.variables d) = Some vs
    ∧ VariableStructure.value vs = PyInt 8
    ∧ VariableStructure.write_count vs = 2.
Proof. vm_compute. eexists _, _, _. split_and!; reflexivity. Qed.

(** Scenario S4 on the model: the worker receives one
    [UPDATE({"x": 7})], the value becomes 7 and [write_count] 1; writing
    7 again sends nothing. *)
Lemma scenario_S4 :
  ∃ s' d vs,
    send_command registered_drivers_base running_S1 (FrameUpdates [("vh1", PyInt 7)])
    = Ok (s', None)
    ∧ trace s' = trace running_S1 ++ [EvSend "DRIVER_1" (UPDATE [("x", PyInt 7)])]
    ∧ dict_get "DRIVER_1" (_drivers s') = Some d
    ∧ dict_get "x" (DriverStructure.variables d) = Some vs
    ∧ VariableStructure.value vs = PyInt 7
    ∧ VariableStructure.write_count vs = 1
    ∧ send_command registered_drivers_base s' (FrameUpdates [("vh1", PyInt 7)])
      = Ok (s', None).
Proof.
  eexists _, _, _. split_and!.
  - vm_compute. reflexivity.
  - vm_compute. reflexivity.
  - vm_compute. reflexivity.
  - vm_compute. reflexivity.
  - vm_compute. reflexivity.
  - vm_compute. reflexivity.
  - vm_compute. reflexivity.
Qed.

(** C7.  A host write whose handle resolves to a variable of a driver
    that is not [RUNNING] is dropped without a trace, in any state.  In
    a reachable state of a running manager, whatever the batch, the
    command returns, the record of such a driver (its variables with
    their values and [write_count]s included) is exactly what it was,
    and no message at all is sent to its worker. *)
Theorem updates_dropped_unless_running registered_drivers s data dn d :
  reachable registered_drivers s → _running s = true →
  dict_get dn (_drivers s) = Some d →
  DriverStructure.status d ≠ Status RUNNING →
  (∀ s0 h val v,
     dict_get h (_handles s0) = Some (v, dn) →
     dict_get dn (_drivers s0) = Some d →
     host_update s0 (h, val) = Ok s0)
  ∧ ∃ s' evs,
      send_command registered_drivers s (FrameUpdates data) = Ok (s', None)
      ∧ dict_get dn (_drivers s') = Some d
      ∧ trace s' = trace s ++ evs
      ∧ ∀ e, e ∈ evs → ¬ sent_to (DriverStructure.name d) e.
Proof.
  intros Hreach Hrun Hd Hstatus. split.
  { intros s0 h val v Hh Hd0. by apply host_update_dropped with v dn d. }
  pose proof (reachable_invariant _ _ Hreach) as Hinv.
  destruct (updates_command registered_drivers s data Hreach Hrun)
    as (s1 & E & Hcmd & Hrel & Hrest & Hnd & Hnames).
  destruct (registry_rel_get _ _ _ _ _ Hrel Hd) as (d' & Hd' & _ & _ & _ & Hsame).
  rewrite (Hsame Hstatus) in Hd'.
  pose proof (inv_quiet _ Hinv _ _ Hd) as Hquiet.
  exists (flush s1), (pending_sends (_drivers s1)). split_and!; try done.
  - rewrite flush_spec. simpl. rewrite dict_get_map, Hd'. simpl.
    by rewrite clear_updates_quiet.
  - rewrite flush_spec. simpl. by rewrite (rest_trace _ _ Hrest).
  - intros e He Hsent.
    pose proof (pending_sends_filter (_drivers s1) dn d) as Hf.
    rewrite Hnames in Hf. specialize (Hf Hnd (dict_get_Some_elem _ _ _ Hd')).
    rewrite Hquiet in Hf.
    assert (Hin : e ∈ filter (sent_to (DriverStructure.name d))
                      (pending_sends (_drivers s1))).
    { by apply list_elem_of_filter. }
    rewrite Hf in Hin. by apply elem_of_nil in Hin.
Qed.

Lemma updates_dropped_unless_running_witness :
  (∀ s0 h val v,
     dict_get h (_handles s0) = Some (v, "DRIVER_1") →
     dict_get "DRIVER_1" (_drivers s0) = Some driver_S1 →
     host_update s0 (h, val) = Ok s0)
  ∧ ∃ s' evs,
      send_command registered_drivers_base after_S1 (FrameUpdates [("vh1", PyInt 7)])
      = Ok (s', None)
      ∧ dict_get "DRIVER_1" (_drivers s') = Some driver_S1
      ∧ trace s' = trace after_S1 ++ evs
      ∧ ∀ e, e ∈ evs → ¬ sent_to (DriverStructure.name driver_S1) e.
Proof.
  apply (updates_dropped_unless_running registered_drivers_base after_S1
           [("vh1", PyInt 7)] "DRIVER_1" driver_S1).
  - apply after_S1_reachable.
  - reflexivity.
  - reflexivity.
  - vm_compute. discriminate.
Defined.

(** ** Draining a worker channel *)

Lemma handle_all_cons m msgs d s :
  handle_all (m :: msgs) d s
  = handle_all msgs (on_message d s m).1 (on_message d s m).2.
Proof. unfold handle_all. cbn [foldl fst snd]. by destruct (on_message d s m). Qed.

Lemma drain_spec max counter pending d s :
  drain max counter pending d s
  = (DriverStructure.set_pipe
       (handle_all (take (taken max counter pending) pending) d s).1
       (drop (taken max counter pending) pending),
     (handle_all (take (taken max counter pending) pending) d s).2).
Proof.
  revert counter d s. induction pending as [|m rest IH]; intros counter d s.
  - reflexivity.
  - cbn [drain]. destruct (on_message d s m) as [d1 s1] eqn:E.
    case_decide as Hc.
    + assert (Hk : taken max counter (m :: rest) = 1).
      { unfold taken. cbn [length]. lia. }
      rewrite Hk. cbn [take drop]. rewrite handle_all_cons, E. reflexivity.
    + assert (Hk : taken max counter (m :: rest) = S (taken max (counter + 1) rest)).
      { unfold taken. cbn [length]. lia. }
      rewrite Hk. cbn [take drop]. rewrite handle_all_cons, E. apply IH.
Qed.

Lemma worker_updates_keep data d s :
  DriverStructure.handlers (foldl worker_update (d, s) data).1 = DriverStructure.handlers d
  ∧ _status_updates (foldl worker_update (d, s) data).2 = _status_updates s.
Proof.
  revert d s. induction data as [|[var_id value] data IH]; intros d s; [done|].
  cbn [foldl]. unfold worker_update at 2 4.
  destruct (dict_get var_id (DriverStructure.variables d)) as [vs|]; [|apply IH].
  destruct (py_ne (VariableStructure.value vs) value); [|apply IH].
  match goal with |- context [foldl worker_update (?d1, ?s1) data] =>
    destruct (IH d1 s1) as [H1 H2] end.
  by rewrite H1, H2.
Qed.

(** ** C8: the reconciler on worker updates *)

Lemma notify_get_in {V} (hs : list string) (x : V) m h :
  h ∈ hs → dict_get h (notify hs x m) = Some x.
Proof.
  unfold notify. induction hs as [|h0 hs IH] using rev_ind; intros Hin.
  - by apply elem_of_nil in Hin.
  - rewrite foldl_snoc. destruct (decide (h0 = h)) as [->|Hne].
    + apply dict_get_set_eq.
    + rewrite dict_get_set_ne by done. apply IH.
      apply elem_of_app in Hin as [?|Hin]; [done|].
      apply list_elem_of_singleton in Hin. congruence.
Qed.




Lemma worker_update_unknown d s var_id value :
  dict_get var_id (DriverStructure.variables d) = None →
  worker_update (d, s) (var_id, value) = (d, s).
Proof. intros Hv. unfold worker_update. by rewrite Hv. Qed.

(** *** One message with many entries *)




(** *** Messages with one entry, one after the other *)


(** C8, counterexample.  In scenario S3 started after the worker has
    already reported 1 for x (and the host fetched it), the same three
    messages drained in one cycle give the frame [(UPDATES, {"vh1": 2})],
    but [read_count] goes from 1 to 2: it increases by 1, not by 2,
    because the first message carries the stored value. *)
Lemma stored_one_counts_once :
  ∃ d0 vs0 s' d vs,
    dict_get "DRIVER_1" (_drivers before_S3_again) = Some d0
    ∧ DriverStructure.pipe d0
      = [MsgUpdate [("x", PyInt 1)]; MsgUpdate [("x", PyInt 2)];
         MsgUpdate [("x", PyInt 2)]]
    ∧ dict_get "x" (DriverStructure.variables d0) = Some vs0
    ∧ VariableStructure.value vs0 = PyInt 1
    ∧ VariableStructure.read_count vs0 = 1
    ∧ run_forever_round registered_drivers_base before_S3_again (mkHost [] []) 0
      = Ok (s', mkHost [] [(UPDATES, OutValues [("vh1", PyInt 2)])], false)
    ∧ dict_get "DRIVER_1" (_drivers s') = Some d
    ∧ dict_get "x" (DriverStructure.variables d) = Some vs
    ∧ VariableStructure.value vs = PyInt 2
    ∧ VariableStructure.read_count vs = 2.
Proof. vm_compute. eexists _, _, _, _, _. split_and!; reflexivity. Qed.



(** One message with two entries on the model: both variables are
    written, and a handle the two share is told the later value. *)
Example scenario_two_entries :
  let d := DriverStructure.set_variables driver_S1
             [("x", VariableStructure.init "vh1" {| vd_handle := None; vd_other := [] |});
              ("y", VariableStructure.add_handle
                      (VariableStructure.init "vh2"
                         {| vd_handle := None; vd_other := [] |}) "vh1")] in
  let r := on_message d after_S1 (MsgUpdate [("x", PyInt 1); ("y", PyInt 2)]) in
  (VariableStructure.value <$> dict_get "x" (DriverStructure.variables r.1))
  = Some (PyInt 1)
  ∧ (VariableStructure.value <$> dict_get "y" (DriverStructure.variables r.1))
    = Some (PyInt 2)
  ∧ _value_updates r.2 = [("vh1", PyInt 2); ("vh2", PyInt 2)].
Proof. vm_compute. split_and!; reflexivity. Qed.

(** ** C9: statistics *)

Lemma set_pipe_same d : DriverStructure.pipe d = [] → DriverStructure.set_pipe d [] = d.
Proof. destruct d. simpl. by intros ->. Qed.

Lemma run_drivers_idle max items s :
  Forall (fun kv => DriverStructure.pipe kv.2 = []) items →
  run_drivers max items s = (items, s).
Proof.
  induction 1 as [|[k d] items Hd H IH]; [done|].
  simpl in *. rewrite Hd. simpl. rewrite IH. by rewrite set_pipe_same.
Qed.

Lemma set_drivers_same s : set_drivers s (_drivers s) = s.
Proof. by destruct s. Qed.

(** A reconciler pass over a quiescent manager reports nothing, and
    rebuilds the statistics exactly when a second has passed. *)
Lemma run_once_idle s clock max :
  quiescent s →
  ∃ s', run_once s clock max = (s', false)
        ∧ quiescent s'
        ∧ _drivers s' = _drivers s ∧ _handles s' = _handles s
        ∧ _start_time s' = _start_time s
        ∧ ((clock - _start_time s - _last_status_record s >= 1)%Z →
           _stats_updates s' = stats_of s
           ∧ _last_status_record s' = (clock - _start_time s)%Z)
        ∧ (¬ (clock - _start_time s - _last_status_record s >= 1)%Z →
           s' = s).
Proof.
  intros (Hrun & H1 & H2 & H3 & H4 & Hp). unfold run_once.
  rewrite (run_drivers_idle max _ s Hp), set_drivers_same.
  destruct (decide (clock - _start_time s - _last_status_record s >= 1)%Z) as [Hd|Hd].
  - eexists. split.
    + unfold has_updates. simpl. rewrite H1, H2, H3, H4. reflexivity.
    + by split_and!.
  - exists s. split.
    + unfold has_updates. rewrite H1, H2, H3, H4. reflexivity.
    + by split_and!.
Qed.

Section Idle.

Variable registered_drivers : list string.

Lemma round_idle s sent clock :
  quiescent s →
  ∃ s', run_forever_round registered_drivers s (mkHost [] sent) clock
        = Ok (s', mkHost [] sent, true)
        ∧ quiescent s'
        ∧ ((clock - _start_time s - _last_status_record s >= 1)%Z →
           _stats_updates s' = stats_of s).
Proof.
  intros Hq. unfold run_forever_round. cbn [incoming outgoing drain_host result_bind].
  destruct Hq as (Hrun & Hq). rewrite Hrun.
  destruct (run_once_idle s clock 10 (conj Hrun Hq))
    as (s' & -> & Hq' & _ & _ & _ & Hstats & _).
  exists s'. split_and!; [done | done |]. intros Hc. by apply Hstats.
Qed.

Lemma arrive_silent s host tk : silent tk → incoming host = [] →
  arrive s host tk = (s, host).
Proof.
  intros [H1 H2] Hi. unfold arrive. rewrite H1, H2, Hi. by destruct host; simpl in *; subst.
Qed.

(** C9, on the code.  A running manager whose workers are silent and
    whose host sends nothing never sends a frame, however the clock
    advances: along any schedule of silent rounds the host channel is
    left as it was; yet every round in which a second has passed
    rebuilds the statistics, which then stay in [_stats_updates]
    unsent, since [run_forever] sends [STATS] only in a round where
    [run_once] reports an update of another kind. *)
Theorem idle_manager_sends_no_stats schedule s sent :
  quiescent s →
  Forall silent schedule →
  (∃ s', run_forever registered_drivers schedule s (mkHost [] sent)
         = Ok (s', mkHost [] sent)
         ∧ quiescent s')
  ∧ (∀ clock, (clock - _start_time s - _last_status_record s >= 1)%Z →
       ∃ s', run_forever_round registered_drivers s (mkHost [] sent) clock
             = Ok (s', mkHost [] sent, true)
             ∧ _stats_updates s' = stats_of s).
Proof.
  intros Hq Hsilent. split.
  - revert s Hq. induction Hsilent as [|tk schedule Htk Hs IH]; intros s Hq.
    + exists s. by split.
    + cbn [run_forever]. destruct Hq as (Hrun & Hq). rewrite Hrun.
      rewrite arrive_silent by done.
      destruct (round_idle s sent (clock tk) (conj Hrun Hq)) as (s1 & -> & Hq1 & _).
      cbn [result_bind fst snd]. by apply IH.
  - intros clock Hc.
    destruct (round_idle s sent clock Hq) as (s1 & E & _ & Hstats).
    exists s1. split; [done | by apply Hstats].
Qed.

End Idle.

Lemma after_S1_quiescent : quiescent after_S1.
Proof. vm_compute. split_and!; try reflexivity. repeat constructor. Qed.

Lemma idle_manager_sends_no_stats_witness :
  (∃ s', run_forever registered_drivers_base three_seconds after_S1 (mkHost [] [])
         = Ok (s', mkHost [] [])
         ∧ quiescent s')
  ∧ (∀ clock, (clock - _start_time after_S1 - _last_status_record after_S1 >= 1)%Z →
       ∃ s', run_forever_round registered_drivers_base after_S1 (mkHost [] []) clock
             = Ok (s', mkHost [] [], true)
             ∧ _stats_updates s' = stats_of after_S1).
Proof.
  apply (idle_manager_sends_no_stats registered_drivers_base three_seconds after_S1 []).
  - apply after_S1_quiescent.
  - repeat constructor.
Defined.

(** The run of the failing input: three seconds of uptime after
    scenario S1, no frame to the host, the statistics rebuilt and
    waiting. *)
Lemma three_idle_seconds :
  ∃ s', run_forever registered_drivers_base three_seconds after_S1 (mkHost [] [])
        = Ok (s', mkHost [] [])
        ∧ _last_status_record s' = 3%Z
        ∧ _stats_updates s' = [("DRIVER_COUNT", 1); ("VARIABLE_COUNT", 1)].
Proof. vm_compute. eexists. split_and!; reflexivity. Qed.

(** * Further properties of the code *)

(** ** The reconciler: how much of a channel one pass takes *)

(** X1.  One pass over a worker channel handles the first
    [min(len, max(1, max_pipe_loops))] messages, in the order they were
    sent, and leaves all the others on the channel in order: none is
    lost, none is handled twice, and one message is taken even when
    [max_pipe_loops] is zero or negative. *)
Theorem drain_takes_prefix max_pipe_loops pending d s :
  let k := min (length pending) (Z.to_nat (Z.max 1 max_pipe_loops)) in
  drain max_pipe_loops 0 pending d s
  = (DriverStructure.set_pipe (handle_all (take k pending) d s).1 (drop k pending),
     (handle_all (take k pending) d s).2)
  ∧ take k pending ++ DriverStructure.pipe (drain max_pipe_loops 0 pending d s).1
    = pending
  ∧ (pending ≠ [] → 1 ≤ k)
  ∧ (Z.of_nat k ≤ Z.max 1 max_pipe_loops)%Z.
Proof.
  intros k. assert (Hk : taken max_pipe_loops 0 pending = k).
  { unfold taken, k. by rewrite Z.sub_0_r. }
  rewrite drain_spec, Hk. split_and!.
  - reflexivity.
  - simpl. apply take_drop.
  - intros Hne. unfold k. destruct pending; [done|]. cbn [length]. lia.
  - unfold k. lia.
Qed.

Lemma run_drivers_pipes max items s :
  registry_rel
    (fun d d' =>
       DriverStructure.pipe d'
       = drop (taken max 0 (DriverStructure.pipe d)) (DriverStructure.pipe d))
    items (run_drivers max items s).1.
Proof.
  revert s. induction items as [|[key d] items IH]; intros s; cbn [run_drivers].
  - constructor.
  - rewrite drain_spec.
    destruct (handle_all _ d s) as [d1 s1]. cbn [fst snd].
    specialize (IH s1). destruct (run_drivers max items s1) as [rest s2].
    constructor; [|exact IH]. split; reflexivity.
Qed.

(** X2.  A reconciler pass visits every driver of the registry: after
    [run_once] the channel of each driver holds what it held before
    without its first [min(len, max(1, max_pipe_loops))] messages, so a
    driver with a long queue delays no other driver and loses nothing. *)
Theorem run_once_is_fair s clock max_pipe_loops key d :
  dict_get key (_drivers s) = Some d →
  ∃ d',
    dict_get key (_drivers (run_once s clock max_pipe_loops).1) = Some d'
    ∧ DriverStructure.pipe d'
      = drop (min (length (DriverStructure.pipe d))
                (Z.to_nat (Z.max 1 max_pipe_loops)))
          (DriverStructure.pipe d)
    ∧ dict_keys (_drivers (run_once s clock max_pipe_loops).1) = dict_keys (_drivers s).
Proof.
  intros Hd. pose proof (run_drivers_pipes max_pipe_loops (_drivers s) s) as Hrel.
  unfold run_once. destruct (run_drivers max_pipe_loops (_drivers s) s) as [items s1].
  cbn [fst] in Hrel.
  destruct (registry_rel_get _ _ _ _ _ Hrel Hd) as (d' & Hd' & Hpipe).
  exists d'. unfold taken in Hpipe. rewrite Z.sub_0_r in Hpipe.
  split_and!.
  - by case_decide.
  - exact Hpipe.
  - pose proof (registry_rel_keys _ _ _ Hrel). by case_decide.
Qed.

Lemma run_once_is_fair_witness :
  ∃ d',
    dict_get "DRIVER_1" (_drivers (run_once before_S3 0 2).1) = Some d'
    ∧ DriverStructure.pipe d'
      = drop (min (length (DriverStructure.pipe driver_S3))
                (Z.to_nat (Z.max 1 2)))
          (DriverStructure.pipe driver_S3)
    ∧ dict_keys (_drivers (run_once before_S3 0 2).1) = dict_keys (_drivers before_S3).
Proof.
  apply (run_once_is_fair before_S3 0 2 "DRIVER_1" driver_S3). reflexivity.
Defined.

(** ** The dispatcher: how many host frames one round takes *)



(** ** The reconciler: info lines, status, unknown variables *)

Lemma lastn_short {A} n (l : list A) : length l ≤ n → lastn n l = l.
Proof. intros H. unfold lastn. by replace (length l - n) with 0 by lia. Qed.

Lemma lastn_length {A} n (l : list A) : length (lastn n l) = min n (length l).
Proof. unfold lastn. rewrite length_drop. lia. Qed.

Lemma lastn_app_lastn {A} n (a b : list A) :
  lastn n (lastn n a ++ b) = lastn n (a ++ b).
Proof.
  destruct (decide (length a ≤ n)) as [Hle|Hgt].
  - by rewrite (lastn_short n a).
  - unfold lastn at 1 3. rewrite !length_app, lastn_length.
    replace (min n (length a) + length b - n) with (length b) by lia.
    replace (length a + length b - n) with ((length a - n) + length b) by lia.
    unfold lastn. rewrite <- (drop_app_le a b (length a - n)) by lia.
    by rewrite drop_drop.
Qed.

(** One info line that is no latency report. *)
Lemma on_message_info d s text :
  contains "Latency" text = false →
  on_message d s (MsgInfo text)
  = (DriverStructure.set_info d text (lastn 5 (DriverStructure.info_log d ++ [text])),
     set_info_updates s (notify (DriverStructure.handlers d) text (_info_updates s))).
Proof.
  intros H. cbn [on_message]. rewrite H. case_decide as Hlen.
  - reflexivity.
  - by rewrite lastn_short by lia.
Qed.

Lemma info_log_after texts d s :
  Forall (fun text => contains "Latency" text = false) texts →
  length (DriverStructure.info_log d) ≤ 5 →
  let d' := (handle_all (map MsgInfo texts) d s).1 in
  DriverStructure.info_log d' = lastn 5 (DriverStructure.info_log d ++ texts)
  ∧ length (DriverStructure.info_log d') = min 5 (length (DriverStructure.info_log d ++ texts))
  ∧ DriverStructure.info d' = default (DriverStructure.info d) (last texts)
  ∧ DriverStructure.latency d' = DriverStructure.latency d
  ∧ DriverStructure.status d' = DriverStructure.status d
  ∧ DriverStructure.variables d' = DriverStructure.variables d
  ∧ DriverStructure.handlers d' = DriverStructure.handlers d.
Proof.
  intros Htexts. revert d s.
  induction Htexts as [|text texts Ht Htexts IH]; intros d s Hlen; cbn zeta.
  - cbn [map]. unfold handle_all. cbn [foldl fst]. rewrite app_nil_r.
    rewrite lastn_short by done. split_and!; try done. lia.
  - cbn [map]. rewrite handle_all_cons, (on_message_info d s text Ht). cbn [fst snd].
    match goal with
    | |- context [handle_all _ ?d1 ?s1] => specialize (IH d1 s1)
    end.
    cbn zeta in IH. cbn [DriverStructure.info_log DriverStructure.set_info] in IH.
    destruct IH as (H1 & H2 & H3 & H4 & H5 & H6 & H7).
    { rewrite lastn_length. lia. }
    rewrite lastn_app_lastn, <- app_assoc in H1. cbn [app] in H1.
    split_and!; [exact H1 | | | exact H4 | exact H5 | exact H6 | exact H7].
    + rewrite H1. apply lastn_length.
    + rewrite H3. cbn [DriverStructure.info DriverStructure.set_info].
      rewrite last_cons. by destruct (last texts).
Qed.


Lemma info_updates_after texts d s h :
  Forall (fun text => contains "Latency" text = false) texts →
  texts ≠ [] →
  h ∈ DriverStructure.handlers d →
  dict_get h (_info_updates (handle_all (map MsgInfo texts) d s).2) = last texts.
Proof.
  intros Htexts. revert d s.
  induction Htexts as [|text texts Ht Htexts IH]; intros d s Hne Hh; [done|].
  cbn [map]. rewrite handle_all_cons, (on_message_info d s text Ht). cbn [fst snd].
  destruct texts as [|text' texts'].
  - cbn [map]. unfold handle_all. cbn [foldl snd]. simpl.
    by apply notify_get_in.
  - rewrite IH; [|done|exact Hh]. rewrite (last_cons text).
    destruct (last (text' :: texts')) eqn:E; [done|].
    rewrite last_cons in E. by destruct (last texts').
Qed.

(** X4.  After any run of info lines that are no latency reports, the
    info log of the driver holds the last five lines of what it held
    followed by the new lines, in order (all of them while there are at
    most five), [info] is the last line, the other fields of the record
    are as they were, and [info_updates] maps every handle of the
    driver to the last line.  Seven lines on an empty log leave the
    last five. *)
Theorem info_log_keeps_last_five texts d s :
  Forall (fun text => contains "Latency" text = false) texts →
  length (DriverStructure.info_log d) ≤ 5 →
  let d' := (handle_all (map MsgInfo texts) d s).1 in
  let s' := (handle_all (map MsgInfo texts) d s).2 in
  DriverStructure.info_log d' = lastn 5 (DriverStructure.info_log d ++ texts)
  ∧ length (DriverStructure.info_log d') = min 5 (length (DriverStructure.info_log d ++ texts))
  ∧ DriverStructure.info d' = default (DriverStructure.info d) (last texts)
  ∧ DriverStructure.latency d' = DriverStructure.latency d
  ∧ DriverStructure.status d' = DriverStructure.status d
  ∧ DriverStructure.variables d' = DriverStructure.variables d
  ∧ DriverStructure.handlers d' = DriverStructure.handlers d
  ∧ (texts ≠ [] →
     ∀ h, h ∈ DriverStructure.handlers d → dict_get h (_info_updates s') = last texts).
Proof.
  intros Htexts Hlen. cbn zeta.
  pose proof (info_log_after texts d s Htexts Hlen) as H. cbn zeta in H.
  destruct H as (H1 & H2 & H3 & H4 & H5 & H6 & H7).
  split_and!; try done.
  intros Hne h Hh. by apply info_updates_after.
Qed.

Lemma info_log_keeps_last_five_witness :
  let texts := ["1"; "2"; "3"; "4"; "5"; "6"; "7"] in
  let d' := (handle_all (map MsgInfo texts) driver_S1 after_S1).1 in
  let s' := (handle_all (map MsgInfo texts) driver_S1 after_S1).2 in
  DriverStructure.info_log d' = lastn 5 (DriverStructure.info_log driver_S1 ++ texts)
  ∧ length (DriverStructure.info_log d')
    = min 5 (length (DriverStructure.info_log driver_S1 ++ texts))
  ∧ DriverStructure.info d' = default (DriverStructure.info driver_S1) (last texts)
  ∧ DriverStructure.latency d' = DriverStructure.latency driver_S1
  ∧ DriverStructure.status d' = DriverStructure.status driver_S1
  ∧ DriverStructure.variables d' = DriverStructure.variables driver_S1
  ∧ DriverStructure.handlers d' = DriverStructure.handlers driver_S1
  ∧ (texts ≠ [] →
     ∀ h, h ∈ DriverStructure.handlers driver_S1 →
       dict_get h (_info_updates s') = last texts).
Proof.
  apply (info_log_keeps_last_five ["1"; "2"; "3"; "4"; "5"; "6"; "7"] driver_S1 after_S1).
  - repeat constructor.
  - vm_compute. lia.
Defined.

(** Scenario S5 on the model: seven info lines leave the last five. *)
Lemma scenario_S5 :
  DriverStructure.info_log
    (handle_all (map MsgInfo ["1"; "2"; "3"; "4"; "5"; "6"; "7"]) driver_S1 after_S1).1
  = ["3"; "4"; "5"; "6"; "7"].
Proof. reflexivity. Qed.

Lemma handle_all_snoc msgs m d s :
  handle_all (msgs ++ [m]) d s
  = on_message (handle_all msgs d s).1 (handle_all msgs d s).2 m.
Proof. unfold handle_all. by rewrite foldl_snoc. Qed.

(** What one message does to the status of the driver, its handlers and
    the outbound status map. *)
Lemma on_message_status d s m :
  DriverStructure.status (on_message d s m).1
  = match m with MsgStatus x => Status x | _ => DriverStructure.status d end
  ∧ DriverStructure.handlers (on_message d s m).1 = DriverStructure.handlers d
  ∧ _status_updates (on_message d s m).2
    = match m with
      | MsgStatus x =>
          if decide (DriverStructure.status d = Status x) then _status_updates s
          else notify (DriverStructure.handlers d) (Status x) (_status_updates s)
      | _ => _status_updates s
      end.
Proof.
  destruct m as [data|data|msg var_id|data|tag]; cbn [on_message].
  - destruct (decide (DriverStructure.status d = Status data)); by split_and!.
  - destruct (contains "Latency" data); by split_and!.
  - destruct (dict_get var_id (DriverStructure.variables d)) as [vs|]; [|done].
    destruct (decide (VariableStructure.info vs = msg)); by split_and!.
  - destruct (worker_updates_evolves data d s) as (_ & _ & H3 & _).
    destruct (worker_updates_keep data d s) as [H1 H2]. by split_and!.
  - done.
Qed.

(** X5.  After any run of worker messages the status of the driver is
    the last status the worker reported (its old status if it reported
    none), whatever other messages came in between; and when that
    differs from the status before the run, [status_updates] maps every
    handle of the driver to it. *)
Theorem status_is_last_reported msgs d s :
  DriverStructure.status (handle_all msgs d s).1
  = last_status (DriverStructure.status d) msgs
  ∧ DriverStructure.handlers (handle_all msgs d s).1 = DriverStructure.handlers d
  ∧ (DriverStructure.status (handle_all msgs d s).1 ≠ DriverStructure.status d →
     ∀ h, h ∈ DriverStructure.handlers d →
       dict_get h (_status_updates (handle_all msgs d s).2)
       = Some (DriverStructure.status (handle_all msgs d s).1)).
Proof.
  assert (H : DriverStructure.status (handle_all msgs d s).1
              = last_status (DriverStructure.status d) msgs
              ∧ DriverStructure.handlers (handle_all msgs d s).1
                = DriverStructure.handlers d
              ∧ ((DriverStructure.status (handle_all msgs d s).1
                  = DriverStructure.status d
                  ∧ _status_updates (handle_all msgs d s).2 = _status_updates s)
                 ∨ ∀ h, h ∈ DriverStructure.handlers d →
                     dict_get h (_status_updates (handle_all msgs d s).2)
                     = Some (DriverStructure.status (handle_all msgs d s).1))).
  { induction msgs as [|m msgs IH] using rev_ind.
    - split_and!; try done. by left.
    - rewrite handle_all_snoc. destruct IH as (H1 & H2 & H3).
      destruct (handle_all msgs d s) as [d1 s1]. cbn [fst snd] in *.
      destruct (on_message_status d1 s1 m) as (G1 & G2 & G3).
      unfold last_status. rewrite foldl_snoc. fold (last_status (DriverStructure.status d) msgs).
      rewrite G1, G2, G3, <- H1. split_and!; [by destruct m | done |].
      destruct m as [x| | | |]; try done.
      destruct (decide (DriverStructure.status d1 = Status x)) as [Heq|Hne].
      + rewrite <- Heq. exact H3.
      + right. intros h Hh. rewrite H2. by apply notify_get_in. }
  destruct H as (H1 & H2 & [[H3 _]|H3]); split_and!; try done.
Qed.

(** X6.  A worker cannot create anything: an [UPDATE] that names only
    variables the driver does not have, a [VAR_INFO] for such a
    variable, and a message with an unknown tag leave the driver record
    and the manager as they are. *)
Theorem unknown_variables_are_ignored d s :
  (∀ data,
     Forall (fun item => dict_get item.1 (DriverStructure.variables d) = None) data →
     on_message d s (MsgUpdate data) = (d, s))
  ∧ (∀ msg var_id,
       dict_get var_id (DriverStructure.variables d) = None →
       on_message d s (MsgVarInfo msg var_id) = (d, s))
  ∧ (∀ tag, on_message d s (MsgOther tag) = (d, s)).
Proof.
  split_and!.
  - intros data Hdata. cbn [on_message].
    induction Hdata as [|[var_id value] data Hx Hdata IH]; [done|].
    cbn [foldl]. unfold worker_update at 2. cbn [fst] in Hx. by rewrite Hx.
  - intros msg var_id H. cbn [on_message]. by rewrite H.
  - done.
Qed.

Lemma unknown_variables_are_ignored_witness :
  on_message driver_S1 after_S1 (MsgUpdate [("y", PyInt 1); ("z", PyNone)])
  = (driver_S1, after_S1).
Proof.
  apply (proj1 (unknown_variables_are_ignored driver_S1 after_S1)).
  repeat constructor.
Defined.

(** ** The reconciler: the last value wins *)




(** On the model: from an unset variable the values 1, 1.0, 2, 2 are
    taken twice (1.0 does not differ from 1); a NaN reported three
    times is taken three times. *)
Example scenario_values :
  changes PyNone [PyInt 1; PyFloat 1%float; PyInt 2; PyInt 2] = 2
  ∧ settle PyNone [PyInt 1; PyFloat 1%float; PyInt 2; PyInt 2] = PyInt 2
  ∧ changes PyNone [PyFloat nan; PyFloat nan; PyFloat nan] = 3.
Proof. vm_compute. split_and!; reflexivity. Qed.

(** ** Host writes: a value is stored once *)







(** Scenario: the first write of 7 to [vh1] reaches the worker of
    [DRIVER_1] as one [UPDATE]. *)
Example scenario_first_write :
  trace (after running_S1 (FrameUpdates [("vh1", PyInt 7)]))
  = trace running_S1 ++ [EvSend "DRIVER_1" (UPDATE [("x", PyInt 7)])].
Proof. vm_compute. reflexivity. Qed.

(** Scenario: a NaN written twice is sent to the worker twice. *)
Example scenario_nan_write :
  trace (after (after running_S1 (FrameUpdates [("vh1", PyFloat nan)]))
           (FrameUpdates [("vh1", PyFloat nan)]))
  = trace running_S1
    ++ [EvSend "DRIVER_1" (UPDATE [("x", PyFloat nan)]);
        EvSend "DRIVER_1" (UPDATE [("x", PyFloat nan)])].
Proof. vm_compute. reflexivity. Qed.




(** Scenario: an echoed NaN is counted as a read and queued for the
    host. *)
Example scenario_nan_echo :
  let s1 := after running_S1 (FrameUpdates [("vh1", PyFloat nan)]) in
  let d1 := default driver_S1 (dict_get "DRIVER_1" (_drivers s1)) in
  let r := on_message d1 (get_updates s1).1 (MsgUpdate [("x", PyFloat nan)]) in
  (VariableStructure.read_count <$> dict_get "x" (DriverStructure.variables r.1))
  = Some 1
  ∧ _value_updates r.2 = [("vh1", PyFloat nan)].
Proof. vm_compute. split; reflexivity. Qed.

(** ** After CLEAN *)

(** X10.  [CLEAN] empties the registry but leaves the handle index, so
    a later write through any handle that was registered fails: for a
    running manager in a reachable state and an indexed handle [h], an
    [UPDATES] command whose first entry is [h] raises [KeyError] after
    [CLEAN]; and a round of [run_forever] that finds [CLEAN] followed
    by such an [UPDATES] frame on the host channel raises it too,
    because the frames still waiting are dispatched before
    [_running] is looked at again. *)
Theorem updates_after_clean_raise registered_drivers s h x dn v more :
  reachable registered_drivers s → _running s = true →
  dict_get h (_handles s) = Some (x, dn) →
  (∀ s' r, send_command registered_drivers s FrameClean = Ok (s', r) →
     send_command registered_drivers s' (FrameUpdates ((h, v) :: more))
     = Raise KeyError)
  ∧ ∀ later sent clock,
      run_forever_round registered_drivers s
        (mkHost (FrameClean :: FrameUpdates ((h, v) :: more) :: later) sent) clock
      = Raise KeyError.
Proof.
  intros Hreach Hrun Eh. pose proof (reachable_invariant _ _ Hreach) as Hinv.
  assert (Hdn : dn ≠ "").
  { destruct (inv_handles _ Hinv Hrun _ _ _ Eh) as (d & vs & Hd & _).
    destruct (inv_names _ Hinv _ _ Hd) as (_ & n & -> & _).
    apply driver_name_of_nonempty. }
  assert (Hraise : send_command registered_drivers
                     (set_running (clean_drivers s) false)
                     (FrameUpdates ((h, v) :: more)) = Raise KeyError).
  { rewrite clean_drivers_spec. simpl. by rewrite Eh, decide_False. }
  split.
  - intros s' r [= <- <-]. exact Hraise.
  - intros later sent clock.
    assert (Hclean : send_command registered_drivers s FrameClean
                     = Ok (set_running (clean_drivers s) false,
                           Some (OutString "SUCCESS"))) by done.
    remember (set_running (clean_drivers s) false) as s1.
    unfold run_forever_round. cbn [drain_host incoming].
    rewrite Hclean. cbn [result_bind fst snd]. rewrite decide_False by lia.
    by rewrite Hraise.
Qed.

Lemma updates_after_clean_raise_witness :
  (∀ s' r, send_command registered_drivers_base after_S1 FrameClean = Ok (s', r) →
     send_command registered_drivers_base s' (FrameUpdates [("vh1", PyInt 1)])
     = Raise KeyError)
  ∧ ∀ later sent clock,
      run_forever_round registered_drivers_base after_S1
        (mkHost (FrameClean :: FrameUpdates [("vh1", PyInt 1)] :: later) sent) clock
      = Raise KeyError.
Proof.
  apply (updates_after_clean_raise registered_drivers_base after_S1
           "vh1" "x" "DRIVER_1" (PyInt 1) []).
  - apply after_S1_reachable.
  - reflexivity.
  - reflexivity.
Defined.

(** ** Provisioning: names, classes and the reply *)

Lemma starts_app a b : starts (a ++ b) = starts a ++ starts b.
Proof. unfold starts. apply omap_app. Qed.

Lemma starts_sends evs : Forall is_send evs → starts evs = [].
Proof.
  induction 1 as [|e evs He _ IH]; [done|].
  by destruct e.
Qed.

Lemma starts_joins items : starts (join_events items) = [].
Proof.
  unfold join_events. induction (reverse items) as [|kv l IH]; done.
Qed.

Lemma classes_set (registered : list string) key d (l : pydict DriverStructure.t) :
  (∀ k x, dict_get k l = Some x → DriverStructure.class_name x ∈ registered) →
  DriverStructure.class_name d ∈ registered →
  ∀ k x, dict_get k (dict_set key d l) = Some x →
    DriverStructure.class_name x ∈ registered.
Proof.
  intros Hl Hd k x. destruct (decide (key = k)) as [->|Hne].
  - rewrite dict_get_set_eq. by intros [= <-].
  - rewrite dict_get_set_ne by done. apply Hl.
Qed.

Lemma orderly_carried registered s s' :
  orderly registered s →
  registry_rel settles (_drivers s) (_drivers s') →
  _driver_counter s' = _driver_counter s →
  (∃ evs, trace s' = trace s ++ evs ∧ Forall is_send evs) →
  orderly registered s'.
Proof.
  intros (H1 & H2 & H3) Hrel Hc (evs & Htr & Hevs). split_and!.
  - by rewrite Htr, starts_app, (starts_sends evs), app_nil_r, Hc.
  - intros key. rewrite (registry_rel_keys _ _ _ Hrel), Htr, starts_app.
    intros Hk. apply elem_of_app. left. by apply H2.
  - intros key d' Hd'.
    destruct (registry_rel_get_inv _ _ _ _ _ Hrel Hd') as (d & Hd & [Hev _]).
    rewrite (ev_class _ _ Hev). by apply (H3 key).
Qed.

Lemma register_variables_trace s key ds dd :
  _driver_counter (register_variables s key ds dd) = _driver_counter s
  ∧ ∃ sent, trace (register_variables s key ds dd) = trace s ++ sent
            ∧ Forall is_send sent.
Proof.
  destruct (add_driver_variables_spec ds (get_variables dd))
    as (vs & res & sent & Heq & _ & Hs & _).
  unfold register_variables. rewrite Heq. simpl. eauto.
Qed.

Lemma setup_driver_orderly registered s res item s' res' :
  invariant s → orderly registered s →
  setup_driver registered (s, res) item = Ok (s', res') →
  orderly registered s'.
Proof.
  intros Hinv (H1 & H2 & H3). destruct item as [h dd].
  unfold setup_driver, find_compatible_driver.
  destruct (find_compatible_in (_drivers s) dd) as [[[key ds]|]|e] eqn:Efind;
    cbn [result_bind]; [| |done].
  - intros [= <- <-].
    apply found_is_stored in Efind; [|apply Hinv].
    match goal with
    | |- orderly _ (register_variables ?a ?b ?c ?d) =>
        destruct (register_variables_drivers a b c d) as [vs Hvs];
        destruct (register_variables_trace a b c d) as (Hc & sent & Htr & Hsent)
    end.
    simpl in Hvs, Hc, Htr. split_and!.
    + by rewrite Htr, starts_app, (starts_sends sent), app_nil_r, Hc.
    + intros k. rewrite Hvs, Htr, starts_app, dict_keys_set.
      intros [->|Hk]; apply elem_of_app; left; apply H2; [|done].
      apply dict_get_is_Some. eauto.
    + rewrite Hvs. apply classes_set; [exact H3|]. simpl. by apply (H3 key).
  - unfold start_driver.
    destruct (decide (get_DRIVER dd ∈ registered)) as [Hreg|Hreg];
      [|intros [= <- <-]; by split_and!].
    intros [= <- <-].
    match goal with
    | |- orderly _ (register_variables ?a ?b ?c ?d) =>
        destruct (register_variables_drivers a b c d) as [vs Hvs];
        destruct (register_variables_trace a b c d) as (Hc & sent & Htr & Hsent)
    end.
    simpl in Hvs, Hc, Htr. split_and!.
    + rewrite Htr, Hc, !starts_app, (starts_sends sent), app_nil_r by done.
      rewrite H1, seq_S, map_app. done.
    + intros k. rewrite Hvs, Htr, !starts_app, dict_keys_set. simpl.
      intros [->|Hk]; apply elem_of_app; left; apply elem_of_app.
      * right. apply list_elem_of_singleton. done.
      * left. by apply H2.
    + rewrite Hvs. apply classes_set; [exact H3 | done].
Qed.

Lemma setup_loop_orderly registered items s res s' res' :
  invariant s → orderly registered s →
  setup_loop registered items (s, res) = Ok (s', res') →
  orderly registered s'.
Proof.
  revert s res. induction items as [|item items IH]; intros s res Hinv Hord;
    cbn [setup_loop].
  - by intros [= <- <-].
  - destruct (setup_driver registered (s, res) item) as [[s1 res1]|e] eqn:E;
      cbn [result_bind]; [|done].
    apply IH.
    + by eapply setup_driver_invariant.
    + by eapply setup_driver_orderly.
Qed.

Lemma clean_orderly registered s :
  orderly registered s → orderly registered (set_running (clean_drivers s) false).
Proof.
  intros (H1 & H2 & H3). rewrite clean_drivers_spec.
  unfold orderly, set_running, add_events, set_drivers.
  cbn [trace _drivers _driver_counter]. split_and!.
  - rewrite !starts_app, starts_joins, app_nil_r,
      (starts_sends (exit_events (_drivers s))), app_nil_r; [done|].
    unfold exit_events. apply Forall_forall. intros e He.
    apply list_elem_of_fmap in He as (kv & -> & _). done.
  - intros key Hk. by apply elem_of_nil in Hk.
  - done.
Qed.

Lemma send_command_orderly registered s frame s' r :
  invariant s → orderly registered s →
  send_command registered s frame = Ok (s', r) →
  orderly registered s'.
Proof.
  intros Hinv Hord. destruct frame as [data| |data|c]; simpl.
  - unfold setup_drivers.
    destruct (setup_loop registered data (s, [])) as [[s1 res]|e] eqn:E;
      simpl; [|done].
    intros [= <- <-]. by eapply setup_loop_orderly.
  - intros [= <- <-]. by apply clean_orderly.
  - destruct (host_updates data s) as [s1|e] eqn:E; simpl; [|done].
    intros [= <- <-]. apply host_updates_written in E as [E1 E2].
    rewrite flush_spec.
    eapply orderly_carried; [exact Hord | | |]; simpl.
    + by apply flush_settles.
    + by apply rest_counter.
    + exists (pending_sends (_drivers s1)). rewrite (rest_trace _ _ E2).
      split; [done | apply pending_sends_are_sends].
  - destruct c; try (by intros [= <- <-]); try done.
    intros [= <- <-]. by apply clean_orderly.
Qed.

Lemma run_once_orderly registered s clock max :
  orderly registered s → orderly registered (run_once s clock max).1.
Proof.
  intros Hord. unfold run_once.
  destruct (run_drivers_steady max (_drivers s) s) as (H1 & H2 & H3).
  destruct (run_drivers max (_drivers s) s) as [items s1]. simpl in H1, H2, H3.
  assert (Hcore : ∀ x, core x = core s →
             _driver_counter x = _driver_counter s ∧ trace x = trace s).
  { unfold core. intros x [=]. done. }
  destruct (Hcore _ H2) as (E2 & E4).
  eapply orderly_carried; [exact Hord | | |].
  - case_decide; simpl; eapply registry_rel_impl; try exact H1; apply steady_settles.
  - by case_decide.
  - exists []. rewrite app_nil_r. by case_decide.
Qed.

Lemma worker_send_orderly registered s key m :
  orderly registered s → orderly registered (worker_send s key m).
Proof.
  intros Hord. unfold worker_send.
  destruct (dict_get key (_drivers s)) as [d|] eqn:E; [|done].
  eapply orderly_carried; [exact Hord | | done |].
  - simpl. eapply registry_rel_set; [| exact E |].
    + intros x. split; [apply evolves_refl | done].
    + split; [apply set_pipe_evolves | done].
  - exists []. simpl. by rewrite app_nil_r.
Qed.

Lemma reachable_orderly registered s : reachable registered s → orderly registered s.
Proof.
  induction 1 as [up path clock|s frame s' r Hs IH Hcmd|s clock max _ IH
                  |s _ IH|s key m _ IH].
  - split_and!; done.
  - eapply send_command_orderly; [|exact IH|exact Hcmd].
    by apply reachable_invariant with registered.
  - by apply run_once_orderly.
  - eapply orderly_carried; [exact IH | apply registry_rel_settles_refl | done |].
    exists []. simpl. by rewrite app_nil_r.
  - by apply worker_send_orderly.
Qed.

(** X11.  Workers are started under the names [DRIVER_1], [DRIVER_2],
    ... in this order, one name per start: in every reachable state the
    names of the workers started so far are exactly [DRIVER_1] to
    [DRIVER_n] for [n] the driver counter, so no name is used twice,
    not even after [CLEAN]; every live driver is stored under the name
    its worker was started with, and its class is a registered one. *)
Theorem worker_names_in_order registered s :
  reachable registered s →
  starts (trace s) = map driver_name_of (seq 1 (_driver_counter s))
  ∧ NoDup (starts (trace s))
  ∧ (∀ key d, dict_get key (_drivers s) = Some d →
       key ∈ starts (trace s) ∧ DriverStructure.name d = key
       ∧ DriverStructure.class_name d ∈ registered).
Proof.
  intros Hreach. destruct (reachable_orderly _ _ Hreach) as (H1 & H2 & H3).
  pose proof (reachable_invariant _ _ Hreach) as Hinv.
  split_and!; [done | |].
  - rewrite H1. apply NoDup_fmap_2.
    + intros n m. apply driver_name_of_inj.
    + apply NoDup_seq.
  - intros key d Hd. split_and!.
    + apply H2, dict_get_is_Some. eauto.
    + by apply (inv_names _ Hinv).
    + by apply (H3 key).
Qed.

Lemma worker_names_in_order_witness :
  let s := after after_clean (FrameSetupDrivers [("h1", spec_S1)]) in
  starts (trace s) = map driver_name_of (seq 1 (_driver_counter s))
  ∧ NoDup (starts (trace s))
  ∧ (∀ key d, dict_get key (_drivers s) = Some d →
       key ∈ starts (trace s) ∧ DriverStructure.name d = key
       ∧ DriverStructure.class_name d ∈ registered_drivers_base).
Proof.
  apply (worker_names_in_order registered_drivers_base
           (after after_clean (FrameSetupDrivers [("h1", spec_S1)]))).
  do 2 apply after_reachable. apply after_S1_reachable.
Defined.

(** Scenario: S1, [CLEAN], S1 again.  The second driver is
    [DRIVER_2]; the name [DRIVER_1] is not used again. *)
Example scenario_names :
  starts (trace (after after_clean (FrameSetupDrivers [("h1", spec_S1)])))
  = ["DRIVER_1"; "DRIVER_2"]
  ∧ dict_keys (_drivers (after after_clean (FrameSetupDrivers [("h1", spec_S1)])))
    = ["DRIVER_2"].
Proof. vm_compute. done. Qed.

(** A dictionary built key by key from distinct keys lists them in
    the order of insertion. *)
Lemma dict_build {A B} (f : A → B) (data : pydict A) (res : pydict B) :
  NoDup (dict_keys data) →
  (∀ k, k ∈ dict_keys data → k ∉ dict_keys res) →
  foldl (fun acc kv => dict_set kv.1 (f kv.2) acc) res data = res ++ dict_map f data.
Proof.
  revert res. induction data as [|[k v] data IH]; intros res Hnd Hfresh.
  - simpl. by rewrite app_nil_r.
  - rewrite dict_keys_cons in Hnd. apply NoDup_cons in Hnd as [Hk Hnd].
    cbn [foldl fst snd]. rewrite dict_set_new.
    2: { apply Hfresh. rewrite dict_keys_cons. apply list_elem_of_here. }
    rewrite IH; [by rewrite <- app_assoc | done |].
    intros k' Hk'. unfold dict_keys. rewrite fmap_app, not_elem_of_app. split.
    + apply Hfresh. rewrite dict_keys_cons. by apply list_elem_of_further.
    + simpl. rewrite list_elem_of_singleton. by intros ->.
Qed.

Lemma setup_driver_reply registered s res h dd s' res' :
  invariant s → orderly registered s →
  setup_driver registered (s, res) (h, dd) = Ok (s', res') →
  res' = dict_set h (verdict registered dd) res.
Proof.
  intros Hinv (_ & _ & Hcls) Hstep. unfold verdict.
  apply setup_driver_outcome in Hstep
    as [(key & ds & vs & Hfind & Hds & _ & ->)
       |[(vs & _ & Hreg & _ & ->)|(_ & Hreg & _ & ->)]]; [| | |done].
  - rewrite decide_True; [done|].
    apply find_compatible_in_Some in Hfind as (l1 & l2 & _ & _ & Hok).
    unfold DriverStructure.is_compatible in Hok.
    destruct (decide (DriverStructure.class_name ds = get_DRIVER dd)) as [<-|]; [|done].
    by apply (Hcls key).
  - by rewrite decide_True.
  - by rewrite decide_False.
Qed.

Lemma setup_loop_reply registered items s res s' res' :
  invariant s → orderly registered s →
  setup_loop registered items (s, res) = Ok (s', res') →
  res' = foldl (fun acc kv => dict_set kv.1 (verdict registered kv.2) acc) res items.
Proof.
  revert s res. induction items as [|[h dd] items IH]; intros s res Hinv Hord;
    cbn [setup_loop].
  - by intros [= <- <-].
  - destruct (setup_driver registered (s, res) (h, dd)) as [[s1 res1]|e] eqn:E;
      cbn [result_bind]; [|done].
    intros Hloop. cbn [foldl fst snd].
    rewrite <- (setup_driver_reply _ _ _ _ _ _ _ Hinv Hord E).
    eapply IH; [| |exact Hloop].
    + by eapply setup_driver_invariant.
    + by eapply setup_driver_orderly.
Qed.

(** X12.  The reply to [SETUP_DRIVERS] depends on the classes alone:
    whenever the command returns, in a reachable state, the reply lists
    the driver handles of the payload in the payload's order, each with
    [SUCCESS] if the class of its request is registered and [FAILED]
    if it is not; parameters and variables have no say. *)
Theorem setup_reply_by_class registered s data s' r :
  reachable registered s → NoDup (dict_keys data) →
  send_command registered s (FrameSetupDrivers data) = Ok (s', r) →
  r = Some (OutResults (dict_map (verdict registered) data)).
Proof.
  intros Hreach Hnd. cbn [send_command]. unfold setup_drivers.
  destruct (setup_loop registered data (s, [])) as [[s1 res]|e] eqn:E;
    cbn [result_bind]; [|done].
  intros [= <- <-]. cbn [snd]. do 2 f_equal.
  rewrite (setup_loop_reply _ _ _ _ _ _
             (reachable_invariant _ _ Hreach) (reachable_orderly _ _ Hreach) E).
  rewrite dict_build; [done | done |].
  intros k _. apply not_elem_of_nil.
Qed.

Lemma setup_reply_by_class_witness :
  Some (OutResults [("h1", "SUCCESS"); ("h2", "FAILED")])
  = Some (OutResults
            (dict_map (verdict registered_drivers_base)
               [("h1", spec_S1); ("h2", spec_unknown_class)])).
Proof.
  apply (setup_reply_by_class registered_drivers_base after_S1
           [("h1", spec_S1); ("h2", spec_unknown_class)]
           (after after_S1
              (FrameSetupDrivers [("h1", spec_S1); ("h2", spec_unknown_class)]))).
  - apply after_S1_reachable.
  - apply (bool_decide_unpack _). vm_compute. exact I.
  - vm_compute. reflexivity.
Defined.

Lemma setup_loop_unregistered registered items s res :
  invariant s → orderly registered s →
  Forall (fun kv => get_DRIVER kv.2 ∉ registered) items →
  setup_loop registered items (s, res)
  = Ok (s, foldl (fun acc kv => dict_set kv.1 "FAILED" acc) res items).
Proof.
  intros Hinv (_ & _ & Hcls) Hitems. revert res.
  induction Hitems as [|[h dd] items Hdd _ IH]; intros res; [done|].
  cbn [setup_loop]. unfold setup_driver at 1, find_compatible_driver.
  assert (Hnone : find_compatible_in (_drivers s) dd = Ok None).
  { apply find_compatible_in_None, Forall_forall. intros [key d] Hin.
    apply is_compatible_other_class. simpl in *. intros Heq. apply Hdd.
    rewrite <- Heq. apply (Hcls key). apply elem_dict_get; [apply Hinv | done]. }
  rewrite Hnone. cbn [result_bind]. unfold start_driver.
  rewrite decide_False by done. cbn [result_bind]. apply IH.
Qed.

(** X13.  Requests for classes that are not registered are refused
    without any effect: in a reachable state a [SETUP_DRIVERS] command
    whose requests all name unregistered classes returns (it does not
    raise, with or without parameters), answers [FAILED] for every
    driver handle, and leaves the manager exactly as it was: no worker
    is started, no handle indexed, the counter does not move. *)
Theorem unregistered_requests_fail registered s data :
  reachable registered s → NoDup (dict_keys data) →
  Forall (fun kv => get_DRIVER kv.2 ∉ registered) data →
  send_command registered s (FrameSetupDrivers data)
  = Ok (s, Some (OutResults (dict_map (fun _ => "FAILED") data))).
Proof.
  intros Hreach Hnd Hdata. cbn [send_command]. unfold setup_drivers.
  rewrite (setup_loop_unregistered _ _ _ _
             (reachable_invariant _ _ Hreach) (reachable_orderly _ _ Hreach) Hdata).
  cbn [result_bind fst snd]. do 3 f_equal.
  rewrite (dict_build (fun _ : driver_data => "FAILED")); [done | done |].
  intros k _. apply not_elem_of_nil.
Qed.

Lemma unregistered_requests_fail_witness :
  send_command registered_drivers_base after_S1
    (FrameSetupDrivers [("h2", spec_unknown_class)])
  = Ok (after_S1,
        Some (OutResults (dict_map (fun _ => "FAILED") [("h2", spec_unknown_class)]))).
Proof.
  apply (unregistered_requests_fail registered_drivers_base after_S1
           [("h2", spec_unknown_class)]).
  - apply after_S1_reachable.
  - apply (bool_decide_unpack _). vm_compute. exact I.
  - repeat constructor. simpl. apply (bool_decide_unpack _). vm_compute. exact I.
Defined.

(** ** Registering variables *)

Lemma filter_ext_in {A} (P Q : A → Prop) `{∀ x, Decision (P x)} `{∀ x, Decision (Q x)}
    (l : list A) :
  (∀ x, x ∈ l → P x ↔ Q x) → filter P l = filter Q l.
Proof.
  induction l as [|a l IH]; intros Hl; [done|].
  rewrite !filter_cons.
  rewrite IH by (intros x Hx; apply Hl; by apply list_elem_of_further).
  pose proof (Hl a (list_elem_of_here _ _)) as Ha.
  destruct (decide (P a)) as [Hp|Hp], (decide (Q a)) as [Hq|Hq]; tauto.
Qed.

Lemma requested_handle_cons x k vd vars :
  requested_handle x ((k, vd) :: vars)
  = if decide (k = x) then option_list (vd_handle vd) else requested_handle x vars.
Proof. unfold requested_handle. simpl. by destruct (decide (k = x)). Qed.

Lemma requested_handle_absent x (vars : pydict var_data) :
  x ∉ dict_keys vars → requested_handle x vars = [].
Proof. intros H. apply dict_get_None in H. unfold requested_handle. by rewrite H. Qed.

Lemma add_variable_step nm vs res setup k vd :
  DriverStructure.add_variable nm (vs, res, setup) (k, vd)
  = match vd_handle vd with
    | None => (vs, res, setup)
    | Some h =>
        match dict_get k vs with
        | None =>
            (dict_set k (VariableStructure.init h vd) vs,
             dict_set h (k, nm) res, dict_set k vd setup)
        | Some v =>
            (dict_set k (VariableStructure.add_handle v h) vs,
             dict_set h (k, nm) res, setup)
        end
    end.
Proof.
  unfold DriverStructure.add_variable.
  destruct (vd_handle vd) as [h|]; [|done]. by destruct (dict_get k vs).
Qed.

(** What the loop of [add_driver_variables] computes, from any
    variable table and any announcement built so far. *)
Lemma add_variables_fold nm (vars : list (string * var_data))
    (vs : pydict VariableStructure.t) (res : pydict (string * string))
    (setup : pydict var_data) :
  NoDup (dict_keys vars) →
  (∀ k, k ∈ dict_keys vars → k ∉ dict_keys setup) →
  let r := foldl (DriverStructure.add_variable nm) (vs, res, setup) vars in
  let new := filter (fun kv => is_Some (vd_handle kv.2) ∧ kv.1 ∉ dict_keys vs) vars in
  r.2 = setup ++ new
  ∧ dict_keys r.1.1 = dict_keys vs ++ dict_keys new
  ∧ ∀ x v, dict_get x vs = Some v →
      ∃ v', dict_get x r.1.1 = Some v'
            ∧ VariableStructure.value v' = VariableStructure.value v
            ∧ VariableStructure.info v' = VariableStructure.info v
            ∧ VariableStructure.write_count v' = VariableStructure.write_count v
            ∧ VariableStructure.read_count v' = VariableStructure.read_count v
            ∧ VariableStructure.handlers v'
              = VariableStructure.handlers v ++ requested_handle x vars.
Proof.
  cbn zeta. revert vs res setup.
  induction vars as [|[k vd] vars IH]; intros vs res setup Hnd Hfresh.
  - simpl. rewrite !app_nil_r. split_and!; try done.
    intros x v Hx. exists v. by rewrite app_nil_r.
  - rewrite dict_keys_cons in Hnd. apply NoDup_cons in Hnd as [Hk Hnd].
    assert (Hksetup : k ∉ dict_keys setup).
    { apply Hfresh. rewrite dict_keys_cons. apply list_elem_of_here. }
    assert (Htail : ∀ k', k' ∈ dict_keys vars → k' ∉ dict_keys setup).
    { intros k' Hk'. apply Hfresh. rewrite dict_keys_cons.
      by apply list_elem_of_further. }
    cbn [foldl]. rewrite add_variable_step, filter_cons. cbn [fst snd].
    destruct (vd_handle vd) as [h|] eqn:Eh.
    2: { rewrite decide_False by (intros [[? [=]] _]).
         destruct (IH vs res setup Hnd Htail) as (H1 & H2 & H3).
         split_and!; [done | done |].
         intros x v Hx. destruct (H3 x v Hx) as (v' & G1 & G2 & G3 & G4 & G5 & G6).
         exists v'. split_and!; try done.
         rewrite requested_handle_cons, Eh. destruct (decide (k = x)) as [<-|]; [|done].
         by rewrite G6, requested_handle_absent. }
    destruct (dict_get k vs) as [v0|] eqn:Ek.
    + assert (Hin : k ∈ dict_keys vs) by (apply dict_get_is_Some; eauto).
      rewrite decide_False by (intros [_ ?]; done).
      destruct (IH (dict_set k (VariableStructure.add_handle v0 h) vs)
                  (dict_set h (k, nm) res) setup Hnd Htail) as (H1 & H2 & H3).
      rewrite dict_keys_set_old in H1, H2 by done.
      split_and!; [done | done |].
      intros x v Hx. rewrite requested_handle_cons, Eh.
      destruct (decide (k = x)) as [<-|Hne].
      * rewrite Ek in Hx. injection Hx as <-.
        destruct (H3 k (VariableStructure.add_handle v0 h))
          as (v' & G1 & G2 & G3 & G4 & G5 & G6); [apply dict_get_set_eq|].
        exists v'. split_and!; try done.
        rewrite G6, requested_handle_absent, app_nil_r by done. done.
      * destruct (H3 x v) as (v' & G); [by rewrite dict_get_set_ne|]. eauto.
    + assert (Hnin : k ∉ dict_keys vs) by (by apply dict_get_None).
      rewrite decide_True by (split; [eauto | done]).
      destruct (IH (dict_set k (VariableStructure.init h vd) vs)
                  (dict_set h (k, nm) res) (dict_set k vd setup) Hnd)
        as (H1 & H2 & H3).
      { intros k' Hk'. rewrite dict_keys_set. intros [->|Hin]; [done|].
        by apply (Htail k'). }
      assert (Hsame :
        filter (fun kv : string * var_data =>
                  is_Some (vd_handle kv.2)
                  ∧ kv.1 ∉ dict_keys (dict_set k (VariableStructure.init h vd) vs)) vars
        = filter (fun kv : string * var_data =>
                    is_Some (vd_handle kv.2) ∧ kv.1 ∉ dict_keys vs) vars).
      { apply filter_ext_in. intros [k' vd'] Hin. simpl. rewrite dict_keys_set.
        assert (k' ≠ k).
        { intros ->. apply Hk. unfold dict_keys. apply list_elem_of_fmap.
          by exists (k, vd'). }
        tauto. }
      rewrite Hsame in H1, H2.
      assert (Hkeys : dict_keys (dict_set k (VariableStructure.init h vd) vs)
                      = dict_keys vs ++ [k]).
      { rewrite dict_set_new by done. unfold dict_keys. by rewrite fmap_app. }
      rewrite Hkeys in H2.
      assert (Hset : dict_set k vd setup = setup ++ [(k, vd)])
        by (by apply dict_set_new).
      rewrite Hset in H1, H2 |- *. setoid_rewrite Hset in H3.
      split_and!.
      * by rewrite H1, <- app_assoc.
      * rewrite H2, dict_keys_cons, <- app_assoc. done.
      * intros x v Hx. rewrite requested_handle_cons.
        destruct (decide (k = x)) as [<-|Hne]; [congruence|].
        destruct (H3 x v) as (v' & G); [by rewrite dict_get_set_ne|]. eauto.
Qed.

(** X14.  Registering the variables of a request with a driver
    announces to the worker exactly the variables that are new to the
    driver and come with a handle, in the order of the request, in one
    [ADD_VARIABLES] message, and sends nothing when there is none.  The
    new variables are appended to the variable table.  A variable the
    driver already has keeps its value, its info and its counters and
    gains the handle the request gives for it: registering a variable
    again never resets it. *)
Theorem add_variables_announces_new d vars :
  NoDup (dict_keys vars) →
  let r := DriverStructure.add_driver_variables d vars in
  r.2 = match new_variables d vars with
        | [] => []
        | _ :: _ =>
            [EvSend (DriverStructure.name d) (ADD_VARIABLES (new_variables d vars))]
        end
  ∧ dict_keys (DriverStructure.variables r.1.1)
    = dict_keys (DriverStructure.variables d) ++ dict_keys (new_variables d vars)
  ∧ ∀ x v, dict_get x (DriverStructure.variables d) = Some v →
      ∃ v', dict_get x (DriverStructure.variables r.1.1) = Some v'
            ∧ VariableStructure.value v' = VariableStructure.value v
            ∧ VariableStructure.info v' = VariableStructure.info v
            ∧ VariableStructure.write_count v' = VariableStructure.write_count v
            ∧ VariableStructure.read_count v' = VariableStructure.read_count v
            ∧ VariableStructure.handlers v'
              = VariableStructure.handlers v ++ requested_handle x vars.
Proof.
  intros Hnd. cbn zeta. unfold DriverStructure.add_driver_variables, new_variables.
  destruct (add_variables_fold (DriverStructure.name d) vars
              (DriverStructure.variables d) [] [] Hnd) as (H1 & H2 & H3).
  { intros k _. apply not_elem_of_nil. }
  match type of H1 with
  | (?t).2 = _ =>
      match goal with
      | |- context [foldl ?f ?a ?l] => change (foldl f a l) with t
      end;
      revert H1 H2 H3; destruct t as [[vs res] setup]
  end.
  cbn [fst snd]. rewrite app_nil_l. intros -> H2 H3.
  split_and!; done.
Qed.

Lemma add_variables_announces_new_witness :
  let vars := [("x", {| vd_handle := Some "vh9"; vd_other := [] |});
               ("y", {| vd_handle := Some "vh2"; vd_other := [] |});
               ("z", {| vd_handle := None; vd_other := [] |})] in
  let r := DriverStructure.add_driver_variables driver_S1 vars in
  r.2 = match new_variables driver_S1 vars with
        | [] => []
        | _ :: _ =>
            [EvSend (DriverStructure.name driver_S1)
               (ADD_VARIABLES (new_variables driver_S1 vars))]
        end
  ∧ dict_keys (DriverStructure.variables r.1.1)
    = dict_keys (DriverStructure.variables driver_S1)
      ++ dict_keys (new_variables driver_S1 vars)
  ∧ ∀ x v, dict_get x (DriverStructure.variables driver_S1) = Some v →
      ∃ v', dict_get x (DriverStructure.variables r.1.1) = Some v'
            ∧ VariableStructure.value v' = VariableStructure.value v
            ∧ VariableStructure.info v' = VariableStructure.info v
            ∧ VariableStructure.write_count v' = VariableStructure.write_count v
            ∧ VariableStructure.read_count v' = VariableStructure.read_count v
            ∧ VariableStructure.handlers v'
              = VariableStructure.handlers v ++ requested_handle x vars.
Proof.
  apply (add_variables_announces_new driver_S1).
  apply (bool_decide_unpack _). vm_compute. exact I.
Defined.

(** Scenario: of the variables x (known), y (new) and z (no handle)
    only y is announced. *)
Example scenario_add_variables :
  (DriverStructure.add_driver_variables driver_S1
     [("x", {| vd_handle := Some "vh9"; vd_other := [] |});
      ("y", {| vd_handle := Some "vh2"; vd_other := [] |});
      ("z", {| vd_handle := None; vd_other := [] |})]).2
  = [EvSend "DRIVER_1"
       (ADD_VARIABLES [("y", {| vd_handle := Some "vh2"; vd_other := [] |})])].
Proof. vm_compute. reflexivity. Qed.

(** ** The outbound maps *)


(** ** Statistics *)

Lemma run_once_stats s clock max :
  _start_time (run_once s clock max).1 = _start_time s
  ∧ if decide (clock - _start_time s - _last_status_record s >= 1)%Z
    then _last_status_record (run_once s clock max).1 = (clock - _start_time s)%Z
         ∧ _stats_updates (run_once s clock max).1 = stats_of s
    else _last_status_record (run_once s clock max).1 = _last_status_record s
         ∧ _stats_updates (run_once s clock max).1 = _stats_updates s.
Proof.
  unfold run_once.
  destruct (run_drivers_steady max (_drivers s) s) as (H1 & H2 & H3).
  destruct (run_drivers max (_drivers s) s) as [items s1]. simpl in H1, H2, H3.
  assert (Hcore : _handles s1 = _handles s ∧ _stats_updates s1 = _stats_updates s
                  ∧ _start_time s1 = _start_time s
                  ∧ _last_status_record s1 = _last_status_record s).
  { unfold core in H2. by injection H2. }
  destruct Hcore as (E1 & E2 & E3 & E4).
  pose proof (Forall2_length _ _ _ H1) as Hlen.
  cbn [fst]. simpl. rewrite E3, E4.
  destruct (decide (clock - _start_time s - _last_status_record s >= 1)%Z);
    simpl; split_and!; try done.
  unfold stats_of. by rewrite E1, Hlen.
Qed.

(** X16.  Statistics are collected at most once per second of the
    clock: a reconciler pass at a reading at least one second after the
    last record sets [stats_updates] to the number of drivers and the
    number of indexed handles; and once the host has fetched the
    updates, another pass at the same clock reading collects no
    statistics again. *)
Theorem stats_once_per_second s clock max max' :
  ((clock - _start_time s - _last_status_record s >= 1)%Z →
   _stats_updates (run_once s clock max).1 = stats_of s)
  ∧ _stats_updates
      (run_once (get_updates (run_once s clock max).1).1 clock max').1 = [].
Proof.
  destruct (run_once_stats s clock max) as [Hstart Hfirst]. split.
  - intros Hc. rewrite decide_True in Hfirst by done. apply Hfirst.
  - destruct (run_once_stats (get_updates (run_once s clock max).1).1 clock max')
      as [_ Hsecond].
    cbn [get_updates fst] in Hsecond. simpl in Hsecond. rewrite Hstart in Hsecond.
    destruct (decide (clock - _start_time s - _last_status_record s >= 1)%Z)
      as [Hc|Hc].
    + destruct Hfirst as [Hlast _]. rewrite Hlast in Hsecond.
      rewrite decide_False in Hsecond by lia. apply Hsecond.
    + destruct Hfirst as [Hlast _]. rewrite Hlast in Hsecond.
      rewrite decide_False in Hsecond by done. apply Hsecond.
Qed.

(** ** The end of the loop *)

(** X17.  [CLEAN] ends [run_forever] at once: in the round in which a
    running manager receives [CLEAN] as the only frame, it shuts the
    drivers down, answers [SUCCESS], and stops; the reconciler pass of
    that round is skipped and no later round takes place, so that
    messages still waiting on worker channels are never read and
    updates still waiting in the outbound maps are never sent. *)
Theorem clean_ends_the_loop registered s host tk later :
  _running s = true → incoming host = [] → host_frames tk = [FrameClean] →
  run_forever registered (tk :: later) s host
  = Ok (set_running (clean_drivers (arrive s host tk).1) false,
        mkHost [] (outgoing host ++ [(CLEAN, OutString "SUCCESS")])).
Proof.
  intros Hrun Hin Hframes. cbn [run_forever]. rewrite Hrun.
  unfold arrive. rewrite Hin, Hframes. cbn [app fst].
  set (s1 := foldl _ s (worker_messages tk)).
  unfold run_forever_round. cbn [drain_host incoming outgoing].
  cbn [send_command result_bind fst snd frame_command].
  rewrite decide_False by lia. cbn [drain_host result_bind fst snd].
  replace (_running (set_running (clean_drivers s1) false)) with false by done.
  cbn [result_bind fst snd]. destruct later as [|tk' later]; [done|].
  cbn [run_forever].
  by replace (_running (set_running (clean_drivers s1) false)) with false by done.
Qed.

Lemma clean_ends_the_loop_witness :
  run_forever registered_drivers_base [mkTick [FrameClean] [] 5; mkTick [] [] 6]
    before_S3 (mkHost [] [])
  = Ok (set_running
          (clean_drivers (arrive before_S3 (mkHost [] []) (mkTick [FrameClean] [] 5)).1)
          false,
        mkHost [] (outgoing (mkHost [] []) ++ [(CLEAN, OutString "SUCCESS")])).
Proof.
  apply (clean_ends_the_loop registered_drivers_base before_S3 (mkHost [] [])
           (mkTick [FrameClean] [] 5) [mkTick [] [] 6]); reflexivity.
Defined.

(** ** The handle index only grows *)

Lemma length_dict_set {V} k (v : V) d : length d ≤ length (dict_set k v d).
Proof.
  induction d as [|[k' v'] d IH]; simpl; [lia|].
  destruct (decide (k' = k)); simpl; lia.
Qed.

Lemma length_dict_update {V} (d delta : pydict V) :
  length d ≤ length (dict_update d delta).
Proof.
  unfold dict_update. revert d. induction delta as [|[k v] delta IH]; intros d;
    [done|].
  cbn [foldl fst snd]. etrans; [apply (length_dict_set k v)|apply IH].
Qed.

Lemma register_variables_handles s key ds dd :
  ∃ delta, _handles (register_variables s key ds dd) = dict_update (_handles s) delta.
Proof.
  unfold register_variables.
  destruct (DriverStructure.add_driver_variables ds (get_variables dd))
    as [[ds' delta] sent]. by exists delta.
Qed.

Lemma setup_driver_handles registered acc item acc' :
  setup_driver registered acc item = Ok acc' →
  ∃ delta, _handles acc'.1 = dict_update (_handles acc.1) delta.
Proof.
  destruct acc as [s res], item as [h dd]. unfold setup_driver, find_compatible_driver.
  destruct (find_compatible_in (_drivers s) dd) as [[[key ds]|]|e];
    cbn [result_bind]; [| |done].
  - intros [= <-].
    match goal with
    | |- context [register_variables ?a ?b ?c ?d] =>
        destruct (register_variables_handles a b c d) as [delta Hd]
    end.
    exists delta. exact Hd.
  - unfold start_driver. destruct (decide (get_DRIVER dd ∈ registered)).
    + intros [= <-].
      match goal with
      | |- context [register_variables ?a ?b ?c ?d] =>
          destruct (register_variables_handles a b c d) as [delta Hd]
      end.
      exists delta. exact Hd.
    + intros [= <-]. by exists [].
Qed.

Lemma setup_loop_handles registered items acc acc' :
  setup_loop registered items acc = Ok acc' →
  dict_keys (_handles acc.1) ⊆ dict_keys (_handles acc'.1)
  ∧ length (_handles acc.1) ≤ length (_handles acc'.1).
Proof.
  revert acc. induction items as [|item items IH]; intros acc; cbn [setup_loop].
  - by intros [= <-].
  - destruct (setup_driver registered acc item) as [acc1|e] eqn:E;
      cbn [result_bind]; [|done].
    intros Hloop. destruct (IH _ Hloop) as [H1 H2].
    destruct (setup_driver_handles _ _ _ _ E) as [delta Hd]. split.
    + intros k Hk. apply H1. rewrite Hd. apply dict_update_keys. by left.
    + etrans; [|exact H2]. rewrite Hd. apply length_dict_update.
Qed.

(** X18.  Nothing ever leaves the handle index: every command that
    returns leaves an index that has all the handles it had before
    (and so at least as many entries: [VARIABLE_COUNT] never goes
    down, not even with [CLEAN]); the reconciler pass and the fetching
    of updates leave the index as it is. *)
Theorem handle_index_never_shrinks registered s :
  (∀ frame s' r, send_command registered s frame = Ok (s', r) →
     dict_keys (_handles s) ⊆ dict_keys (_handles s')
     ∧ length (_handles s) ≤ length (_handles s'))
  ∧ (∀ clock max, _handles (run_once s clock max).1 = _handles s)
  ∧ _handles (get_updates s).1 = _handles s.
Proof.
  split_and!; [|intros clock max|done].
  - intros frame s' r. destruct frame as [data| |data|c]; cbn [send_command].
    + unfold setup_drivers.
      destruct (setup_loop registered data (s, [])) as [acc|e] eqn:E;
        cbn [result_bind]; [|done].
      intros [= <- <-]. apply (setup_loop_handles _ _ _ _ E).
    + intros [= <- <-]. by rewrite clean_drivers_spec.
    + destruct (host_updates data s) as [s1|e] eqn:E; cbn [result_bind]; [|done].
      intros [= <- <-]. apply host_updates_written in E as [_ E].
      rewrite flush_spec. simpl. by rewrite (rest_handles _ _ E).
    + destruct c; try done; intros [= <- <-]; try done.
      by rewrite clean_drivers_spec.
  - unfold run_once.
    destruct (run_drivers_steady max (_drivers s) s) as (_ & H2 & _).
    destruct (run_drivers max (_drivers s) s) as [items s1]. simpl in H2.
    assert (E : _handles s1 = _handles s) by (unfold core in H2; by injection H2).
    by case_decide.
Qed.

(** ** Joining a live driver *)

Lemma register_variables_status_updates s key ds dd :
  _status_updates (register_variables s key ds dd) = _status_updates s.
Proof.
  unfold register_variables.
  by destruct (DriverStructure.add_driver_variables ds (get_variables dd))
    as [[ds' delta] sent].
Qed.

(** X19.  A request that is served by a live driver learns that
    driver's current status at once: when [SETUP_DRIVERS] with a single
    request finds a compatible driver, the reply is [SUCCESS], no
    worker is started and the counter does not move, the driver gains
    the request's handle as its last handle and keeps its status, and
    [status_updates] maps the new handle to that status, ready to be
    sent to the host. *)
Theorem joining_reports_status registered s h dd key ds s' r :
  reachable registered s →
  find_compatible_in (_drivers s) dd = Ok (Some (key, ds)) →
  send_command registered s (FrameSetupDrivers [(h, dd)]) = Ok (s', r) →
  r = Some (OutResults [(h, "SUCCESS")])
  ∧ dict_get h (_status_updates s') = Some (DriverStructure.status ds)
  ∧ _driver_counter s' = _driver_counter s
  ∧ starts (trace s') = starts (trace s)
  ∧ ∃ d', dict_get key (_drivers s') = Some d'
          ∧ DriverStructure.handlers d' = DriverStructure.handlers ds ++ [h]
          ∧ DriverStructure.status d' = DriverStructure.status ds.
Proof.
  intros Hreach Hfind. cbn [send_command]. unfold setup_drivers.
  cbn [setup_loop]. unfold setup_driver, find_compatible_driver.
  rewrite Hfind. cbn [result_bind fst snd]. intros [= <- <-].
  match goal with
  | |- context [register_variables ?a ?b ?c ?d] =>
      destruct (register_variables_drivers a b c d) as [vs Hvs];
      destruct (register_variables_trace a b c d) as (Hc & sent & Htr & Hsent);
      pose proof (register_variables_status_updates a b c d) as Hsu
  end.
  split_and!.
  - done.
  - rewrite Hsu. simpl. apply dict_get_set_eq.
  - exact Hc.
  - rewrite Htr, starts_app, (starts_sends sent), app_nil_r by done. done.
  - rewrite Hvs. eexists. split; [apply dict_get_set_eq | done].
Qed.

Lemma joining_reports_status_witness :
  let ds := default driver_S1 (dict_get "DRIVER_1" (_drivers running_S1)) in
  let s' := after running_S1 (FrameSetupDrivers [("h2", spec_S1)]) in
  Some (OutResults [("h2", "SUCCESS")]) = Some (OutResults [("h2", "SUCCESS")])
  ∧ dict_get "h2" (_status_updates s') = Some (DriverStructure.status ds)
  ∧ _driver_counter s' = _driver_counter running_S1
  ∧ starts (trace s') = starts (trace running_S1)
  ∧ ∃ d', dict_get "DRIVER_1" (_drivers s') = Some d'
          ∧ DriverStructure.handlers d' = DriverStructure.handlers ds ++ ["h2"]
          ∧ DriverStructure.status d' = DriverStructure.status ds.
Proof.
  apply (joining_reports_status registered_drivers_base running_S1 "h2" spec_S1
           "DRIVER_1").
  - apply running_S1_reachable.
  - vm_compute. reflexivity.
  - vm_compute. reflexivity.
Defined.

(** Scenario: the driver of S1 is running when a second request for
    it arrives; the new handle is told so. *)
Example scenario_late_join :
  dict_get "h2" (_status_updates (after running_S1 (FrameSetupDrivers [("h2", spec_S1)])))
  = Some (Status RUNNING).
Proof. vm_compute. reflexivity. Qed.

(** ** Conflicting parameters *)

(** X20.  A request that contradicts a parameter of a live driver
    never touches that driver: if the driver stores a value for some
    parameter key and the request carries a value for the same key from
    which the stored one differs ([!=]), then after [SETUP_DRIVERS] with that request the record
    of the driver is exactly what it was (no handle and no variable
    added), whichever driver serves the request. *)
Theorem conflicting_request_leaves_driver registered s h dd s' r key d own items k v v' :
  reachable registered s →
  dict_get key (_drivers s) = Some d →
  DriverStructure.parameters d = Some own →
  get_parameters dd = Some items →
  own !! k = Some v → items !! k = Some v' → py_ne v v' = true →
  send_command registered s (FrameSetupDrivers [(h, dd)]) = Ok (s', r) →
  dict_get key (_drivers s') = Some d.
Proof.
  intros Hreach Hd Hown Hitems Hk Hk' Hne.
  pose proof (reachable_invariant _ _ Hreach) as Hinv.
  cbn [send_command]. unfold setup_drivers. cbn [setup_loop].
  destruct (setup_driver registered (s, []) (h, dd)) as [[s1 res1]|e] eqn:E;
    cbn [result_bind]; [|done].
  intros [= <- <-]. cbn [fst].
  apply setup_driver_outcome in E
    as [(key0 & ds & vs & Hfind & Hds & -> & _)
       |[(vs & _ & _ & -> & _)|(_ & _ & -> & _)]]; [| | |done].
  - destruct (decide (key0 = key)) as [->|Hkey].
    + exfalso. rewrite Hd in Hds. injection Hds as <-.
      apply find_compatible_in_Some in Hfind as (l1 & l2 & _ & _ & Hok).
      destruct (is_compatible_spec d dd own items Hown Hitems) as (b & Hb & Hiff).
      rewrite Hok in Hb. injection Hb as <-.
      destruct Hiff as [Hiff _]. destruct (Hiff eq_refl) as [_ Hagree].
      pose proof (Hagree k v' v Hk' Hk). congruence.
    + by rewrite dict_get_set_ne.
  - rewrite <- dict_set_new by (apply fresh_driver_name, Hinv).
    rewrite dict_get_set_ne; [done|]. intros Heq.
    apply (fresh_driver_name s Hinv). rewrite Heq. apply dict_get_is_Some. eauto.
  - exact Hd.
Qed.

Lemma conflicting_request_leaves_driver_witness :
  let dd := {| DRIVER := Some "udp_driver";
               SETUP := Some
                 {| sd_parameters :=
                      Some (<["ip" := PyStr "127.0.0.1"]> (<["port" := PyInt 8401]> ∅));
                    sd_variables := sd_variables (get_SETUP spec_S1) |} |} in
  dict_get "DRIVER_1" (_drivers (after after_S1 (FrameSetupDrivers [("h2", dd)])))
  = Some driver_S1.
Proof.
  intros dd.
  apply (conflicting_request_leaves_driver registered_drivers_base after_S1 "h2" dd
            _ (Some (OutResults [("h2", "SUCCESS")]))
            "DRIVER_1" driver_S1
            (<["ip" := PyStr "127.0.0.1"]> (<["port" := PyInt 8400]> ∅))
            (<["ip" := PyStr "127.0.0.1"]> (<["port" := PyInt 8401]> ∅))
            "port" (PyInt 8400) (PyInt 8401)).
  - apply after_S1_reachable.
  - vm_compute. reflexivity.
  - reflexivity.
  - reflexivity.
  - vm_compute. reflexivity.
  - vm_compute. reflexivity.
  - done.
  - vm_compute. reflexivity.
Defined.

(** Scenario: the request with port 8401 is served by a second
    driver. *)
Example scenario_conflict :
  dict_keys
    (_drivers
       (after after_S1
          (FrameSetupDrivers
             [("h2",
               {| DRIVER := Some "udp_driver";
                  SETUP := Some
                    {| sd_parameters :=
                         Some (<["ip" := PyStr "127.0.0.1"]>
                                 (<["port" := PyInt 8401]> ∅));
                       sd_variables := sd_variables (get_SETUP spec_S1) |} |})])))
  = ["DRIVER_1"; "DRIVER_2"].
Proof. vm_compute. reflexivity. Qed.
